(** * go-dbkit: distributed SQL locks, transaction helper and retry classifier

    A shallow embedding of the Go packages [dbkit] (transaction helper,
    retry registry) and [distrlock] (lock manager, lock handle, lease
    supervisor), followed by the properties proved about them.

    Conventions of the embedding:
    - Go code that talks to the outside (database, contexts, UUID source,
      logger) runs in a state monad over an abstract world [W]; every
      primitive call is also appended to an event trace, so that statements
      such as "the function is never called" or "a rollback is attempted"
      can be written down.
    - A Go function that may panic returns an [outcome]: a value or a panic.
    - A method with a pointer receiver returns the updated receiver next to
      its Go result.
    - Go strings are byte strings; [String.length] is Go's [len]. *)

From Stdlib Require Import ZArith String Ascii List Lia Bool.
From Stdlib Require Import DecimalString DecimalZ Decimal.
From stdpp Require Import gmap strings list.

Local Open Scope Z_scope.
Local Open Scope string_scope.

(* ===================================================================== *)
(** * Go runtime: errors, contexts, durations                              *)
(* ===================================================================== *)

Module Go.

(** Go [error] values.  [errors_New] is a leaf error (package-level
    sentinels included: they are compared by their text here);
    [fmt_Errorf] is an error formatted without [%w], kept with its format
    string and operands; [fmt_Errorf_w] is [fmt.Errorf(prefix + "%w", cause)],
    and stands for any error whose [Unwrap] method returns its cause. *)
Inductive error : Type :=
| errors_New (text : string)
| fmt_Errorf (format : string) (operands : list string)
| fmt_Errorf_w (prefix : string) (cause : error).

(** [errors.Unwrap]. *)
Definition Unwrap (e : error) : option error :=
  match e with
  | fmt_Errorf_w _ cause => Some cause
  | _ => None
  end.

(** The unwrap chain of an error, the error itself first: the errors the
    loop [for ; e != nil; e = errors.Unwrap(e)] visits. *)
Fixpoint chain (e : error) : list error :=
  match e with
  | fmt_Errorf_w _ cause => e :: chain cause
  | _ => [e]
  end.

Fixpoint error_eqb (a b : error) : bool :=
  match a, b with
  | errors_New s, errors_New t => String.eqb s t
  | fmt_Errorf f xs, fmt_Errorf g ys =>
      String.eqb f g && bool_decide (xs = ys)
  | fmt_Errorf_w p c, fmt_Errorf_w q d => String.eqb p q && error_eqb c d
  | _, _ => false
  end.

(** [errors.Is(err, target)] for a comparable target. *)
Definition Is (err target : error) : bool :=
  existsb (fun e => error_eqb e target) (chain err).

(** [time.Duration]: a count of nanoseconds. *)
Definition Duration := Z.

(** [Duration.Microseconds]: integer division truncating toward zero. *)
Definition Microseconds (d : Duration) : Z := Z.quot d 1000.

(** [context.Context] values, by the way they were made. *)
Inductive Context : Type :=
| Background
| Caller (id : nat)
| WithCancel (parent : Context)
| WithTimeout (parent : Context) (timeout : Duration).

Definition Canceled : error := errors_New "context canceled".
Definition DeadlineExceeded : error := errors_New "context deadline exceeded".

(** What a panic carries. *)
Inductive PanicValue : Type :=
| NilPointerDereference
| PanicWith (e : error).

Inductive outcome (A : Type) : Type :=
| Val (a : A)
| Panicked (p : PanicValue).
Arguments Val {A} a.
Arguments Panicked {A} p.

(** [fmt.Sprintf(format, arg)] for a format whose only verb is one [%s]. *)
Fixpoint Sprintf (format arg : string) : string :=
  match format with
  | EmptyString => EmptyString
  | String c rest =>
      match rest with
      | String d rest' =>
          if (Ascii.eqb c "%" && Ascii.eqb d "s")%bool
          then arg ++ rest'
          else String c (Sprintf rest arg)
      | EmptyString => String c EmptyString
      end
  end.

(** [fmt.Sprintf("%d", n)]. *)
Definition FormatInt (n : Z) : string := NilZero.string_of_int (Z.to_int n).

End Go.

(* ===================================================================== *)
(** * database/sql as seen by the library                                  *)
(* ===================================================================== *)

Module Sql.
Import Go.

(** [sql.Result]: only [RowsAffected() (int64, error)] is used. *)
Record Result : Type := { RowsAffected : Z * option error }.

(** [*sql.Tx] and [*sql.DB] handles, [*sql.TxOptions] ([None] is nil). *)
Definition Tx := nat.
Definition DB := nat.
Definition TxOptions := option nat.

(** What the code can observe and cause in the world. *)
Inductive Event : Type :=
| EvBeginTx (ctx : Context) (db : DB) (opts : TxOptions)
| EvCommit (tx : Tx)
| EvRollback (tx : Tx)
| EvExec (ctx : Context) (query : string) (args : list string)
| EvCall (ctx : Context)
| EvCancel (ctx : Context)
| EvExtensionExit
| EvLogError (msg : string) (err : error).

(** The state threaded through the code: the world and the trace. *)
Record St (W : Type) : Type := mkSt { world : W; events : list Event }.
Arguments mkSt {W} world events.
Arguments world {W} s.
Arguments events {W} s.

Definition M (W A : Type) : Type := St W -> outcome A * St W.

Definition ret {W A} (a : A) : M W A := fun s => (Val a, s).

Definition bind {W A B} (m : M W A) (k : A -> M W B) : M W B :=
  fun s =>
    match m s with
    | (Val a, s') => k a s'
    | (Panicked p, s') => (Panicked p, s')
    end.

Definition panic {W A} (p : PanicValue) : M W A := fun s => (Panicked p, s).

(** One primitive call: run it on the world and append its event. *)
Definition prim {W A} (ev : Event) (f : W -> A * W) : M W A :=
  fun s =>
    let '(a, w') := f (world s) in
    (Val a, mkSt w' (events s ++ [ev])).

(** The interface [sqlExecutor]: one method, [ExecContext]. *)
Record Executor (W : Type) : Type :=
  { ExecContext : Context -> string -> list string -> W -> (Result * option error) * W }.
Arguments ExecContext {W} e ctx query args w.

(** Contexts: [ctx.Err()] and the cancel function of a derived context. *)
Class ContextEnv (W : Type) : Type :=
  { ctx_Err : Context -> W -> option error;
    ctx_cancel : Context -> W -> W }.

(** The connection pool and its transactions. *)
Class SqlEnv (W : Type) : Type :=
  { db_BeginTx : Context -> DB -> TxOptions -> W -> (Tx * option error) * W;
    tx_Commit : Tx -> W -> option error * W;
    tx_Rollback : Tx -> W -> option error * W;
    tx_Executor : Tx -> Executor W }.

(** [uuid.NewString]. *)
Class UuidEnv (W : Type) : Type :=
  { uuid_NewString : W -> string * W }.

End Sql.

Declare Scope go_scope.
Notation "'let*' x ':=' m 'in' k" := (Sql.bind m (fun x => k))
  (at level 10, x name, m at level 200, k at level 200) : go_scope.
Local Open Scope go_scope.

(* ===================================================================== *)
(** * package dbkit: transaction helper                                    *)
(* ===================================================================== *)

Module dbkit.
Import Go Sql.

(** [type Dialect string] and its constants. *)
Definition Dialect := string.
Definition DialectSQLite : Dialect := "sqlite3".
Definition DialectMySQL : Dialect := "mysql".
Definition DialectPostgres : Dialect := "postgres".
Definition DialectPgx : Dialect := "pgx".
Definition DialectMSSQL : Dialect := "mssql".

(** [Config.SupportedDialects] when no list was given. *)
Definition defaultSupportedDialects : list Dialect :=
  [DialectSQLite; DialectMySQL; DialectPostgres; DialectPgx; DialectMSSQL].

Section Tx.
Context {W : Type} `{SqlEnv W}.

Definition BeginTx (ctx : Context) (dbConn : DB) (txOpts : TxOptions) : M W (Tx * option error) :=
  prim (EvBeginTx ctx dbConn txOpts) (db_BeginTx ctx dbConn txOpts).

Definition Commit (tx : Tx) : M W (option error) := prim (EvCommit tx) (tx_Commit tx).

Definition Rollback (tx : Tx) : M W (option error) := prim (EvRollback tx) (tx_Rollback tx).

(** [DoInTxWithOpts].  The deferred closure is written out after the call
    of [fn]; [recover()] is non-nil exactly when [fn] panicked.  [A] is the
    type of the variables the Go closure [fn] captures by reference:
    [captured] is their value before the call and [fn] returns their value
    after it, next to its error ([unit] for a closure that captures
    nothing). *)
Definition DoInTxWithOpts {A : Type} (ctx : Context) (dbConn : DB) (txOpts : TxOptions)
    (captured : A) (fn : Tx -> A -> M W (A * option error)) : M W (A * option error) :=
  let* r := BeginTx ctx dbConn txOpts in
  let '(tx, err) := r in
  match err with
  | Some cause => ret (captured, Some (fmt_Errorf_w "begin tx: " cause))
  | None =>
      fun s =>
        match fn tx captured s with
        | (Panicked p, s1) =>
            let '(_, s2) := Rollback tx s1 in (Panicked p, s2)
        | (Val (a, Some e), s1) =>
            let '(_, s2) := Rollback tx s1 in (Val (a, Some e), s2)
        | (Val (a, None), s1) =>
            (let* cerr := Commit tx in
             match cerr with
             | Some cause => ret (a, Some (fmt_Errorf_w "commit tx: " cause))
             | None => ret (a, None)
             end) s1
        end
  end.

Definition DoInTx {A : Type} (ctx : Context) (dbConn : DB)
    (captured : A) (fn : Tx -> A -> M W (A * option error)) : M W (A * option error) :=
  DoInTxWithOpts ctx dbConn None captured fn.

End Tx.

(** ** Retry classifier *)

(** [retry.IsRetryable] is [func(error) bool].  A Go closure may have side
    effects (the repository's own test records the order of the calls), so
    a predicate threads a state [S]. *)
Definition IsRetryable (S : Type) : Type := error -> S -> bool * S.

(** [reflect.Type] of a driver, by name; the nil driver has the nil type,
    written as the empty name. *)
Definition DriverType := string.
Definition nilType : DriverType := EmptyString.

Definition isRetryableNoDriver {S : Type} : IsRetryable S := fun _ s => (false, s).

(** The package variable [retryableErrors] is passed and returned. *)
Definition GetIsRetryable {S : Type} (t : DriverType) (retryableErrors : gmap DriverType (IsRetryable S)) : IsRetryable S :=
  match retryableErrors !! t with
  | Some r => r
  | None => isRetryableNoDriver
  end.

(** The closure [RegisterIsRetryableFunc] stores: [prev] is [None] when the
    map had no entry ([ok] false).  The recursion is the loop
    [for ; e != nil; e = errors.Unwrap(e)]. *)
Fixpoint composed {S : Type} (prev : option (IsRetryable S)) (retryable : IsRetryable S)
    (e : error) (s : S) : bool * S :=
  let '(b1, s1) := match prev with
                   | Some p => p e s
                   | None => (false, s)
                   end in
  if b1 then (true, s1)
  else
    let '(b2, s2) := retryable e s1 in
    if b2 then (true, s2)
    else
      match e with
      | fmt_Errorf_w _ cause => composed prev retryable cause s2
      | _ => (false, s2)
      end.

Definition RegisterIsRetryableFunc {S : Type} (t : DriverType) (retryable : IsRetryable S)
    (retryableErrors : gmap DriverType (IsRetryable S)) : gmap DriverType (IsRetryable S) :=
  <[t := composed (retryableErrors !! t) retryable]> retryableErrors.

End dbkit.

(* ===================================================================== *)
(** * package distrlock                                                    *)
(* ===================================================================== *)

Module distrlock.
Import Go Sql.

Definition defaultTableName : string := "distributed_locks".

Definition ErrLockAlreadyAcquired : error := errors_New "distributed lock already acquired".
Definition ErrLockAlreadyReleased : error := errors_New "distributed lock already released".

Record dbQueries : Type :=
  { createTable : string;
    dropTable : string;
    initLock : string;
    acquireLock : string;
    releaseLock : string;
    extendLock : string;
    intervalMaker : Duration -> string }.

(** The double quote and the backquote of the SQL templates. *)
Definition dq : string := String "034"%char EmptyString.
Definition bq : string := String "096"%char EmptyString.

Definition postgresCreateTableQuery : string :=
  "CREATE TABLE " ++ dq ++ "%s" ++ dq ++ " (lock_key varchar(40) PRIMARY KEY, token uuid, expire_at timestamp);".
Definition postgresDropTableQuery : string :=
  "DROP TABLE IF EXISTS " ++ dq ++ "%s" ++ dq ++ ";".
Definition postgresInitLockQuery : string :=
  "INSERT INTO " ++ dq ++ "%s" ++ dq ++ " (lock_key) VALUES ($1) ON CONFLICT (lock_key) DO NOTHING;".
Definition postgresAcquireLockQuery : string :=
  "UPDATE " ++ dq ++ "%s" ++ dq ++ " SET expire_at = NOW() + $1::interval, token = $2 WHERE lock_key = $3 AND ((expire_at IS NULL OR expire_at < NOW()) OR token = $4);".
Definition postgresReleaseLockQuery : string :=
  "UPDATE " ++ dq ++ "%s" ++ dq ++ " SET expire_at = NULL WHERE lock_key = $1 AND token = $2 AND expire_at >= NOW();".
Definition postgresExtendLockQuery : string :=
  "UPDATE " ++ dq ++ "%s" ++ dq ++ " SET expire_at = NOW() + $1::interval WHERE lock_key = $2 AND token = $3 AND expire_at >= NOW();".

Definition postgresMakeInterval (interval : Duration) : string :=
  FormatInt (Microseconds interval) ++ " microseconds".

Definition mySQLCreateTableQuery : string :=
  "CREATE TABLE " ++ bq ++ "%s" ++ bq ++ " (lock_key VARCHAR(40) PRIMARY KEY, token VARCHAR(36), expire_at BIGINT);".
Definition mySQLDropTableQuery : string :=
  "DROP TABLE IF EXISTS " ++ bq ++ "%s" ++ bq ++ ";".
Definition mySQLInitLockQuery : string :=
  "INSERT IGNORE " ++ bq ++ "%s" ++ bq ++ " (lock_key) VALUES (?);".
Definition mySQLAcquireLockQuery : string :=
  "UPDATE " ++ bq ++ "%s" ++ bq ++ " SET expire_at = UNIX_TIMESTAMP(DATE_ADD(CURTIME(4), INTERVAL ? MICROSECOND))*10000, token = ? WHERE lock_key = ? AND ((expire_at IS NULL OR expire_at < UNIX_TIMESTAMP(CURTIME(4))*10000) OR token = ?);".
Definition mySQLReleaseLockQuery : string :=
  "UPDATE " ++ bq ++ "%s" ++ bq ++ " SET expire_at = NULL WHERE lock_key = ? AND token = ? AND expire_at >= UNIX_TIMESTAMP(CURTIME(4))*10000;".
Definition mySQLExtendLockQuery : string :=
  "UPDATE " ++ bq ++ "%s" ++ bq ++ " SET expire_at = UNIX_TIMESTAMP(DATE_ADD(CURTIME(4), INTERVAL ? MICROSECOND))*10000 WHERE lock_key = ? AND token = ? AND expire_at >= UNIX_TIMESTAMP(CURTIME(4))*10000;".

Definition mySQLMakeInterval (interval : Duration) : string :=
  FormatInt (Microseconds interval).

(** [newDBQueries]: the Go pair [(dbQueries, error)] as a sum, the zero
    [dbQueries{}] of the error case left out. *)
Definition newDBQueries (dialect : dbkit.Dialect) (tableName : string) : dbQueries + error :=
  if (String.eqb dialect dbkit.DialectPostgres || String.eqb dialect dbkit.DialectPgx)%bool then
    inl {| createTable := Sprintf postgresCreateTableQuery tableName;
           dropTable := Sprintf postgresDropTableQuery tableName;
           initLock := Sprintf postgresInitLockQuery tableName;
           acquireLock := Sprintf postgresAcquireLockQuery tableName;
           releaseLock := Sprintf postgresReleaseLockQuery tableName;
           extendLock := Sprintf postgresExtendLockQuery tableName;
           intervalMaker := postgresMakeInterval |}
  else if String.eqb dialect dbkit.DialectMySQL then
    inl {| createTable := Sprintf mySQLCreateTableQuery tableName;
           dropTable := Sprintf mySQLDropTableQuery tableName;
           initLock := Sprintf mySQLInitLockQuery tableName;
           acquireLock := Sprintf mySQLAcquireLockQuery tableName;
           releaseLock := Sprintf mySQLReleaseLockQuery tableName;
           extendLock := Sprintf mySQLExtendLockQuery tableName;
           intervalMaker := mySQLMakeInterval |}
  else inr (fmt_Errorf "unsupported sql dialect %q" [dialect]).

Record DBManager : Type := { queries : dbQueries }.

Record DBManagerOpts : Type := { TableName : string }.

(** [NewDBManagerWithOpts]: [(nil, err)] is [inr err]. *)
Definition NewDBManagerWithOpts (dialect : dbkit.Dialect) (opts : DBManagerOpts) : DBManager + error :=
  match newDBQueries dialect (TableName opts) with
  | inr err => inr err
  | inl q => inl {| queries := q |}
  end.

Definition NewDBManager (dialect : dbkit.Dialect) : DBManager + error :=
  NewDBManagerWithOpts dialect {| TableName := defaultTableName |}.

(** [DBLock]; [manager] is a pointer, nil in the zero value [DBLock{}]. *)
Record DBLock : Type :=
  { Key : string;
    TTL : Duration;
    token : string;
    manager : option DBManager }.

Definition zeroDBLock : DBLock := {| Key := EmptyString; TTL := 0; token := EmptyString; manager := None |}.

Section Handle.
Context {W : Type} `{ContextEnv W}.

Definition exec (executor : Executor W) (ctx : Context) (query : string) (args : list string)
  : M W (Result * option error) :=
  prim (EvExec ctx query args) (ExecContext executor ctx query args).

Definition ctxErr (ctx : Context) : M W (option error) :=
  fun s => (Val (ctx_Err ctx (world s)), s).

Definition NewLock (m : DBManager) (ctx : Context) (executor : Executor W) (key : string)
  : M W (DBLock * option error) :=
  if String.eqb key EmptyString then
    ret (zeroDBLock, Some (fmt_Errorf "lock key cannot be empty" []))
  else if Z.ltb 40 (Z.of_nat (String.length key)) then
    ret (zeroDBLock, Some (fmt_Errorf "lock key cannot be longer than 40 symbols" []))
  else
    let* r := exec executor ctx (initLock (queries m)) [key] in
    match snd r with
    | Some err => ret (zeroDBLock, Some err)
    | None => ret ({| Key := key; TTL := 0; token := EmptyString; manager := Some m |}, None)
    end.

Definition execQueryAndCheck (ctx : Context) (executor : Executor W) (query : string)
    (args : list string) (errOnNoAffectedRows : error) : M W (option error) :=
  let* r := exec executor ctx query args in
  let '(result, err) := r in
  match err with
  | Some e => ret (Some e)
  | None =>
      let* cerr := ctxErr ctx in
      match cerr with
      | Some e => ret (Some e)
      | None =>
          match RowsAffected result with
          | (_, Some e) => ret (Some e)
          | (affected, None) =>
              if negb (Z.eqb affected 1) then ret (Some errOnNoAffectedRows) else ret None
          end
      end
  end.

(** The methods of [*DBLock] return the receiver after the call.  Reading
    [l.manager.queries] through a nil [manager] panics. *)
Definition AcquireWithStaticToken (l : DBLock) (ctx : Context) (executor : Executor W)
    (tok : string) (lockTTL : Duration) : M W (DBLock * option error) :=
  match manager l with
  | None => panic NilPointerDereference
  | Some m =>
      let interval := intervalMaker (queries m) lockTTL in
      let* err := execQueryAndCheck ctx executor (acquireLock (queries m))
                    [interval; tok; Key l; tok] ErrLockAlreadyAcquired in
      match err with
      | Some e => ret (l, Some e)
      | None => ret ({| Key := Key l; TTL := lockTTL; token := tok; manager := manager l |}, None)
      end
  end.

Definition Acquire `{UuidEnv W} (l : DBLock) (ctx : Context) (executor : Executor W)
    (lockTTL : Duration) : M W (DBLock * option error) :=
  let* tok := (fun s => let '(u, w') := uuid_NewString (world s) in (Val u, mkSt w' (events s))) in
  AcquireWithStaticToken l ctx executor tok lockTTL.

Definition Release (l : DBLock) (ctx : Context) (executor : Executor W) : M W (option error) :=
  match manager l with
  | None => panic NilPointerDereference
  | Some m =>
      execQueryAndCheck ctx executor (releaseLock (queries m)) [Key l; token l] ErrLockAlreadyReleased
  end.

Definition Extend (l : DBLock) (ctx : Context) (executor : Executor W) : M W (option error) :=
  match manager l with
  | None => panic NilPointerDereference
  | Some m =>
      let interval := intervalMaker (queries m) (TTL l) in
      execQueryAndCheck ctx executor (extendLock (queries m)) [interval; Key l; token l]
        ErrLockAlreadyReleased
  end.

Definition Token (l : DBLock) : string := token l.

End Handle.

(** ** Lease supervisor *)

(** The user function [fn func(ctx context.Context) error] runs while the
    extension goroutine runs, so it is a resumable computation: it
    returns, panics, or takes one atomic step on the world and goes on.
    What it does next may depend on the world it sees, the state of its
    context included. *)
Inductive Job (W : Type) : Type :=
| JobReturn (r : option error)
| JobPanic (p : PanicValue)
| JobStep (step : W -> W) (next : W -> Job W).
Arguments JobReturn {W} r.
Arguments JobPanic {W} p.
Arguments JobStep {W} step next.

(** The scheduler's choices: how many ticker firings the extension
    goroutine handles before each step of the user function ([during],
    none once the list is used up), and how many it still handles after
    the user function has returned and [periodicalExtensionDone] is closed,
    before its [select] takes the closed channel ([after]). *)
Record Schedule : Type := { during : list nat; after : nat }.

Section Supervisor.
Context {W : Type} `{ContextEnv W} `{SqlEnv W} `{UuidEnv W}.

Definition cancel (ctx : Context) : M W unit :=
  prim (EvCancel ctx) (fun w => (tt, ctx_cancel ctx w)).

Definition logError (msg : string) (err : error) : M W unit :=
  prim (EvLogError msg err) (fun w => (tt, w)).

(** One [case <-ticker.C] of the goroutine; the result tells whether the
    goroutine goes on looping. *)
Definition extendTick (l : DBLock) (ctx : Context) (dbConn : DB) (newCtx : Context) : M W bool :=
  let* r := dbkit.DoInTx ctx dbConn tt
              (fun tx _ => let* e := Extend l ctx (tx_Executor tx) in ret (tt, e)) in
  match snd r with
  | None => ret true
  | Some extendLockErr =>
      let* _ := logError "failed to extend db lock" extendLockErr in
      if Is extendLockErr ErrLockAlreadyReleased then
        let* _ := cancel newCtx in ret false
      else ret true
  end.

(** [n] ticker firings; a goroutine that has returned handles none. *)
Fixpoint ticks (l : DBLock) (ctx : Context) (dbConn : DB) (newCtx : Context)
    (n : nat) (running : bool) : M W bool :=
  match n with
  | O => ret running
  | S n' =>
      if running then
        let* r := extendTick l ctx dbConn newCtx in
        ticks l ctx dbConn newCtx n' r
      else ret false
  end.

(** The user function interleaved with the goroutine. *)
Fixpoint runJob (l : DBLock) (ctx : Context) (dbConn : DB) (newCtx : Context)
    (j : Job W) (sched : list nat) (running : bool) : M W (outcome (option error) * bool) :=
  match j with
  | JobReturn r => ret (Val r, running)
  | JobPanic p => ret (Panicked p, running)
  | JobStep step next =>
      let* running' := ticks l ctx dbConn newCtx (hd O sched) running in
      fun s =>
        let w' := step (world s) in
        runJob l ctx dbConn newCtx (next w') (tl sched) running' (mkSt w' (events s))
  end.

(** The deferred release of [DoExclusively]. *)
Definition releaseDeferred (l : DBLock) (dbConn : DB) (releaseTimeout : Duration) : M W unit :=
  let releaseCtx := WithTimeout Background releaseTimeout in
  let* r := dbkit.DoInTx releaseCtx dbConn tt
              (fun tx _ => let* e := Release l releaseCtx (tx_Executor tx) in ret (tt, e)) in
  let* _ := match snd r with
            | Some releaseLockErr => logError "failed to release db lock" releaseLockErr
            | None => ret tt
            end in
  cancel releaseCtx.

(** [DoExclusively].  [sched] stands for the scheduler; the logger shows
    as the [EvLogError] events.  [time.NewTicker] panics on a period that
    is not positive, in the goroutine, which ends the program: nothing
    after that is modelled.  The deferred calls run last registered first,
    on return and on panic of [fn]. *)
Definition DoExclusively (sched : Schedule) (l : DBLock) (ctx : Context) (dbConn : DB)
    (lockTTL periodicExtendInterval releaseTimeout : Duration) (fn : Context -> Job W)
  : M W (DBLock * option error) :=
  let* a := dbkit.DoInTx ctx dbConn l
              (fun tx l0 => Acquire l0 ctx (tx_Executor tx) lockTTL) in
  let '(l1, acquireLockErr) := a in
  match acquireLockErr with
  | Some e => ret (l1, Some e)
  | None =>
      let newCtx := WithCancel ctx in
      if Z.leb periodicExtendInterval 0 then
        panic (PanicWith (errors_New "non-positive interval for NewTicker"))
      else
        let* _ := prim (EvCall newCtx) (fun w => (tt, w)) in
        let* jr := runJob l1 ctx dbConn newCtx (fn newCtx) (during sched) true in
        let '(result, running) := jr in
        let* _ := ticks l1 ctx dbConn newCtx (after sched) running in
        let* _ := prim EvExtensionExit (fun w => (tt, w)) in
        let* _ := cancel newCtx in
        let* _ := releaseDeferred l1 dbConn releaseTimeout in
        match result with
        | Val r => ret (l1, r)
        | Panicked p => panic p
        end
  end.

End Supervisor.

End distrlock.

(* ===================================================================== *)
(** * The PostgreSQL server, as far as the lock table goes                 *)
(* ===================================================================== *)

(** The statements of [distrlock] read as atomic updates of the lock
    table, evaluated at the server's current instant.  Timestamps and
    intervals are counts of microseconds.  The token column holds uuid
    values. *)
Module Postgres.
Import Go Sql.

(** SQL's three-valued logic. *)
Inductive bool3 : Type := True3 | False3 | Null3.

Definition and3 (a b : bool3) : bool3 :=
  match a, b with
  | False3, _ | _, False3 => False3
  | True3, True3 => True3
  | _, _ => Null3
  end.

Definition or3 (a b : bool3) : bool3 :=
  match a, b with
  | True3, _ | _, True3 => True3
  | False3, False3 => False3
  | _, _ => Null3
  end.

Definition of_bool (b : bool) : bool3 := if b then True3 else False3.

Definition is_null {A : Type} (x : option A) : bool3 :=
  match x with None => True3 | Some _ => False3 end.

(** Comparisons with a possibly NULL column; the other side is never NULL. *)
Definition lt3 (x : option Z) (y : Z) : bool3 :=
  match x with None => Null3 | Some a => of_bool (a <? y)%Z end.

Definition ge3 (x : option Z) (y : Z) : bool3 :=
  match x with None => Null3 | Some a => of_bool (y <=? a)%Z end.

Definition eq3 (x : option string) (y : string) : bool3 :=
  match x with None => Null3 | Some a => of_bool (String.eqb a y) end.

(** A row passes WHERE when the condition is true, not when it is NULL. *)
Definition holds (c : bool3) : bool :=
  match c with True3 => true | _ => false end.

(** One row of the lock table; [lock_key], the primary key, is the key of
    the map. *)
Record LockRow : Type := { tok : option string; expire_at : option Z }.

(** [UPDATE ... SET ... WHERE lock_key = key AND cond]: the new table and
    the number of rows affected. *)
Definition update_where (key : string) (cond : LockRow -> bool3) (set : LockRow -> LockRow)
    (t : gmap string LockRow) : gmap string LockRow * Z :=
  match t !! key with
  | Some r => if holds (cond r) then (<[key := set r]> t, 1) else (t, 0)
  | None => (t, 0)
  end.

(** [INSERT INTO t (lock_key) VALUES ($1) ON CONFLICT (lock_key) DO NOTHING] *)
Definition initLockStmt (key : string) (t : gmap string LockRow) : gmap string LockRow * Z :=
  match t !! key with
  | Some _ => (t, 0)
  | None => (<[key := {| tok := None; expire_at := None |}]> t, 1)
  end.

(** [UPDATE t SET expire_at = NOW() + $1::interval, token = $2
     WHERE lock_key = $3 AND ((expire_at IS NULL OR expire_at < NOW()) OR token = $4)] *)
Definition acquireLockStmt (now interval : Z) (p2 p3 p4 : string) :=
  update_where p3
    (fun r => or3 (or3 (is_null (expire_at r)) (lt3 (expire_at r) now)) (eq3 (tok r) p4))
    (fun r => {| tok := Some p2; expire_at := Some (now + interval) |}).

(** [UPDATE t SET expire_at = NULL
     WHERE lock_key = $1 AND token = $2 AND expire_at >= NOW()] *)
Definition releaseLockStmt (now : Z) (p1 p2 : string) :=
  update_where p1
    (fun r => and3 (eq3 (tok r) p2) (ge3 (expire_at r) now))
    (fun r => {| tok := tok r; expire_at := None |}).

(** [UPDATE t SET expire_at = NOW() + $1::interval
     WHERE lock_key = $2 AND token = $3 AND expire_at >= NOW()] *)
Definition extendLockStmt (now interval : Z) (p2 p3 : string) :=
  update_where p2
    (fun r => and3 (eq3 (tok r) p3) (ge3 (expire_at r) now))
    (fun r => {| tok := tok r; expire_at := Some (now + interval) |}).

(** The cast [$1::interval] of the text [<n> microseconds]. *)
Fixpoint splitAtSpace (s : string) : string * string :=
  match s with
  | EmptyString => (EmptyString, EmptyString)
  | String c rest =>
      if Ascii.eqb c " " then (EmptyString, rest)
      else let '(a, b) := splitAtSpace rest in (String c a, b)
  end.

Definition parseInterval (s : string) : option Z :=
  let '(n, unit) := splitAtSpace s in
  if String.eqb unit "microseconds"
  then option_map Z.of_int (NilZero.int_of_string n)
  else None.

(** The column [token] is of type [uuid].  A parameter that is assigned
    to it or compared with it is read by the input function of that type:
    32 hexadecimal digits, an optional hyphen after each group of four,
    the whole optionally in braces; any other text is an error.  The
    value is written here as the server prints it: the digits in lower
    case, in groups of 8, 4, 4, 4 and 12.  So in a row [tok] holds such a
    text, and two spellings of one uuid are one token. *)
Definition isxdigit (c : ascii) : bool :=
  let n := nat_of_ascii c in
  ((Nat.leb 48 n && Nat.leb n 57) || (Nat.leb 65 n && Nat.leb n 70)
   || (Nat.leb 97 n && Nat.leb n 102))%bool.

Definition tolower (c : ascii) : ascii :=
  let n := nat_of_ascii c in
  if (Nat.leb 65 n && Nat.leb n 90)%bool then ascii_of_nat (n + 32) else c.

(** The loop over the 16 bytes of the value, from byte [i] on: the digits
    read, in lower case, and the rest of the text. *)
Fixpoint uuidBytes (n i : nat) (src : string) : option (string * string) :=
  match n with
  | O => Some (EmptyString, src)
  | S n' =>
      match src with
      | String a (String b rest) =>
          if (isxdigit a && isxdigit b)%bool then
            let rest' :=
              match rest with
              | String c r =>
                  if (Ascii.eqb c "-" && Nat.odd i && Nat.ltb i 15)%bool then r else rest
              | EmptyString => rest
              end in
            match uuidBytes n' (S i) rest' with
            | Some (digits, tail) =>
                Some (String (tolower a) (String (tolower b) digits), tail)
            | None => None
            end
          else None
      | _ => None
      end
  end.

Definition uuid_out (digits : string) : string :=
  substring 0 8 digits ++ "-" ++ substring 8 4 digits ++ "-" ++ substring 12 4 digits
  ++ "-" ++ substring 16 4 digits ++ "-" ++ substring 20 12 digits.

Definition uuid_in (source : string) : option string :=
  let '(braces, src) :=
    match source with
    | String c r => if Ascii.eqb c "{" then (true, r) else (false, source)
    | EmptyString => (false, source)
    end in
  match uuidBytes 16 0 src with
  | Some (digits, tail) =>
      let ending :=
        if braces then
          match tail with
          | String c r => if Ascii.eqb c "}" then Some r else None
          | EmptyString => None
          end
        else Some tail in
      match ending with
      | Some EmptyString => Some (uuid_out digits)
      | _ => None
      end
  | None => None
  end.

(** The server: the lock table, the clock, and the contexts cancelled so
    far. *)
Record Server : Type :=
  { lockTable : gmap string LockRow;
    NOW : Z;
    cancelled : list Context }.

Definition withTable (w : Server) (t : gmap string LockRow) : Server :=
  {| lockTable := t; NOW := NOW w; cancelled := cancelled w |}.

(** Time passes. *)
Definition atTime (w : Server) (now : Z) : Server :=
  {| lockTable := lockTable w; NOW := now; cancelled := cancelled w |}.

Definition rows (n : Z) : Result := {| RowsAffected := (n, None) |}.

Definition run (w : Server) (r : gmap string LockRow * Z) : (Result * option error) * Server :=
  ((rows (snd r), None), withTable w (fst r)).

Definition reject (w : Server) (msg : string) : (Result * option error) * Server :=
  ((rows 0, Some (errors_New msg)), w).

(** A connection to the server that holds the lock table [tableName]
    and executes each statement at once.  The parameters arrive as text
    and are read, in their order, as the types the statement gives them:
    the interval, and the token as a [uuid]. *)
Definition execContext (tableName : string) (ctx : Context) (query : string) (args : list string)
    (w : Server) : (Result * option error) * Server :=
  if String.eqb query (Sprintf distrlock.postgresInitLockQuery tableName) then
    match args with
    | [p1] => run w (initLockStmt p1 (lockTable w))
    | _ => reject w "wrong number of parameters"
    end
  else if String.eqb query (Sprintf distrlock.postgresAcquireLockQuery tableName) then
    match args with
    | [p1; p2; p3; p4] =>
        match parseInterval p1 with
        | Some i =>
            match uuid_in p2, uuid_in p4 with
            | Some u2, Some u4 => run w (acquireLockStmt (NOW w) i u2 p3 u4 (lockTable w))
            | _, _ => reject w "invalid input syntax for type uuid"
            end
        | None => reject w "invalid input syntax for type interval"
        end
    | _ => reject w "wrong number of parameters"
    end
  else if String.eqb query (Sprintf distrlock.postgresReleaseLockQuery tableName) then
    match args with
    | [p1; p2] =>
        match uuid_in p2 with
        | Some u2 => run w (releaseLockStmt (NOW w) p1 u2 (lockTable w))
        | None => reject w "invalid input syntax for type uuid"
        end
    | _ => reject w "wrong number of parameters"
    end
  else if String.eqb query (Sprintf distrlock.postgresExtendLockQuery tableName) then
    match args with
    | [p1; p2; p3] =>
        match parseInterval p1 with
        | Some i =>
            match uuid_in p3 with
            | Some u3 => run w (extendLockStmt (NOW w) i p2 u3 (lockTable w))
            | None => reject w "invalid input syntax for type uuid"
            end
        | None => reject w "invalid input syntax for type interval"
        end
    | _ => reject w "wrong number of parameters"
    end
  else reject w "syntax error".

Definition connection (tableName : string) : Executor Server :=
  {| ExecContext := execContext tableName |}.

Fixpoint ancestors (c : Context) : list Context :=
  match c with
  | WithCancel p => c :: ancestors p
  | WithTimeout p _ => c :: ancestors p
  | _ => [c]
  end.

#[global] Instance Context_eq_dec : EqDecision Context.
Proof. solve_decision. Defined.

(** A context is done once it or a context it derives from was
    cancelled; deadlines are not modelled on the server side. *)
#[global] Instance Server_ContextEnv : ContextEnv Server :=
  {| ctx_Err := fun c w =>
       if existsb (fun a => bool_decide (a ∈ cancelled w)) (ancestors c)
       then Some Canceled else None;
     ctx_cancel := fun c w =>
       {| lockTable := lockTable w; NOW := NOW w; cancelled := c :: cancelled w |} |}.

(** The operations of the lock protocol on one key, for traces. *)
Inductive Op : Type :=
| OpInit (key : string)
| OpAcquire (interval : Z) (token key : string)
| OpRelease (key token : string)
| OpExtend (interval : Z) (key token : string).

Definition apply (now : Z) (op : Op) (t : gmap string LockRow) : gmap string LockRow :=
  match op with
  | OpInit k => fst (initLockStmt k t)
  | OpAcquire i tk k => fst (acquireLockStmt now i tk k tk t)
  | OpRelease k tk => fst (releaseLockStmt now k tk t)
  | OpExtend i k tk => fst (extendLockStmt now i k tk t)
  end.

(** A history: operations with the instant each one ran at. *)
Fixpoint replay (h : list (Z * Op)) (t : gmap string LockRow) : gmap string LockRow :=
  match h with
  | [] => t
  | (now, op) :: rest => replay rest (apply now op t)
  end.

(** [held t key now token]: the row exists, its [expire_at] is set and not
    before [now], and it carries [token]. *)
Definition held (t : gmap string LockRow) (key : string) (now : Z) (token : string) : Prop :=
  exists r e, t !! key = Some r /\ expire_at r = Some e /\ (now <= e)%Z /\ tok r = Some token.

(** [free t key now]: the row exists and [expire_at] is NULL or before
    [now]. *)
Definition free (t : gmap string LockRow) (key : string) (now : Z) : Prop :=
  exists r, t !! key = Some r /\
    (expire_at r = None \/ exists e, expire_at r = Some e /\ (e < now)%Z).

Definition carries (t : gmap string LockRow) (key token : string) : Prop :=
  exists r, t !! key = Some r /\ tok r = Some token.

End Postgres.

(* ===================================================================== *)
(** * A scripted world, in the manner of sqlmock                           *)
(* ===================================================================== *)

Module Mock.
Import Go Sql.

Record World : Type :=
  { onBegin : option error;
    onExec : Result * option error;
    onCommit : option error;
    onRollback : option error;
    done : list Context;
    nextUUID : string }.

#[global] Instance World_ContextEnv : ContextEnv World :=
  {| ctx_Err := fun c w => if bool_decide (c ∈ done w) then Some Canceled else None;
     ctx_cancel := fun c w =>
       {| onBegin := onBegin w; onExec := onExec w; onCommit := onCommit w;
          onRollback := onRollback w; done := c :: done w; nextUUID := nextUUID w |} |}.

Definition executor : Executor World :=
  {| ExecContext := fun _ _ _ w => (onExec w, w) |}.

#[global] Instance World_SqlEnv : SqlEnv World :=
  {| db_BeginTx := fun _ _ _ w => ((1%nat, onBegin w), w);
     tx_Commit := fun _ w => (onCommit w, w);
     tx_Rollback := fun _ w => (onRollback w, w);
     tx_Executor := fun _ => executor |}.

#[global] Instance World_UuidEnv : UuidEnv World :=
  {| uuid_NewString := fun w => (nextUUID w, w) |}.

Definition ok (n : Z) : Result * option error := ({| RowsAffected := (n, None) |}, None).

(** A world where everything succeeds and each statement affects [n] rows. *)
Definition happy (n : Z) : World :=
  {| onBegin := None; onExec := ok n; onCommit := None; onRollback := None;
     done := []; nextUUID := "6ba7b810-9dad-11d1-80b4-00c04fd430c8" |}.

End Mock.

(* ===================================================================== *)
(** * package migrate                                                      *)
(* ===================================================================== *)

Module migrate.
Import Go Sql.

Definition MigrationsTableName : string := "migrations".

(** [type MigrationsDirection string] and its constants. *)
Definition MigrationsDirection := string.
Definition MigrationsDirectionUp : MigrationsDirection := "up".
Definition MigrationsDirectionDown : MigrationsDirection := "down".

Definition MigrationsNoLimit : Z := 0.

(** Of the library sql-migrate: the struct [migrate.Migration], as far as
    [convertMigration] fills it, and [migrate.MigrationDirection], an
    integer type whose zero value is [Up]. *)
Record SqlMigration : Type :=
  { Id : string;
    Up : list string;
    Down : list string;
    DisableTransactionUp : bool;
    DisableTransactionDown : bool }.

Inductive SqlDirection : Type := SqlUp | SqlDown.

Definition directionNumber (d : SqlDirection) : Z :=
  match d with SqlUp => 0 | SqlDown => 1 end.

(** [MigrationSet.ExecMax] of sql-migrate: the table of the set, the pool,
    the dialect, the migrations of the memory source (pointers, [None] is
    nil), the direction and the limit; it returns the number of applied
    migrations and an error. *)
Class MigrateEnv (W : Type) : Type :=
  { ExecMax : string -> DB -> string -> list (option SqlMigration) -> SqlDirection -> Z ->
              W -> (Z * option error) * W }.

Section Migrations.
Context {W : Type}.

(** [func(tx *sql.Tx) error]. *)
Definition TxFn : Type := Tx -> W -> option error * W.

(** A value of the interface [Migration]: its five methods ([None] is a
    nil function), and what the type assertions [m.(RawMigrator)] and
    [m.(TxDisabler)] find: [None] when the value does not implement the
    interface, else the result of [RawMigration(m)], a pointer and an
    error, or of [DisableTx()]. *)
Record Migration : Type :=
  { ID : string;
    UpSQL : list string;
    DownSQL : list string;
    UpFn : option TxFn;
    DownFn : option TxFn;
    RawMigration : option (option SqlMigration * option error);
    DisableTx : option bool }.

(** [NullMigration]: the stubs. *)
Definition NullMigration : Migration :=
  {| ID := EmptyString; UpSQL := []; DownSQL := []; UpFn := None; DownFn := None;
     RawMigration := None; DisableTx := None |}.

(** [NewCustomMigration]; a [*CustomMigration] implements neither
    [RawMigrator] nor [TxDisabler]. *)
Definition NewCustomMigration (id : string) (upSQL downSQL : list string)
    (upFn downFn : option TxFn) : Migration :=
  {| ID := id; UpSQL := upSQL; DownSQL := downSQL; UpFn := upFn; DownFn := downFn;
     RawMigration := None; DisableTx := None |}.

Definition isNil {A : Type} (x : option A) : bool :=
  match x with None => true | Some _ => false end.

(** [convertMigration]: the pointer to a [migrate.Migration] and the
    error it returns. *)
Definition convertMigration (m : Migration) : option SqlMigration * option error :=
  let checked :=
    if Nat.eqb (length (UpSQL m)) 0 then
      (None, Some (fmt_Errorf "migration %s should implement UpSQL" [ID m]))
    else if ((isNil (UpFn m) && Nat.eqb (length (UpSQL m)) 0)
             || (negb (isNil (UpFn m)) && negb (Nat.eqb (length (UpSQL m)) 0)))%bool then
      (None, Some (fmt_Errorf "migration %s should implement either UpFn or UpSQL" [ID m]))
    else if (negb (isNil (DownFn m)) && negb (Nat.eqb (length (DownSQL m)) 0))%bool then
      (None, Some (fmt_Errorf "migration %s should implement either DownFn or DownSQL" [ID m]))
    else
      let disableTx := match DisableTx m with Some b => b | None => false end in
      (Some {| Id := ID m; Up := UpSQL m; Down := DownSQL m;
               DisableTransactionUp := disableTx; DisableTransactionDown := disableTx |},
       None) in
  match RawMigration m with
  | Some (_, Some err) =>
      (None, Some (fmt_Errorf_w (Sprintf "preparing migration %s failed with error: " (ID m)) err))
  | Some (Some raw, None) => (Some raw, None)
  | Some (None, None) => checked
  | None => checked
  end.

(** [MigrationsManager]; the logger is left out, what it is given for an
    error shows as [EvLogError]. *)
Record MigrationsManager : Type :=
  { db : DB;
    Dialect : dbkit.Dialect;
    migSet : string }.

Record MigrationsManagerOpts : Type := { TableName : string }.

Definition normalizeDialect (dialect : dbkit.Dialect) : dbkit.Dialect :=
  if String.eqb dialect dbkit.DialectPgx then dbkit.DialectPostgres else dialect.

Definition NewMigrationsManager (dbConn : DB) (dialect : dbkit.Dialect)
  : MigrationsManager * option error :=
  ({| db := dbConn; Dialect := normalizeDialect dialect; migSet := MigrationsTableName |}, None).

Definition NewMigrationsManagerWithOpts (dbConn : DB) (dialect : dbkit.Dialect)
    (opts : MigrationsManagerOpts) : MigrationsManager * option error :=
  let tableName := if String.eqb (TableName opts) EmptyString
                   then MigrationsTableName else TableName opts in
  ({| db := dbConn; Dialect := normalizeDialect dialect; migSet := tableName |}, None).

(** The loop of [RunLimit] from the migration at index [i] on: the list
    of converted migrations, or the error it returns with. *)
Fixpoint convertFrom (i : Z) (migrations : list Migration)
  : list (option SqlMigration) + error :=
  match migrations with
  | [] => inl []
  | m :: rest =>
      if String.eqb (ID m) EmptyString then
        inr (fmt_Errorf "migration #%d has empty ID" [FormatInt (i + 1)])
      else
        match convertMigration m with
        | (_, Some err) => inr err
        | (convertedMigration, None) =>
            match convertFrom (i + 1) rest with
            | inl convertedMigrationList => inl (convertedMigration :: convertedMigrationList)
            | inr err => inr err
            end
        end
  end.

Context `{MigrateEnv W}.

(** [RunLimit].  In the default case of the switch the error is made from
    [dir], the variable of type [migrate.MigrationDirection] that is still
    zero there, not from [direction]. *)
Definition RunLimit (mm : MigrationsManager) (migrations : list Migration)
    (direction : MigrationsDirection) (limit : Z) : M W (option error) :=
  match convertFrom 0 migrations with
  | inr err => ret (Some err)
  | inl convertedMigrationList =>
      let exec (dir : SqlDirection) : M W (option error) :=
        let* r := (fun s =>
                     let '(r, w') := ExecMax (migSet mm) (db mm) (Dialect mm)
                                       convertedMigrationList dir limit (world s) in
                     (Val r, mkSt w' (events s))) in
        match snd r with
        | Some err =>
            let* _ := prim (EvLogError "db migration failed" err) (fun w => (tt, w)) in
            ret (Some err)
        | None => ret None
        end in
      if String.eqb direction MigrationsDirectionUp then exec SqlUp
      else if String.eqb direction MigrationsDirectionDown then exec SqlDown
      else ret (Some (fmt_Errorf "unknown direction %q" [FormatInt (directionNumber SqlUp)]))
  end.

Definition Run (mm : MigrationsManager) (migrations : list Migration)
    (direction : MigrationsDirection) : M W (option error) :=
  RunLimit mm migrations direction MigrationsNoLimit.

End Migrations.

Arguments Migration W : clear implicits.
Arguments TxFn W : clear implicits.

End migrate.

(** [DBManager.Migrations] of package distrlock, which returns values of
    package migrate. *)
Module lockmigrations.

Definition createTableMigrationID : string := "distrlock_00001_create_table".

Definition Migrations {W : Type} (m : distrlock.DBManager) : list (migrate.Migration W) :=
  [migrate.NewCustomMigration createTableMigrationID
     [distrlock.createTable (distrlock.queries m)]
     [distrlock.dropTable (distrlock.queries m)]
     None None].

End lockmigrations.

(* ===================================================================== *)
(** * The driver packages: what is retried                                 *)
(* ===================================================================== *)

(** The error codes of package dbkit. *)
Module errcodes.

Definition PostgresErrCode := string.
Definition PgxErrCodeDeadlockDetected : PostgresErrCode := "40P01".
Definition PgxErrCodeSerializationFailure : PostgresErrCode := "40001".
Definition PgxErrFeatureNotSupported : PostgresErrCode := "0A000".
Definition PostgresErrCodeDeadlockDetected : PostgresErrCode := "deadlock_detected".
Definition PostgresErrCodeSerializationFailure : PostgresErrCode := "serialization_failure".

End errcodes.

(** The errors of the drivers have types of their own, which [Go.error]
    has no constructors for.  Each package below takes the type assertion
    it makes, [err.(T)], as a function [asError]: [Some] with the fields
    the package reads when the dynamic type of the error is [T], [None]
    otherwise.  The closures registered by the [init] functions have no
    effects: they leave the state of the predicates alone. *)

(** Package postgres (driver lib/pq). *)
Module postgres.
Import Go errcodes.

(** [*pq.Error], as far as it is read: [Code.Name()]. *)
Record Error : Type := { CodeName : string }.

Definition driverType : dbkit.DriverType := "*pq.Driver".

Section Assert.
Variable asError : error -> option Error.

Definition isRetryable (err : error) : bool :=
  match asError err with
  | Some pgErr =>
      if String.eqb (CodeName pgErr) PostgresErrCodeDeadlockDetected then true
      else if String.eqb (CodeName pgErr) PostgresErrCodeSerializationFailure then true
      else false
  | None => false
  end.

Definition init {S : Type} (retryableErrors : gmap dbkit.DriverType (dbkit.IsRetryable S))
  : gmap dbkit.DriverType (dbkit.IsRetryable S) :=
  dbkit.RegisterIsRetryableFunc driverType (fun err s => (isRetryable err, s)) retryableErrors.

Definition CheckPostgresError (err : error) (errCode : PostgresErrCode) : bool :=
  match asError err with
  | Some pgErr => String.eqb (CodeName pgErr) errCode
  | None => false
  end.

End Assert.
End postgres.

(** Package pgx (driver jackc/pgx). *)
Module pgx.
Import Go errcodes.

(** [*pgconn.PgError], as far as it is read. *)
Record PgError : Type := { Severity : string; Code : string; Message : string }.

Definition driverType : dbkit.DriverType := "*stdlib.Driver".

Definition checkInvalidCachedPlanPgError (pgErr : PgError) : bool :=
  (String.eqb (Severity pgErr) "ERROR"
   && String.eqb (Code pgErr) PgxErrFeatureNotSupported
   && String.eqb (Message pgErr) "cached plan must not change result type")%bool.

Section Assert.
Variable asError : error -> option PgError.

Definition isRetryable (err : error) : bool :=
  match asError err with
  | Some pgErr =>
      if String.eqb (Code pgErr) PgxErrCodeDeadlockDetected then true
      else if String.eqb (Code pgErr) PgxErrCodeSerializationFailure then true
      else if checkInvalidCachedPlanPgError pgErr then true
      else false
  | None => false
  end.

Definition init {S : Type} (retryableErrors : gmap dbkit.DriverType (dbkit.IsRetryable S))
  : gmap dbkit.DriverType (dbkit.IsRetryable S) :=
  dbkit.RegisterIsRetryableFunc driverType (fun err s => (isRetryable err, s)) retryableErrors.

Definition CheckPostgresError (err : error) (errCode : PostgresErrCode) : bool :=
  match asError err with
  | Some pgErr => String.eqb (Code pgErr) errCode
  | None => false
  end.


End Assert.
End pgx.

(** Package mysql (driver go-sql-driver/mysql). *)
Module mysql.
Import Go.

(** [*mysql.MySQLError], as far as it is read, and the sentinel
    [mysql.ErrInvalidConn] of the driver. *)
Record MySQLError : Type := { Number : Z }.

Definition ErrInvalidConn : error := errors_New "invalid connection".

Definition driverType : dbkit.DriverType := "*mysql.MySQLDriver".

Definition MySQLErrCode := Z.
Definition MySQLErrCodeDupEntry : MySQLErrCode := 1062.
Definition MySQLErrDeadlock : MySQLErrCode := 1213.
Definition MySQLErrLockTimedOut : MySQLErrCode := 1205.

Section Assert.
Variable asError : error -> option MySQLError.

Definition isRetryable (err : error) : bool :=
  let typed := match asError err with
               | Some mysqlErr =>
                   (Z.eqb (Number mysqlErr) MySQLErrDeadlock
                    || Z.eqb (Number mysqlErr) MySQLErrLockTimedOut)%bool
               | None => false
               end in
  if typed then true
  else if error_eqb err ErrInvalidConn then true
  else false.

Definition init {S : Type} (retryableErrors : gmap dbkit.DriverType (dbkit.IsRetryable S))
  : gmap dbkit.DriverType (dbkit.IsRetryable S) :=
  dbkit.RegisterIsRetryableFunc driverType (fun err s => (isRetryable err, s)) retryableErrors.



End Assert.
End mysql.

(** Package mssql (driver denisenkom/go-mssqldb). *)
Module mssql.
Import Go.

(** [mssql.Error], as far as it is read; [SQLErrorNumber()] returns
    [Number]. *)
Record Error : Type := { Number : Z }.

Definition driverType : dbkit.DriverType := "*mssql.Driver".

Definition ErrCode := Z.
Definition MSSQLErrDeadlock : ErrCode := 1205.

Section Assert.
Variable asError : error -> option Error.

Definition isRetryable (err : error) : bool :=
  match asError err with
  | Some msErr => if Z.eqb (Number msErr) MSSQLErrDeadlock then true else false
  | None => false
  end.

Definition init {S : Type} (retryableErrors : gmap dbkit.DriverType (dbkit.IsRetryable S))
  : gmap dbkit.DriverType (dbkit.IsRetryable S) :=
  dbkit.RegisterIsRetryableFunc driverType (fun err s => (isRetryable err, s)) retryableErrors.


End Assert.
End mssql.

(** Package sqlite (driver mattn/go-sqlite3). *)
Module sqlite.
Import Go.

(** [sqlite3.Error], as far as it is read, and the two result codes of
    the driver the predicate names. *)
Record Error : Type := { Code : Z; ExtendedCode : Z }.

Definition ErrBusy : Z := 5.
Definition ErrLocked : Z := 6.

Definition driverType : dbkit.DriverType := "*sqlite3.SQLiteDriver".

Section Assert.
Variable asError : error -> option Error.

Definition isRetryable (err : error) : bool :=
  match asError err with
  | Some sqliteErr =>
      if (Z.eqb (Code sqliteErr) ErrLocked || Z.eqb (Code sqliteErr) ErrBusy)%bool
      then true else false
  | None => false
  end.

Definition init {S : Type} (retryableErrors : gmap dbkit.DriverType (dbkit.IsRetryable S))
  : gmap dbkit.DriverType (dbkit.IsRetryable S) :=
  dbkit.RegisterIsRetryableFunc driverType (fun err s => (isRetryable err, s)) retryableErrors.


End Assert.
End sqlite.

(* ===================================================================== *)
(** * Vocabulary of the properties                                        *)
(* ===================================================================== *)

Import Go Sql.

(** What [execQueryAndCheck] returns, from what it observes: the error of
    [ExecContext], [ctx.Err()] afterwards, and [RowsAffected()]. *)
Definition verdict (execErr ctxErr : option error) (affected : Z * option error)
    (errOnNoAffectedRows : error) : option error :=
  match execErr, ctxErr, affected with
  | Some e, _, _ => Some e
  | None, Some e, _ => Some e
  | None, None, (_, Some e) => Some e
  | None, None, (n, None) => if Z.eqb n 1 then None else Some errOnNoAffectedRows
  end.

(** The errors [NewLock] makes for a bad key.  The package has no
    sentinel for them; this is what the specification calls InvalidKey. *)
Definition InvalidKey (e : error) : Prop :=
  e = fmt_Errorf "lock key cannot be empty" [] \/
  e = fmt_Errorf "lock key cannot be longer than 40 symbols" [].

(** A call of one of the two acquire methods. *)
Inductive AcquireCall (W : Type) : Type :=
| ViaAcquire (ctx : Context) (ex : Executor W) (ttl : Duration)
| ViaStaticToken (ctx : Context) (ex : Executor W) (tok : string) (ttl : Duration).
Arguments ViaAcquire {W} ctx ex ttl.
Arguments ViaStaticToken {W} ctx ex tok ttl.

(** Calls made one after the other on one handle; next to the handle, the
    token each call asked for and the error it returned. *)
Fixpoint acquireAll {W : Type} `{ContextEnv W} `{UuidEnv W}
    (l : distrlock.DBLock) (calls : list (AcquireCall W)) (s : St W)
  : outcome (distrlock.DBLock * list (string * option error)) * St W :=
  match calls with
  | [] => (Val (l, []), s)
  | c :: rest =>
      let asked := match c with
                   | ViaStaticToken _ _ t _ => t
                   | ViaAcquire _ _ _ => fst (uuid_NewString (world s))
                   end in
      let call := match c with
                  | ViaStaticToken ctx ex t ttl => distrlock.AcquireWithStaticToken l ctx ex t ttl
                  | ViaAcquire ctx ex ttl => distrlock.Acquire l ctx ex ttl
                  end in
      match call s with
      | (Val (l', err), s') =>
          match acquireAll l' rest s' with
          | (Val (l'', log), s'') => (Val (l'', (asked, err) :: log), s'')
          | (Panicked p, s'') => (Panicked p, s'')
          end
      | (Panicked p, s') => (Panicked p, s')
      end
  end.

(** The token of the last call that returned nil, [init] when there is
    none. *)
Definition lastAcquired (log : list (string * option error)) (init : string) : string :=
  fold_left (fun acc c => match snd c with None => fst c | Some _ => acc end) log init.

(** A call of the log that returned an error. *)
Definition failed (c : string * option error) : Prop := snd c <> None.

(** Rows that have an expiry have a token. *)
Definition tokened (t : gmap string Postgres.LockRow) : Prop :=
  forall key r, t !! key = Some r -> Postgres.expire_at r <> None -> Postgres.tok r <> None.

(** A predicate without effects of its own, with the record of its calls:
    it answers [p e] and notes that [id] was asked about [e]. *)
Definition traced (id : nat) (p : error -> bool) : dbkit.IsRetryable (list (nat * error)) :=
  fun e log => (p e, (log ++ [(id, e)])%list).

(** Calls of [RegisterIsRetryableFunc], first call first: the driver type,
    and the predicate with its number. *)
Definition registerAll (calls : list (dbkit.DriverType * (nat * (error -> bool))))
    (reg : gmap dbkit.DriverType (dbkit.IsRetryable (list (nat * error))))
  : gmap dbkit.DriverType (dbkit.IsRetryable (list (nat * error))) :=
  fold_left (fun reg c => dbkit.RegisterIsRetryableFunc (fst c) (traced (fst (snd c)) (snd (snd c))) reg)
    calls reg.

(** The predicates registered for a driver type, in the order of the calls. *)
Definition registeredFor (t : dbkit.DriverType)
    (calls : list (dbkit.DriverType * (nat * (error -> bool)))) : list (nat * (error -> bool)) :=
  map snd (List.filter (fun c => String.eqb (fst c) t) calls).

(** Some predicate of the list holds of [e]. *)
Definition anyOf (ps : list (nat * (error -> bool))) (e : error) : bool :=
  existsb (fun p => snd p e) ps.

(** The predicates asked about a single error, in order, up to the first
    that says yes. *)
Fixpoint consulted (ps : list (nat * (error -> bool))) (e : error) : list (nat * error) :=
  match ps with
  | [] => []
  | p :: rest => (fst p, e) :: (if snd p e then [] else consulted rest e)
  end.

(** Predicates that keep the record of their calls. *)
Abbreviation Pred := (dbkit.IsRetryable (list (nat * error))).

(** The predicate [GetIsRetryable] returns for a map entry. *)
Definition orNoDriver (r : option Pred) : Pred :=
  match r with Some f => f | None => dbkit.isRetryableNoDriver end.

(** The map entry after registering the predicates [ps] on top of [acc]. *)
Definition stack (ps : list (nat * (error -> bool))) (acc : option Pred) : option Pred :=
  fold_left (fun acc p => Some (dbkit.composed acc (traced (fst p) (snd p)))) ps acc.

(** The calls the predicate of the registered [ps] makes about [e],
    starting from an empty record. *)
Definition callsOf (ps : list (nat * (error -> bool))) (e : error) : list (nat * error) :=
  snd (orNoDriver (stack ps None) e []).

(** [i] comes before [j] in the list. *)
Definition before (i j : nat) (ids : list nat) : Prop :=
  exists a b c, ids = (a ++ i :: b ++ j :: c)%list.

(** A predicate whose answer does not depend on the record of calls and
    which only adds to it. *)
Definition steady (f : Pred) : Prop :=
  forall e log, f e log = (fst (f e []), (log ++ snd (f e []))%list).

(** A manager [NewDBManagerWithOpts] made for PostgreSQL, under either
    dialect name, with the lock table [tableName]. *)
Definition forPostgres (tableName : string) (m : distrlock.DBManager) : Prop :=
  exists dialect, (dialect = dbkit.DialectPostgres \/ dialect = dbkit.DialectPgx) /\
    distrlock.NewDBManagerWithOpts dialect {| distrlock.TableName := tableName |} = inl m.

(** The row a release leaves, and the row an acquire or an extension at
    [now] for [interval] microseconds leaves. *)
Definition releasedRow (token : string) : Postgres.LockRow :=
  {| Postgres.tok := Some token; Postgres.expire_at := None |}.

Definition leasedRow (token : string) (now interval : Z) : Postgres.LockRow :=
  {| Postgres.tok := Some token; Postgres.expire_at := Some (now + interval) |}.

(** The key an operation of the protocol is about. *)
Definition keyOf (op : Postgres.Op) : string :=
  match op with
  | Postgres.OpInit k => k
  | Postgres.OpAcquire _ _ k => k
  | Postgres.OpRelease k _ => k
  | Postgres.OpExtend _ k _ => k
  end.

(** An error value, if any, that does not have [ErrLockAlreadyReleased]
    in its unwrap chain: what a driver, a context or the pool returns. *)
Definition foreign (e : option error) : Prop :=
  forall c, e = Some c -> Is c distrlock.ErrLockAlreadyReleased = false.

(** A computation that only adds events satisfying [P] to the trace, and
    whose value, when it returns one, satisfies [Q]. *)
Definition adds {W A : Type} (P : Event -> Prop) (Q : A -> Prop) (m : M W A) : Prop :=
  forall s, exists tail,
    events (snd (m s)) = (events s ++ tail)%list /\ Forall P tail /\
    forall a, fst (m s) = Val a -> Q a.


(** A migration that gets through the loop of [RunLimit]: its ID is not
    empty and [convertMigration] returns no error for it. *)
Definition passes {W : Type} (m : migrate.Migration W) : Prop :=
  migrate.ID m <> EmptyString /\ snd (migrate.convertMigration m) = None.

(** What [convertMigration] asks of a migration it converts itself. *)
Definition convertible {W : Type} (m : migrate.Migration W) : Prop :=
  migrate.UpSQL m <> [] /\ migrate.UpFn m = None /\
  (migrate.DownFn m = None \/ migrate.DownSQL m = []).

(** The registry once the five driver packages are imported; their
    [init] functions register for five different driver types, so the
    order of the imports does not matter. *)
Definition importAll {S : Type}
    (asPq : error -> option postgres.Error) (asPgx : error -> option pgx.PgError)
    (asMySQL : error -> option mysql.MySQLError) (asMSSQL : error -> option mssql.Error)
    (asSQLite : error -> option sqlite.Error)
    (retryableErrors : gmap dbkit.DriverType (dbkit.IsRetryable S))
  : gmap dbkit.DriverType (dbkit.IsRetryable S) :=
  sqlite.init asSQLite (mssql.init asMSSQL (mysql.init asMySQL
    (pgx.init asPgx (postgres.init asPq retryableErrors)))).

Definition driverTypes : list dbkit.DriverType :=
  [postgres.driverType; pgx.driverType; mysql.driverType; mssql.driverType; sqlite.driverType].

(** An error that wraps another is of none of the drivers' types. *)
Definition blindToWrappers {A : Type} (asError : error -> option A) : Prop :=
  forall prefix cause, asError (fmt_Errorf_w prefix cause) = None.

(** The placeholders of a statement: the numbers after the dollar signs
    of a PostgreSQL statement, in the order they occur (one digit is all
    the statements here need), and the number of question marks of a MySQL
    statement. *)
Definition digitOf (c : ascii) : option nat :=
  let n := nat_of_ascii c in
  if (Nat.leb 48 n && Nat.leb n 57)%bool then Some (n - 48)%nat else None.

Fixpoint dollarParams (s : string) : list nat :=
  match s with
  | EmptyString => []
  | String c rest =>
      if Ascii.eqb c "$" then
        match rest with
        | String d _ =>
            match digitOf d with
            | Some n => n :: dollarParams rest
            | None => dollarParams rest
            end
        | EmptyString => []
        end
      else dollarParams rest
  end.

Fixpoint countChar (c : ascii) (s : string) : nat :=
  match s with
  | EmptyString => O
  | String d rest => ((if Ascii.eqb d c then 1 else 0) + countChar c rest)%nat
  end.

(** The statement and the arguments of the only [EvExec] of a trace. *)
Definition executed (evs : list Event) : option (string * list string) :=
  match evs with
  | [EvExec _ query args] => Some (query, args)
  | _ => None
  end.

(** A statement with its arguments: for MySQL as many question marks as
    arguments; for PostgreSQL the placeholders [$1], [$2], ... up to the
    number of arguments, each once and in this order. *)
Definition parametersFit (dialect : dbkit.Dialect) (x : option (string * list string)) : Prop :=
  match x with
  | Some (query, args) =>
      if String.eqb dialect dbkit.DialectMySQL
      then countChar "?" query = length args /\ dollarParams query = []
      else dollarParams query = seq 1 (length args) /\ countChar "?" query = O
  | None => False
  end.

(* ===================================================================== *)
(** * Fixtures of the examples                                             *)
(* ===================================================================== *)

(** Scripted worlds in which [BeginTx], or [Commit], fails with [e]. *)
Definition withBegin (e : error) : Mock.World :=
  {| Mock.onBegin := Some e; Mock.onExec := Mock.ok 1; Mock.onCommit := None;
     Mock.onRollback := None; Mock.done := []; Mock.nextUUID := EmptyString |}.

Definition withCommit (e : error) : Mock.World :=
  {| Mock.onBegin := None; Mock.onExec := Mock.ok 1; Mock.onCommit := Some e;
     Mock.onRollback := None; Mock.done := []; Mock.nextUUID := EmptyString |}.

(** Functions to run in a transaction: one returns [r], one panics. *)
Definition fnReturns (r : option error) : Tx -> unit -> M Mock.World (unit * option error) :=
  fun _ _ => ret (tt, r).

Definition fnPanics (e : error) : Tx -> unit -> M Mock.World (unit * option error) :=
  fun _ _ => panic (PanicWith e).

(** The manager [NewDBManager] makes for PostgreSQL (the second branch is
    never taken), and a handle of that manager as [NewLock] returns it. *)
Definition postgresManager : distrlock.DBManager :=
  match distrlock.NewDBManager dbkit.DialectPostgres with
  | inl m => m
  | inr _ => {| distrlock.queries :=
                 {| distrlock.createTable := EmptyString; distrlock.dropTable := EmptyString;
                    distrlock.initLock := EmptyString; distrlock.acquireLock := EmptyString;
                    distrlock.releaseLock := EmptyString; distrlock.extendLock := EmptyString;
                    distrlock.intervalMaker := fun _ => EmptyString |} |}
  end.

Definition newHandle (key : string) : distrlock.DBLock :=
  {| distrlock.Key := key; distrlock.TTL := 0; distrlock.token := EmptyString;
     distrlock.manager := Some postgresManager |}.

(** An executor that answers [r] to every statement. *)
Definition answering (r : Result * option error) : Executor Mock.World :=
  {| ExecContext := fun _ _ _ w => (r, w) |}.

(** A scripted world in which the context [c] is already done. *)
Definition doneWorld (c : Context) (n : Z) : Mock.World :=
  {| Mock.onBegin := None; Mock.onExec := Mock.ok n; Mock.onCommit := None;
     Mock.onRollback := None; Mock.done := [c]; Mock.nextUUID := EmptyString |}.

Definition second : Duration := 1000000000.

(** A row as [initLock] inserts it, and the table after token [A] has
    acquired the free row [job-A] at instant 5 for 10 microseconds. *)
Definition freeRow : Postgres.LockRow := {| Postgres.tok := None; Postgres.expire_at := None |}.

Definition heldByA : gmap string Postgres.LockRow :=
  fst (Postgres.acquireLockStmt 5 10 "A" "job-A" "A" {["job-A" := freeRow]}).

(** A server whose lock table has the free row [job-A], at instant 0. *)
Definition server0 : Postgres.Server :=
  {| Postgres.lockTable := {["job-A" := freeRow]}; Postgres.NOW := 0; Postgres.cancelled := [] |}.

Definition minute : Duration := 60 * second.

(** Two predicates: one says no to every error, one recognises a leaf
    error by its text. *)
Definition never : error -> bool := fun _ => false.

Definition hasText (text : string) (e : error) : bool :=
  match e with
  | errors_New t => String.eqb t text
  | _ => false
  end.

(** A user function during which the caller's context is cancelled, and
    which then returns [context.Canceled]. *)
Definition cancelledJob : Context -> distrlock.Job Mock.World :=
  fun _ => distrlock.JobStep (ctx_cancel (Caller 0)) (fun _ => distrlock.JobReturn (Some Canceled)).

Definition uuid0 : string := "6ba7b810-9dad-11d1-80b4-00c04fd430c8".

(** A user function during which the lock is lost: from then on the
    statements affect no row. *)
Definition losingJob : Context -> distrlock.Job Mock.World :=
  fun _ => distrlock.JobStep
             (fun w => {| Mock.onBegin := Mock.onBegin w; Mock.onExec := Mock.ok 0;
                          Mock.onCommit := Mock.onCommit w; Mock.onRollback := Mock.onRollback w;
                          Mock.done := Mock.done w; Mock.nextUUID := Mock.nextUUID w |})
             (fun _ => distrlock.JobReturn None).

(** A handle of the PostgreSQL manager that has acquired with [tk] and
    [ttl], and a server with the lock table [t] at the instant [now]. *)
Definition acquiredHandle (key tk : string) (ttl : Duration) : distrlock.DBLock :=
  {| distrlock.Key := key; distrlock.TTL := ttl; distrlock.token := tk;
     distrlock.manager := Some postgresManager |}.

Definition serverAt (t : gmap string Postgres.LockRow) (now : Z) : Postgres.Server :=
  {| Postgres.lockTable := t; Postgres.NOW := now; Postgres.cancelled := [] |}.

(** A scripted sql-migrate: it applies every migration it is given, and
    the world is the record of its calls. *)
Definition MigrateCalls : Type :=
  list (string * string * list (option migrate.SqlMigration) * migrate.SqlDirection * Z).

#[global] Instance MigrateCalls_MigrateEnv : migrate.MigrateEnv MigrateCalls :=
  {| migrate.ExecMax := fun table _ dialect migrations dir limit w =>
       ((Z.of_nat (length migrations), None),
        (w ++ [(table, dialect, migrations, dir, limit)])%list) |}.

(** A migration with one statement each way, and one that only has an
    [UpFn]. *)
Definition createUsers : migrate.Migration MigrateCalls :=
  migrate.NewCustomMigration "0001_users" ["CREATE TABLE users (id int);"] ["DROP TABLE users;"]
    None None.

Definition onlyUpFn : migrate.Migration MigrateCalls :=
  migrate.NewCustomMigration "0002_fill" [] [] (Some (fun _ w => (None, w))) None.

(** Type assertions for the examples: the errors of the drivers are told
    by their text. *)
Definition asPqByText (e : error) : option postgres.Error :=
  match e with
  | errors_New "pq: deadlock detected" => Some {| postgres.CodeName := "deadlock_detected" |}
  | errors_New "pq: duplicate key value" => Some {| postgres.CodeName := "unique_violation" |}
  | _ => None
  end.

Definition asPgxByText (e : error) : option pgx.PgError :=
  match e with
  | errors_New "ERROR: deadlock detected (SQLSTATE 40P01)" =>
      Some {| pgx.Severity := "ERROR"; pgx.Code := "40P01"; pgx.Message := "deadlock detected" |}
  | _ => None
  end.

Definition asMySQLByText (e : error) : option mysql.MySQLError :=
  match e with
  | errors_New "Error 1213: Deadlock found" => Some {| mysql.Number := 1213 |}
  | errors_New "Error 1062: Duplicate entry" => Some {| mysql.Number := 1062 |}
  | _ => None
  end.

Definition asMSSQLByText (e : error) : option mssql.Error :=
  match e with
  | errors_New "mssql: deadlock victim" => Some {| mssql.Number := 1205 |}
  | _ => None
  end.

Definition asSQLiteByText (e : error) : option sqlite.Error :=
  match e with
  | errors_New "database is locked" => Some {| sqlite.Code := 5; sqlite.ExtendedCode := 5 |}
  | _ => None
  end.

(** Two migrations of the package's tests: one takes over through
    [RawMigration], which fails when [makeError] is set, and one disables
    the transaction. *)
Definition testMigration00003RawMigration (makeError : bool) : migrate.Migration MigrateCalls :=
  {| migrate.ID := "00003_raw_migration"; migrate.UpSQL := []; migrate.DownSQL := [];
     migrate.UpFn := None; migrate.DownFn := None;
     migrate.RawMigration :=
       Some (if makeError
             then (None, Some (fmt_Errorf "fake fatal error" []))
             else (Some {| migrate.Id := "00003_raw_migration";
                           migrate.Up := ["INSERT INTO users(name) VALUES ('AlbertRaw');"];
                           migrate.Down := ["DELETE FROM users WHERE name LIKE '%Raw';"];
                           migrate.DisableTransactionUp := false;
                           migrate.DisableTransactionDown := false |}, None));
     migrate.DisableTx := None |}.

Definition testMigration00004NoTransaction : migrate.Migration MigrateCalls :=
  {| migrate.ID := "00004_no_transaction";
     migrate.UpSQL := ["INSERT INTO users(name) VALUES ('LAMBERT')"];
     migrate.DownSQL := ["DELETE FROM users WHERE name='LAMBERT'"];
     migrate.UpFn := None; migrate.DownFn := None;
     migrate.RawMigration := None; migrate.DisableTx := Some true |}.

(** Tokens for the server: two uuids, and the first one spelled in upper
    case; and the table in which the first holds [job-A] until instant 15. *)
Definition uuid1 : string := "6ba7b811-9dad-11d1-80b4-00c04fd430c8".

Definition uuid0Upper : string := "6BA7B810-9DAD-11D1-80B4-00C04FD430C8".

Definition heldByUuid0 : gmap string Postgres.LockRow :=
  fst (Postgres.acquireLockStmt 5 10 uuid0 "job-A" uuid0 {["job-A" := freeRow]}).

(* ===================================================================== *)
(** * Properties                                                           *)
(* ===================================================================== *)

(** ** Transaction helper *)

Section TxProps.
Context {W : Type} `{SqlEnv W}.

(** The state after one primitive call. *)
Lemma prim_run {A : Type} (ev : Event) (f : W -> A * W) (s : St W) :
  prim ev f s = (Val (fst (f (world s))), mkSt (snd (f (world s))) (events s ++ [ev])).
Proof. unfold prim. destruct (f (world s)); reflexivity. Qed.

Lemma bind_run {A B : Type} (m : M W A) (k : A -> M W B) (s : St W) :
  bind m k s = match m s with
               | (Val a, s') => k a s'
               | (Panicked p, s') => (Panicked p, s')
               end.
Proof. reflexivity. Qed.

(** C4. [DoInTxWithOpts] (and [DoInTx], which is [DoInTxWithOpts] with nil
    options): (1) when [BeginTx] fails the result is the error
    ["begin tx: " + cause], which unwraps to the cause, and the state is
    the one [BeginTx] left, whatever [fn] is: [fn] is not called;
    (2) when [fn] returns an error, [Rollback] is called once, its own
    error is dropped and the result is [fn]'s error; (3) when [fn] panics,
    [Rollback] is called once and the panic goes on; (4) when [fn] returns
    nil, [Commit] is called once and the result is nil, or
    ["commit tx: " + cause] when the commit fails with [cause]. *)
Theorem DoInTxWithOpts_contract {A : Type}
    (ctx : Context) (dbConn : DB) (txOpts : TxOptions) (captured : A)
    (fn : Tx -> A -> M W (A * option error)) (s : St W) :
  let began := db_BeginTx ctx dbConn txOpts (world s) in
  let tx := fst (fst began) in
  let s1 := mkSt (snd began) (events s ++ [EvBeginTx ctx dbConn txOpts]) in
  let after := fn tx captured s1 in
  let s2 := snd after in
  let rolledBack := mkSt (snd (tx_Rollback tx (world s2))) (events s2 ++ [EvRollback tx]) in
  let committed := mkSt (snd (tx_Commit tx (world s2))) (events s2 ++ [EvCommit tx]) in
  dbkit.DoInTx ctx dbConn captured fn = dbkit.DoInTxWithOpts ctx dbConn None captured fn /\
  (forall cause, snd (fst began) = Some cause ->
     dbkit.DoInTxWithOpts ctx dbConn txOpts captured fn s
       = (Val (captured, Some (fmt_Errorf_w "begin tx: " cause)), s1) /\
     Unwrap (fmt_Errorf_w "begin tx: " cause) = Some cause) /\
  (forall a e, snd (fst began) = None -> fst after = Val (a, Some e) ->
     dbkit.DoInTxWithOpts ctx dbConn txOpts captured fn s = (Val (a, Some e), rolledBack)) /\
  (forall p, snd (fst began) = None -> fst after = Panicked p ->
     dbkit.DoInTxWithOpts ctx dbConn txOpts captured fn s = (Panicked p, rolledBack)) /\
  (forall a, snd (fst began) = None -> fst after = Val (a, None) ->
     (forall cause, fst (tx_Commit tx (world s2)) = Some cause ->
        dbkit.DoInTxWithOpts ctx dbConn txOpts captured fn s
          = (Val (a, Some (fmt_Errorf_w "commit tx: " cause)), committed) /\
        Unwrap (fmt_Errorf_w "commit tx: " cause) = Some cause) /\
     (fst (tx_Commit tx (world s2)) = None ->
        dbkit.DoInTxWithOpts ctx dbConn txOpts captured fn s = (Val (a, None), committed))).
Proof.
  cbv zeta.
  unfold dbkit.DoInTx, dbkit.DoInTxWithOpts, dbkit.BeginTx, dbkit.Rollback, dbkit.Commit, bind, ret.
  rewrite prim_run.
  destruct (db_BeginTx ctx dbConn txOpts (world s)) as [[tx err] w1]; simpl.
  split; [reflexivity|].
  split; [intros cause ->; split; reflexivity|].
  split; [|split].
  - intros a e -> Hfn.
    destruct (fn tx captured _) as [o s2]; simpl in *; subst o.
    rewrite prim_run. reflexivity.
  - intros p -> Hfn.
    destruct (fn tx captured _) as [o s2]; simpl in *; subst o.
    rewrite prim_run. reflexivity.
  - intros a -> Hfn.
    destruct (fn tx captured _) as [o s2]; simpl in *; subst o.
    rewrite prim_run.
    split.
    + intros cause Hc. rewrite Hc. split; reflexivity.
    + intros Hc. rewrite Hc. reflexivity.
Qed.

End TxProps.

(** The five cases of [TestDoInTx], run on the scripted world. *)
Example TestDoInTx_success :
  dbkit.DoInTx Background 0%nat tt (fnReturns None) (mkSt (Mock.happy 1) [])
  = (Val (tt, None), mkSt (Mock.happy 1) [EvBeginTx Background 0%nat None; EvCommit 1%nat]).
Proof. reflexivity. Qed.

Example TestDoInTx_error_on_begin :
  dbkit.DoInTx Background 0%nat tt (fnReturns None) (mkSt (withBegin (errors_New "begin error")) [])
  = (Val (tt, Some (fmt_Errorf_w "begin tx: " (errors_New "begin error"))),
     mkSt (withBegin (errors_New "begin error")) [EvBeginTx Background 0%nat None]).
Proof. reflexivity. Qed.

Example TestDoInTx_error_on_commit :
  fst (dbkit.DoInTx Background 0%nat tt (fnReturns None) (mkSt (withCommit (errors_New "commit error")) []))
  = Val (tt, Some (fmt_Errorf_w "commit tx: " (errors_New "commit error"))).
Proof. reflexivity. Qed.

Example TestDoInTx_error_in_func :
  dbkit.DoInTx Background 0%nat tt (fnReturns (Some (errors_New "fn error"))) (mkSt (Mock.happy 1) [])
  = (Val (tt, Some (errors_New "fn error")),
     mkSt (Mock.happy 1) [EvBeginTx Background 0%nat None; EvRollback 1%nat]).
Proof. reflexivity. Qed.

Example TestDoInTx_panic_in_func :
  dbkit.DoInTx Background 0%nat tt (fnPanics (errors_New "panic")) (mkSt (Mock.happy 1) [])
  = (Panicked (PanicWith (errors_New "panic")),
     mkSt (Mock.happy 1) [EvBeginTx Background 0%nat None; EvRollback 1%nat]).
Proof. reflexivity. Qed.

(** C4, at work: [BeginTx] fails and the function, which would panic, is
    not run. *)
Lemma DoInTxWithOpts_contract_witness :
  dbkit.DoInTxWithOpts Background 0%nat None tt (fnPanics (errors_New "never run"))
    (mkSt (withBegin (errors_New "begin error")) [])
  = (Val (tt, Some (fmt_Errorf_w "begin tx: " (errors_New "begin error"))),
     mkSt (withBegin (errors_New "begin error")) [EvBeginTx Background 0%nat None]).
Proof.
  exact (proj1 (proj1 (proj2 (DoInTxWithOpts_contract Background 0%nat None tt
                 (fnPanics (errors_New "never run"))
                 (mkSt (withBegin (errors_New "begin error")) []))) _ eq_refl)).
Defined.

(** ** Lock manager *)

(** C10. For every dialect other than ["postgres"], ["pgx"] and ["mysql"],
    [newDBQueries] returns the error [unsupported sql dialect %q] of that
    dialect, and so do [NewDBManagerWithOpts] and [NewDBManager]: no
    manager is made.  ["sqlite3"] and ["mssql"], which the configuration
    of the library supports, are among them. *)
Theorem newDBQueries_unsupported :
  (forall (dialect : dbkit.Dialect) (tableName : string),
     dialect <> dbkit.DialectPostgres -> dialect <> dbkit.DialectPgx ->
     dialect <> dbkit.DialectMySQL ->
     distrlock.newDBQueries dialect tableName
       = inr (fmt_Errorf "unsupported sql dialect %q" [dialect]) /\
     distrlock.NewDBManagerWithOpts dialect {| distrlock.TableName := tableName |}
       = inr (fmt_Errorf "unsupported sql dialect %q" [dialect]) /\
     distrlock.NewDBManager dialect
       = inr (fmt_Errorf "unsupported sql dialect %q" [dialect])) /\
  (forall d, d = dbkit.DialectSQLite \/ d = dbkit.DialectMSSQL ->
     In d dbkit.defaultSupportedDialects /\
     distrlock.NewDBManager d = inr (fmt_Errorf "unsupported sql dialect %q" [d])).
Proof.
  assert (Hq : forall dialect tableName,
             dialect <> dbkit.DialectPostgres -> dialect <> dbkit.DialectPgx ->
             dialect <> dbkit.DialectMySQL ->
             distrlock.newDBQueries dialect tableName
             = inr (fmt_Errorf "unsupported sql dialect %q" [dialect])).
  { intros dialect tableName H1 H2 H3. unfold distrlock.newDBQueries.
    apply String.eqb_neq in H1, H2, H3. rewrite H1, H2, H3. reflexivity. }
  split.
  - intros dialect tableName H1 H2 H3.
    unfold distrlock.NewDBManager, distrlock.NewDBManagerWithOpts; simpl.
    rewrite !Hq by assumption. auto.
  - intros d [-> | ->]; split; try (simpl; tauto); reflexivity.
Qed.

(** The three supported dialects do get a manager. *)
Lemma newDBQueries_supported (dialect : dbkit.Dialect) (tableName : string) :
  dialect = dbkit.DialectPostgres \/ dialect = dbkit.DialectPgx \/ dialect = dbkit.DialectMySQL ->
  exists q, distrlock.newDBQueries dialect tableName = inl q.
Proof.
  intros [-> | [-> | ->]]; eexists; reflexivity.
Qed.

(** ** Lock handle: the affected-rows check *)

Section HandleProps.
Context {W : Type} `{ContextEnv W}.

Lemma execQueryAndCheck_run (ctx : Context) (ex : Executor W) (q : string) (args : list string)
    (errNo : error) (s : St W) :
  let r := ExecContext ex ctx q args (world s) in
  distrlock.execQueryAndCheck ctx ex q args errNo s
  = (Val (verdict (snd (fst r)) (ctx_Err ctx (snd r)) (RowsAffected (fst (fst r))) errNo),
     mkSt (snd r) (events s ++ [EvExec ctx q args])).
Proof.
  cbv zeta. unfold distrlock.execQueryAndCheck, distrlock.exec, distrlock.ctxErr, bind, ret.
  rewrite prim_run.
  destruct (ExecContext ex ctx q args (world s)) as [[res err] w1]; cbn.
  destruct err as [e|]; [reflexivity|]. cbn.
  destruct (ctx_Err ctx w1) as [e|]; [reflexivity|].
  destruct (RowsAffected res) as [n [e|]]; [reflexivity|].
  destruct (Z.eqb n 1); reflexivity.
Qed.

Lemma AcquireWithStaticToken_run (l : distrlock.DBLock) (m : distrlock.DBManager)
    (ctx : Context) (ex : Executor W) (tok : string) (ttl : Duration) (s : St W) :
  distrlock.manager l = Some m ->
  let q := distrlock.acquireLock (distrlock.queries m) in
  let args := [distrlock.intervalMaker (distrlock.queries m) ttl; tok; distrlock.Key l; tok] in
  let r := ExecContext ex ctx q args (world s) in
  let err := verdict (snd (fst r)) (ctx_Err ctx (snd r)) (RowsAffected (fst (fst r)))
               distrlock.ErrLockAlreadyAcquired in
  distrlock.AcquireWithStaticToken l ctx ex tok ttl s
  = (Val (match err with
          | None => {| distrlock.Key := distrlock.Key l; distrlock.TTL := ttl;
                       distrlock.token := tok; distrlock.manager := distrlock.manager l |}
          | Some _ => l
          end, err),
     mkSt (snd r) (events s ++ [EvExec ctx q args])).
Proof.
  intros Hm. cbv zeta. unfold distrlock.AcquireWithStaticToken. rewrite Hm.
  unfold bind. rewrite execQueryAndCheck_run. cbv zeta.
  destruct (verdict _ _ _ _); reflexivity.
Qed.

Lemma Release_run (l : distrlock.DBLock) (m : distrlock.DBManager)
    (ctx : Context) (ex : Executor W) (s : St W) :
  distrlock.manager l = Some m ->
  let q := distrlock.releaseLock (distrlock.queries m) in
  let args := [distrlock.Key l; distrlock.token l] in
  let r := ExecContext ex ctx q args (world s) in
  distrlock.Release l ctx ex s
  = (Val (verdict (snd (fst r)) (ctx_Err ctx (snd r)) (RowsAffected (fst (fst r)))
            distrlock.ErrLockAlreadyReleased),
     mkSt (snd r) (events s ++ [EvExec ctx q args])).
Proof.
  intros Hm. cbv zeta. unfold distrlock.Release. rewrite Hm.
  apply execQueryAndCheck_run.
Qed.

Lemma Extend_run (l : distrlock.DBLock) (m : distrlock.DBManager)
    (ctx : Context) (ex : Executor W) (s : St W) :
  distrlock.manager l = Some m ->
  let q := distrlock.extendLock (distrlock.queries m) in
  let args := [distrlock.intervalMaker (distrlock.queries m) (distrlock.TTL l);
               distrlock.Key l; distrlock.token l] in
  let r := ExecContext ex ctx q args (world s) in
  distrlock.Extend l ctx ex s
  = (Val (verdict (snd (fst r)) (ctx_Err ctx (snd r)) (RowsAffected (fst (fst r)))
            distrlock.ErrLockAlreadyReleased),
     mkSt (snd r) (events s ++ [EvExec ctx q args])).
Proof.
  intros Hm. cbv zeta. unfold distrlock.Extend. rewrite Hm.
  apply execQueryAndCheck_run.
Qed.

(** The zero handle, which [NewLock] returns next to an error, has no
    manager: its methods panic before any statement is executed.  The
    properties below are about handles with a manager, as [NewLock]
    returns them without error. *)
Lemma zero_handle_panics (ctx : Context) (ex : Executor W) (tok : string) (ttl : Duration)
    (s : St W) :
  distrlock.AcquireWithStaticToken distrlock.zeroDBLock ctx ex tok ttl s
    = (Panicked NilPointerDereference, s) /\
  distrlock.Release distrlock.zeroDBLock ctx ex s = (Panicked NilPointerDereference, s) /\
  distrlock.Extend distrlock.zeroDBLock ctx ex s = (Panicked NilPointerDereference, s).
Proof. repeat split. Qed.

Lemma verdict_nil (execErr ctxErr : option error) (affected : Z * option error) (errNo : error) :
  verdict execErr ctxErr affected errNo = None <->
  execErr = None /\ ctxErr = None /\ affected = (1, None).
Proof.
  unfold verdict. destruct execErr, ctxErr, affected as [n [e'|]];
    try (split; [discriminate | intros (? & ? & ?); discriminate]).
  destruct (Z.eqb_spec n 1) as [-> | Hn].
  - split; auto.
  - split; [discriminate | intros (_ & _ & Heq); congruence].
Qed.

(** [Acquire] is [AcquireWithStaticToken] with the string [uuid.NewString]
    returns. *)
Lemma Acquire_delegates `{UuidEnv W} (l : distrlock.DBLock) (ctx : Context) (ex : Executor W)
    (ttl : Duration) (s : St W) :
  distrlock.Acquire l ctx ex ttl s
  = distrlock.AcquireWithStaticToken l ctx ex (fst (uuid_NewString (world s))) ttl
      (mkSt (snd (uuid_NewString (world s))) (events s)).
Proof.
  unfold distrlock.Acquire, bind. destruct (uuid_NewString (world s)); reflexivity.
Qed.

(** C2, as the code has it.  For a handle with a manager,
    [AcquireWithStaticToken] returns nil exactly when [ExecContext]
    returned no error, the context is not done after the statement, and
    [RowsAffected] reports exactly one row without error; then the handle
    holds the given TTL and token.  In every other case the handle is
    unchanged, and when the statement ran, the context is not done and the
    number of affected rows is not one (zero in particular), the error is
    [ErrLockAlreadyAcquired].  [Acquire] is the same call with the token
    [uuid.NewString] returns. *)
Theorem AcquireWithStaticToken_contract `{UuidEnv W} (l : distrlock.DBLock)
    (m : distrlock.DBManager) (ctx : Context) (ex : Executor W) (tok : string)
    (ttl : Duration) (s : St W) (Hm : distrlock.manager l = Some m) :
  let q := distrlock.acquireLock (distrlock.queries m) in
  let args := [distrlock.intervalMaker (distrlock.queries m) ttl; tok; distrlock.Key l; tok] in
  let r := ExecContext ex ctx q args (world s) in
  let execErr := snd (fst r) in
  let ctxDone := ctx_Err ctx (snd r) in
  let affected := RowsAffected (fst (fst r)) in
  distrlock.Acquire l ctx ex ttl s
  = distrlock.AcquireWithStaticToken l ctx ex (fst (uuid_NewString (world s))) ttl
      (mkSt (snd (uuid_NewString (world s))) (events s)) /\
  exists l' err,
    distrlock.AcquireWithStaticToken l ctx ex tok ttl s
      = (Val (l', err), mkSt (snd r) (events s ++ [EvExec ctx q args])) /\
    (err = None <-> execErr = None /\ ctxDone = None /\ affected = (1, None)) /\
    (err = None ->
       l' = {| distrlock.Key := distrlock.Key l; distrlock.TTL := ttl;
               distrlock.token := tok; distrlock.manager := distrlock.manager l |}) /\
    (err <> None -> l' = l) /\
    (forall n, execErr = None -> ctxDone = None -> affected = (n, None) -> n <> 1 ->
       err = Some distrlock.ErrLockAlreadyAcquired).
Proof.
  cbv zeta. split; [apply Acquire_delegates|].
  rewrite (AcquireWithStaticToken_run l m) by exact Hm. cbv zeta.
  eexists _, _. split; [reflexivity|].
  split; [apply verdict_nil|].
  split; [intros ->; reflexivity|].
  split.
  - intros Hne. destruct (verdict _ _ _ _); [reflexivity | congruence].
  - intros n -> -> -> Hn. unfold verdict.
    destruct (Z.eqb_spec n 1); [contradiction | reflexivity].
Qed.

(** C3. For a handle with a manager: when the statement of an operation
    ([AcquireWithStaticToken], [Acquire], [Release], [Extend]) runs
    without a driver error and the context of the operation is done right
    after it, the operation returns the error of the context, whatever
    number of rows was affected; an acquire then leaves the handle as it
    was. *)
Theorem cancellation_takes_precedence `{UuidEnv W} (l : distrlock.DBLock)
    (m : distrlock.DBManager) (ctx : Context) (ex : Executor W) (s : St W)
    (Hm : distrlock.manager l = Some m) :
  (forall tok ttl cerr,
     let r := ExecContext ex ctx (distrlock.acquireLock (distrlock.queries m))
                [distrlock.intervalMaker (distrlock.queries m) ttl; tok; distrlock.Key l; tok]
                (world s) in
     snd (fst r) = None -> ctx_Err ctx (snd r) = Some cerr ->
     fst (distrlock.AcquireWithStaticToken l ctx ex tok ttl s) = Val (l, Some cerr)) /\
  (forall ttl cerr,
     let tok := fst (uuid_NewString (world s)) in
     let r := ExecContext ex ctx (distrlock.acquireLock (distrlock.queries m))
                [distrlock.intervalMaker (distrlock.queries m) ttl; tok; distrlock.Key l; tok]
                (snd (uuid_NewString (world s))) in
     snd (fst r) = None -> ctx_Err ctx (snd r) = Some cerr ->
     fst (distrlock.Acquire l ctx ex ttl s) = Val (l, Some cerr)) /\
  (forall cerr,
     let r := ExecContext ex ctx (distrlock.releaseLock (distrlock.queries m))
                [distrlock.Key l; distrlock.token l] (world s) in
     snd (fst r) = None -> ctx_Err ctx (snd r) = Some cerr ->
     fst (distrlock.Release l ctx ex s) = Val (Some cerr)) /\
  (forall cerr,
     let r := ExecContext ex ctx (distrlock.extendLock (distrlock.queries m))
                [distrlock.intervalMaker (distrlock.queries m) (distrlock.TTL l);
                 distrlock.Key l; distrlock.token l] (world s) in
     snd (fst r) = None -> ctx_Err ctx (snd r) = Some cerr ->
     fst (distrlock.Extend l ctx ex s) = Val (Some cerr)).
Proof.
  split; [|split; [|split]].
  - intros tok ttl cerr r He Hc. subst r.
    rewrite (AcquireWithStaticToken_run l m) by exact Hm. cbv zeta.
    rewrite He, Hc. reflexivity.
  - intros ttl cerr tok r He Hc. subst r tok.
    rewrite Acquire_delegates, (AcquireWithStaticToken_run l m) by exact Hm. cbv zeta.
    cbn [world events]. rewrite He, Hc. reflexivity.
  - intros cerr r He Hc. subst r.
    rewrite (Release_run l m) by exact Hm. cbv zeta.
    rewrite He, Hc. reflexivity.
  - intros cerr r He Hc. subst r.
    rewrite (Extend_run l m) by exact Hm. cbv zeta.
    rewrite He, Hc. reflexivity.
Qed.

End HandleProps.

(** C2, at work: one row affected, the context alive. *)
Lemma AcquireWithStaticToken_contract_witness :
  exists l' err,
    distrlock.AcquireWithStaticToken (newHandle "job-A") (Caller 0) Mock.executor
      "T" second (mkSt (Mock.happy 1) [])
    = (Val (l', err),
       mkSt (Mock.happy 1)
         [EvExec (Caller 0) (distrlock.acquireLock (distrlock.queries postgresManager))
            ["1000000 microseconds"; "T"; "job-A"; "T"]]) /\
    err = None /\ distrlock.Token l' = "T" /\ distrlock.TTL l' = second.
Proof.
  destruct (AcquireWithStaticToken_contract (newHandle "job-A") postgresManager (Caller 0)
              Mock.executor "T" second (mkSt (Mock.happy 1) []) eq_refl)
    as (_ & l' & err & Hrun & Hiff & Hupd & _).
  exists l', err. split; [exact Hrun|].
  assert (He : err = None) by (apply Hiff; repeat split; reflexivity).
  split; [exact He|]. rewrite (Hupd He). split; reflexivity.
Defined.

(** C2 as the specification words it fails: here the acquire statement
    runs without error and reports one affected row, and yet the call
    does not succeed and stores nothing, because the context is done
    when the statement returns. *)
Lemma one_row_affected_without_success :
  let l := newHandle "job-A" in
  let w := doneWorld (Caller 0) 1 in
  let r := ExecContext Mock.executor (Caller 0)
             (distrlock.acquireLock (distrlock.queries postgresManager))
             ["1000000 microseconds"; "T"; "job-A"; "T"] w in
  (snd (fst r) = None /\ RowsAffected (fst (fst r)) = (1, None)) /\
  fst (distrlock.AcquireWithStaticToken l (Caller 0) Mock.executor "T" second (mkSt w []))
    = Val (l, Some Canceled) /\
  ~ ((exists l', fst (distrlock.AcquireWithStaticToken l (Caller 0) Mock.executor "T" second
                        (mkSt w [])) = Val (l', None))
     <-> RowsAffected (fst (fst r)) = (1, None)).
Proof.
  cbv zeta. split; [split; reflexivity|]. split; [reflexivity|].
  intros [_ Hback]. destruct (Hback eq_refl) as [l' Hl']. discriminate Hl'.
Qed.

(** C3, at work: no row is affected, the context is done, and each of the
    operations returns [context.Canceled], not a lock error. *)
Lemma cancellation_takes_precedence_witness :
  fst (distrlock.AcquireWithStaticToken (newHandle "job-A") (Caller 0) Mock.executor "T" second
         (mkSt (doneWorld (Caller 0) 0) []))
    = Val (newHandle "job-A", Some Canceled) /\
  fst (distrlock.Acquire (newHandle "job-A") (Caller 0) Mock.executor second
         (mkSt (doneWorld (Caller 0) 0) []))
    = Val (newHandle "job-A", Some Canceled) /\
  fst (distrlock.Release (newHandle "job-A") (Caller 0) Mock.executor
         (mkSt (doneWorld (Caller 0) 0) [])) = Val (Some Canceled) /\
  fst (distrlock.Extend (newHandle "job-A") (Caller 0) Mock.executor
         (mkSt (doneWorld (Caller 0) 0) [])) = Val (Some Canceled).
Proof.
  destruct (cancellation_takes_precedence (newHandle "job-A") postgresManager (Caller 0)
              Mock.executor (mkSt (doneWorld (Caller 0) 0) []) eq_refl) as (Ha & Hu & Hr & He).
  split; [exact (Ha "T" second Canceled eq_refl eq_refl)|].
  split; [exact (Hu second Canceled eq_refl eq_refl)|].
  split; [exact (Hr Canceled eq_refl eq_refl) | exact (He Canceled eq_refl eq_refl)].
Defined.

(** ** Lock handle: construction and token *)

Section TokenProps.
Context {W : Type} `{ContextEnv W} `{UuidEnv W}.

Lemma lastAcquired_all_failed (log : list (string * option error)) (init : string) :
  Forall failed log -> lastAcquired log init = init.
Proof.
  unfold lastAcquired. revert init.
  induction log as [|[t e] log IH]; intros init Hall; [reflexivity|].
  inversion Hall as [|? ? Hf Hrest]; subst. simpl.
  destruct e as [e|]; [apply IH; exact Hrest | exfalso; apply Hf; reflexivity].
Qed.

Lemma lastAcquired_last_success (pre post : list (string * option error)) (t init : string) :
  Forall failed post -> lastAcquired (pre ++ (t, None) :: post) init = t.
Proof.
  intros Hpost. unfold lastAcquired. rewrite fold_left_app. simpl.
  apply (lastAcquired_all_failed post t Hpost).
Qed.

Lemma acquire_step (l : distrlock.DBLock) (m : distrlock.DBManager) (c : AcquireCall W) (s : St W) :
  distrlock.manager l = Some m ->
  let asked := match c with
               | ViaStaticToken _ _ t _ => t
               | ViaAcquire _ _ _ => fst (uuid_NewString (world s))
               end in
  let call := match c with
              | ViaStaticToken ctx ex t ttl => distrlock.AcquireWithStaticToken l ctx ex t ttl
              | ViaAcquire ctx ex ttl => distrlock.Acquire l ctx ex ttl
              end in
  exists l' err s',
    call s = (Val (l', err), s') /\ distrlock.manager l' = Some m /\
    distrlock.token l' = match err with None => asked | Some _ => distrlock.token l end.
Proof.
  intros Hm. cbv zeta. destruct c as [ctx ex ttl | ctx ex t ttl].
  - rewrite Acquire_delegates. rewrite (AcquireWithStaticToken_run l m) by exact Hm. cbv zeta.
    eexists _, _, _. split; [reflexivity|].
    destruct (verdict _ _ _ _); simpl; auto.
  - rewrite (AcquireWithStaticToken_run l m) by exact Hm. cbv zeta.
    eexists _, _, _. split; [reflexivity|].
    destruct (verdict _ _ _ _); simpl; auto.
Qed.

(** C9, as the code has it.  For a handle with a manager and every
    sequence of acquire calls on it, the calls all return, and afterwards
    [Token] is the token of the last call that succeeded; it is the token
    the handle had before (empty for a handle fresh from [NewLock]) when
    no call succeeded.  A failed call leaves the token as it was. *)
Theorem Token_is_last_successful_acquire (l : distrlock.DBLock) (m : distrlock.DBManager)
    (calls : list (AcquireCall W)) (s : St W) (Hm : distrlock.manager l = Some m) :
  exists l' log s',
    acquireAll l calls s = (Val (l', log), s') /\
    length log = length calls /\
    distrlock.Token l' = lastAcquired log (distrlock.Token l) /\
    (Forall failed log -> distrlock.Token l' = distrlock.Token l) /\
    (forall pre t post, log = (pre ++ (t, None) :: post)%list -> Forall failed post ->
       distrlock.Token l' = t).
Proof.
  assert (Hmain : exists l' log s',
             acquireAll l calls s = (Val (l', log), s') /\
             length log = length calls /\
             distrlock.Token l' = lastAcquired log (distrlock.Token l)).
  { revert l s Hm. induction calls as [|c rest IH]; intros l s Hm.
    - exists l, [], s. repeat split.
    - destruct (acquire_step l m c s Hm) as (l1 & err & s1 & Hcall & Hm1 & Htok).
      destruct (IH l1 s1 Hm1) as (l2 & log & s2 & Hrest & Hlen & Hlast).
      exists l2, ((match c with
                   | ViaStaticToken _ _ t _ => t
                   | ViaAcquire _ _ _ => fst (uuid_NewString (world s))
                   end, err) :: log), s2.
      split; [|split].
      + cbn [acquireAll]. rewrite Hcall, Hrest. reflexivity.
      + simpl. rewrite Hlen. reflexivity.
      + rewrite Hlast. unfold lastAcquired, distrlock.Token. simpl. rewrite Htok.
        destruct err; reflexivity. }
  destruct Hmain as (l' & log & s' & Hrun & Hlen & Hlast).
  exists l', log, s'. split; [exact Hrun|]. split; [exact Hlen|]. split; [exact Hlast|].
  split.
  - intros Hall. rewrite Hlast. apply lastAcquired_all_failed, Hall.
  - intros pre t post -> Hpost. rewrite Hlast. apply lastAcquired_last_success, Hpost.
Qed.

(** C8. [NewLock] on a key that is empty or longer than 40 (in bytes, as
    [len] counts) returns the zero handle with one of the two key errors,
    and the state is untouched: no statement is executed.  On any other key it executes
    [initLock] once, with the key as its only parameter; the handle it
    returns has an empty token, and when the statement succeeded it is the
    handle of the key, with no error. *)
Theorem NewLock_validates_key (m : distrlock.DBManager) (ctx : Context) (ex : Executor W)
    (key : string) (s : St W) :
  (key = EmptyString \/ (40 < String.length key)%nat ->
     exists e, distrlock.NewLock m ctx ex key s = (Val (distrlock.zeroDBLock, Some e), s) /\
               InvalidKey e) /\
  (key <> EmptyString -> (String.length key <= 40)%nat ->
     let r := ExecContext ex ctx (distrlock.initLock (distrlock.queries m)) [key] (world s) in
     exists l err,
       distrlock.NewLock m ctx ex key s
         = (Val (l, err),
            mkSt (snd r) (events s ++ [EvExec ctx (distrlock.initLock (distrlock.queries m)) [key]])) /\
       distrlock.Token l = EmptyString /\
       err = snd (fst r) /\
       (snd (fst r) = None ->
          l = {| distrlock.Key := key; distrlock.TTL := 0; distrlock.token := EmptyString;
                 distrlock.manager := Some m |})).
Proof.
  split.
  - intros Hbad. unfold distrlock.NewLock.
    destruct (String.eqb_spec key EmptyString) as [-> | Hne].
    + eexists. split; [reflexivity | left; reflexivity].
    + destruct Hbad as [-> | Hlong]; [contradiction|].
      assert (Hlt : Z.ltb 40 (Z.of_nat (String.length key)) = true) by (apply Z.ltb_lt; lia).
      rewrite Hlt. eexists. split; [reflexivity | right; reflexivity].
  - intros Hne Hlen. cbv zeta. unfold distrlock.NewLock.
    destruct (String.eqb_spec key EmptyString) as [-> | _]; [contradiction|].
    assert (Hlt : Z.ltb 40 (Z.of_nat (String.length key)) = false) by (apply Z.ltb_ge; lia).
    rewrite Hlt. unfold bind, distrlock.exec. rewrite prim_run.
    destruct (ExecContext ex ctx _ [key] (world s)) as [[res err] w1]; simpl.
    destruct err as [e|]; eexists _, _; (split; [reflexivity|]); repeat split; auto; discriminate.
Qed.

End TokenProps.

(** C9 as the specification words it fails: the handle acquires with token
    [T1], then an acquire with token [T2] affects no row and fails; the
    last acquire has failed, and [Token] is [T1], not the empty string. *)
Lemma Token_after_failed_acquire_not_empty :
  let calls := [ViaStaticToken (Caller 0) (answering (Mock.ok 1)) "T1" second;
                ViaStaticToken (Caller 0) (answering (Mock.ok 0)) "T2" second] in
  exists l' s',
    acquireAll (newHandle "job-A") calls (mkSt (Mock.happy 1) [])
      = (Val (l', [("T1", None); ("T2", Some distrlock.ErrLockAlreadyAcquired)]), s') /\
    distrlock.Token l' = "T1" /\ distrlock.Token l' <> EmptyString.
Proof.
  cbv zeta. eexists _, _. split; [reflexivity|]. split; [reflexivity | discriminate].
Qed.

(** C9, at work, on the same two calls. *)
Lemma Token_is_last_successful_acquire_witness :
  exists l' log s',
    acquireAll (newHandle "job-A")
      [ViaStaticToken (Caller 0) (answering (Mock.ok 1)) "T1" second;
       ViaStaticToken (Caller 0) (answering (Mock.ok 0)) "T2" second]
      (mkSt (Mock.happy 1) []) = (Val (l', log), s') /\
    distrlock.Token l' = lastAcquired log EmptyString.
Proof.
  destruct (Token_is_last_successful_acquire (newHandle "job-A") postgresManager
              [ViaStaticToken (Caller 0) (answering (Mock.ok 1)) "T1" second;
               ViaStaticToken (Caller 0) (answering (Mock.ok 0)) "T2" second]
              (mkSt (Mock.happy 1) []) eq_refl) as (l' & log & s' & Hrun & _ & Hlast & _).
  exists l', log, s'. split; [exact Hrun | exact Hlast].
Defined.

(** C8, at work: a key of 41 bytes is refused and nothing is executed; the
    key [job-A] is accepted. *)
Lemma NewLock_validates_key_witness :
  (exists e,
     distrlock.NewLock postgresManager (Caller 0) Mock.executor
       "12345678901234567890123456789012345678901" (mkSt (Mock.happy 1) [])
     = (Val (distrlock.zeroDBLock, Some e), mkSt (Mock.happy 1) []) /\ InvalidKey e) /\
  (exists l err,
     distrlock.NewLock postgresManager (Caller 0) Mock.executor "job-A" (mkSt (Mock.happy 1) [])
     = (Val (l, err),
        mkSt (Mock.happy 1)
          [EvExec (Caller 0) (distrlock.initLock (distrlock.queries postgresManager)) ["job-A"]]) /\
     distrlock.Token l = EmptyString).
Proof.
  split.
  - apply (proj1 (NewLock_validates_key postgresManager (Caller 0) Mock.executor
                    "12345678901234567890123456789012345678901" (mkSt (Mock.happy 1) []))).
    right. simpl. lia.
  - destruct (proj2 (NewLock_validates_key postgresManager (Caller 0) Mock.executor
                       "job-A" (mkSt (Mock.happy 1) [])))
      as (l & err & Hrun & Htok & _); [discriminate | simpl; lia |].
    exists l, err. split; [exact Hrun | exact Htok].
Defined.

(** ** The lock protocol on the PostgreSQL server *)

Lemma eqb_app_prefix (p a b : string) : String.eqb (p ++ a) (p ++ b) = String.eqb a b.
Proof.
  induction p as [|c p IH]; simpl; [reflexivity|].
  rewrite Ascii.eqb_refl. exact IH.
Qed.

Lemma splitAtSpace_digits (d : uint) (rest : string) :
  Postgres.splitAtSpace (NilEmpty.string_of_uint d ++ String " " rest)
  = (NilEmpty.string_of_uint d, rest).
Proof.
  induction d; simpl; try rewrite IHd; reflexivity.
Qed.

Lemma splitAtSpace_FormatInt (n : Z) (rest : string) :
  Postgres.splitAtSpace (FormatInt n ++ String " " rest) = (FormatInt n, rest).
Proof.
  unfold FormatInt, NilZero.string_of_int, NilZero.string_of_uint.
  destruct (Z.to_int n) as [d | d]; destruct d; simpl;
    try rewrite splitAtSpace_digits; reflexivity.
Qed.

Lemma to_int_not_nil (n : Z) : Z.to_int n <> Pos Nil /\ Z.to_int n <> Neg Nil.
Proof.
  destruct n; simpl; split; try discriminate;
    intros [= Hp]; exact (DecimalPos.Unsigned.to_uint_nonnil _ Hp).
Qed.

(** The server reads back the interval the client formats. *)
Lemma parseInterval_postgresMakeInterval (d : Duration) :
  Postgres.parseInterval (distrlock.postgresMakeInterval d) = Some (Microseconds d).
Proof.
  unfold Postgres.parseInterval, distrlock.postgresMakeInterval.
  change (FormatInt (Microseconds d) ++ " microseconds")
    with (FormatInt (Microseconds d) ++ String " " "microseconds").
  rewrite splitAtSpace_FormatInt. simpl String.eqb. cbv iota.
  unfold FormatInt. destruct (to_int_not_nil (Microseconds d)) as [Hp Hn].
  rewrite (NilZero.isi _ Hp Hn). simpl. rewrite DecimalZ.of_to. reflexivity.
Qed.

Ltac unfold_queries :=
  unfold distrlock.postgresInitLockQuery, distrlock.postgresAcquireLockQuery,
    distrlock.postgresReleaseLockQuery, distrlock.postgresExtendLockQuery, distrlock.dq.

Lemma execContext_initLock (tableName : string) (ctx : Context) (p1 : string) (w : Postgres.Server) :
  Postgres.execContext tableName ctx (Sprintf distrlock.postgresInitLockQuery tableName) [p1] w
  = Postgres.run w (Postgres.initLockStmt p1 (Postgres.lockTable w)).
Proof.
  unfold Postgres.execContext. rewrite String.eqb_refl. reflexivity.
Qed.

Lemma execContext_acquireLock (tableName : string) (ctx : Context) (p1 p2 p3 p4 u2 u4 : string)
    (i : Z) (w : Postgres.Server) :
  Postgres.parseInterval p1 = Some i ->
  Postgres.uuid_in p2 = Some u2 -> Postgres.uuid_in p4 = Some u4 ->
  Postgres.execContext tableName ctx (Sprintf distrlock.postgresAcquireLockQuery tableName)
    [p1; p2; p3; p4] w
  = Postgres.run w (Postgres.acquireLockStmt (Postgres.NOW w) i u2 p3 u4 (Postgres.lockTable w)).
Proof.
  intros Hi H2 H4. unfold Postgres.execContext.
  replace (String.eqb (Sprintf distrlock.postgresAcquireLockQuery tableName)
             (Sprintf distrlock.postgresInitLockQuery tableName)) with false by reflexivity.
  rewrite String.eqb_refl, Hi, H2, H4. reflexivity.
Qed.

Lemma execContext_acquireLock_not_uuid (tableName : string) (ctx : Context) (p1 tk p3 : string)
    (i : Z) (w : Postgres.Server) :
  Postgres.parseInterval p1 = Some i -> Postgres.uuid_in tk = None ->
  Postgres.execContext tableName ctx (Sprintf distrlock.postgresAcquireLockQuery tableName)
    [p1; tk; p3; tk] w
  = Postgres.reject w "invalid input syntax for type uuid".
Proof.
  intros Hi Htk. unfold Postgres.execContext.
  replace (String.eqb (Sprintf distrlock.postgresAcquireLockQuery tableName)
             (Sprintf distrlock.postgresInitLockQuery tableName)) with false by reflexivity.
  rewrite String.eqb_refl, Hi, Htk. reflexivity.
Qed.

Lemma execContext_release_query (tableName : string) (ctx : Context) (args : list string)
    (w : Postgres.Server) :
  Postgres.execContext tableName ctx (Sprintf distrlock.postgresReleaseLockQuery tableName) args w
  = match args with
    | [p1; p2] =>
        match Postgres.uuid_in p2 with
        | Some u2 => Postgres.run w (Postgres.releaseLockStmt (Postgres.NOW w) p1 u2
                                       (Postgres.lockTable w))
        | None => Postgres.reject w "invalid input syntax for type uuid"
        end
    | _ => Postgres.reject w "wrong number of parameters"
    end.
Proof.
  unfold Postgres.execContext.
  replace (String.eqb (Sprintf distrlock.postgresReleaseLockQuery tableName)
             (Sprintf distrlock.postgresInitLockQuery tableName)) with false by reflexivity.
  replace (String.eqb (Sprintf distrlock.postgresReleaseLockQuery tableName)
             (Sprintf distrlock.postgresAcquireLockQuery tableName)) with false
    by (unfold_queries; simpl; rewrite eqb_app_prefix; reflexivity).
  rewrite String.eqb_refl. reflexivity.
Qed.

Lemma execContext_releaseLock (tableName : string) (ctx : Context) (p1 p2 u2 : string)
    (w : Postgres.Server) :
  Postgres.uuid_in p2 = Some u2 ->
  Postgres.execContext tableName ctx (Sprintf distrlock.postgresReleaseLockQuery tableName)
    [p1; p2] w
  = Postgres.run w (Postgres.releaseLockStmt (Postgres.NOW w) p1 u2 (Postgres.lockTable w)).
Proof. intros H2. rewrite execContext_release_query, H2. reflexivity. Qed.

Lemma execContext_releaseLock_not_uuid (tableName : string) (ctx : Context) (p1 p2 : string)
    (w : Postgres.Server) :
  Postgres.uuid_in p2 = None ->
  Postgres.execContext tableName ctx (Sprintf distrlock.postgresReleaseLockQuery tableName)
    [p1; p2] w
  = Postgres.reject w "invalid input syntax for type uuid".
Proof. intros H2. rewrite execContext_release_query, H2. reflexivity. Qed.

Lemma execContext_extend_query (tableName : string) (ctx : Context) (args : list string)
    (w : Postgres.Server) :
  Postgres.execContext tableName ctx (Sprintf distrlock.postgresExtendLockQuery tableName) args w
  = match args with
    | [p1; p2; p3] =>
        match Postgres.parseInterval p1 with
        | Some i =>
            match Postgres.uuid_in p3 with
            | Some u3 => Postgres.run w (Postgres.extendLockStmt (Postgres.NOW w) i p2 u3
                                           (Postgres.lockTable w))
            | None => Postgres.reject w "invalid input syntax for type uuid"
            end
        | None => Postgres.reject w "invalid input syntax for type interval"
        end
    | _ => Postgres.reject w "wrong number of parameters"
    end.
Proof.
  unfold Postgres.execContext.
  replace (String.eqb (Sprintf distrlock.postgresExtendLockQuery tableName)
             (Sprintf distrlock.postgresInitLockQuery tableName)) with false by reflexivity.
  replace (String.eqb (Sprintf distrlock.postgresExtendLockQuery tableName)
             (Sprintf distrlock.postgresAcquireLockQuery tableName)) with false
    by (unfold_queries; simpl; rewrite eqb_app_prefix; reflexivity).
  replace (String.eqb (Sprintf distrlock.postgresExtendLockQuery tableName)
             (Sprintf distrlock.postgresReleaseLockQuery tableName)) with false
    by (unfold_queries; simpl; rewrite eqb_app_prefix; reflexivity).
  rewrite String.eqb_refl. reflexivity.
Qed.

Lemma execContext_extendLock (tableName : string) (ctx : Context) (p1 p2 p3 u3 : string) (i : Z)
    (w : Postgres.Server) :
  Postgres.parseInterval p1 = Some i -> Postgres.uuid_in p3 = Some u3 ->
  Postgres.execContext tableName ctx (Sprintf distrlock.postgresExtendLockQuery tableName)
    [p1; p2; p3] w
  = Postgres.run w (Postgres.extendLockStmt (Postgres.NOW w) i p2 u3 (Postgres.lockTable w)).
Proof. intros Hi H3. rewrite execContext_extend_query, Hi, H3. reflexivity. Qed.

Lemma execContext_extendLock_not_uuid (tableName : string) (ctx : Context) (p1 p2 p3 : string)
    (i : Z) (w : Postgres.Server) :
  Postgres.parseInterval p1 = Some i -> Postgres.uuid_in p3 = None ->
  Postgres.execContext tableName ctx (Sprintf distrlock.postgresExtendLockQuery tableName)
    [p1; p2; p3] w
  = Postgres.reject w "invalid input syntax for type uuid".
Proof. intros Hi H3. rewrite execContext_extend_query, Hi, H3. reflexivity. Qed.

Section Rows.
Implicit Types (t : gmap string Postgres.LockRow) (r : Postgres.LockRow).

(** An UPDATE on one key either rewrites the row of that key, which passed
    the condition, and affects one row, or changes nothing and affects
    none. *)
Lemma update_where_cases (key : string) (cond : Postgres.LockRow -> Postgres.bool3)
    (set : Postgres.LockRow -> Postgres.LockRow) t :
  (exists r, t !! key = Some r /\ cond r = Postgres.True3 /\
             Postgres.update_where key cond set t = (<[key := set r]> t, 1)) \/
  ((forall r, t !! key = Some r -> cond r <> Postgres.True3) /\
   Postgres.update_where key cond set t = (t, 0)).
Proof.
  unfold Postgres.update_where. destruct (t !! key) as [r|] eqn:Hr.
  - destruct (cond r) eqn:Hc; simpl.
    + left. exists r. auto.
    + right. split; [intros r' [= <-]; congruence | reflexivity].
    + right. split; [intros r' [= <-]; congruence | reflexivity].
  - right. split; [intros r' [=] | reflexivity].
Qed.

Lemma acquire_cond_true r (now : Z) (p4 : string) :
  Postgres.or3 (Postgres.or3 (Postgres.is_null (Postgres.expire_at r))
                  (Postgres.lt3 (Postgres.expire_at r) now))
    (Postgres.eq3 (Postgres.tok r) p4) = Postgres.True3 <->
  Postgres.expire_at r = None \/
  (exists e, Postgres.expire_at r = Some e /\ e < now) \/
  Postgres.tok r = Some p4.
Proof.
  destruct r as [tk ex]; simpl.
  destruct ex as [e|]; simpl.
  - destruct (Z.ltb_spec e now) as [Hlt | Hge]; simpl.
    + split; [intros _; right; left; eauto|].
      intros _. destruct tk as [a|]; simpl; [destruct (String.eqb a p4)|]; reflexivity.
    + destruct tk as [a|]; simpl.
      * destruct (String.eqb_spec a p4) as [-> | Hne]; simpl.
        -- split; auto.
        -- split; [discriminate|].
           intros [Hn | [(e' & [= <-] & Hlt) | [= Heq]]]; [discriminate | lia | contradiction].
      * split; [discriminate|].
        intros [Hn | [(e' & [= <-] & Hlt) | Hn]]; [discriminate | lia | discriminate].
  - split; auto.
Qed.

Lemma fenced_cond_true r (now : Z) (p : string) :
  Postgres.and3 (Postgres.eq3 (Postgres.tok r) p) (Postgres.ge3 (Postgres.expire_at r) now)
    = Postgres.True3 <->
  Postgres.tok r = Some p /\ exists e, Postgres.expire_at r = Some e /\ now <= e.
Proof.
  destruct r as [tk ex]; simpl.
  destruct tk as [a|]; simpl.
  - destruct (String.eqb_spec a p) as [-> | Hne]; simpl.
    + destruct ex as [e|]; simpl.
      * destruct (Z.leb_spec now e); simpl.
        -- split; eauto.
        -- split; [discriminate|]. intros (_ & e' & [= <-] & Hle). lia.
      * split; [discriminate|]. intros (_ & e' & [=] & _).
    + split.
      * destruct ex as [e|]; simpl; [destruct (Z.leb now e)|]; discriminate.
      * intros ([= Heq] & _). contradiction.
  - split.
    + destruct ex as [e|]; simpl; [destruct (Z.leb now e)|]; discriminate.
    + intros ([=] & _).
Qed.

Lemma tokened_insert t (key : string) r :
  tokened t -> (Postgres.expire_at r <> None -> Postgres.tok r <> None) ->
  tokened (<[key := r]> t).
Proof.
  intros Ht Hr k r' Hk. apply lookup_insert_Some in Hk as [[-> <-] | [_ Hk]].
  - exact Hr.
  - exact (Ht k r' Hk).
Qed.

Lemma tokened_apply t (now : Z) (op : Postgres.Op) : tokened t -> tokened (Postgres.apply now op t).
Proof.
  intros Ht. destruct op as [k | i tk k | k tk | i k tk]; simpl.
  - unfold Postgres.initLockStmt. destruct (t !! k); simpl; [exact Ht|].
    apply tokened_insert; [exact Ht | simpl; congruence].
  - unfold Postgres.acquireLockStmt.
    destruct (update_where_cases k
                (fun r => Postgres.or3 (Postgres.or3 (Postgres.is_null (Postgres.expire_at r))
                                          (Postgres.lt3 (Postgres.expire_at r) now))
                            (Postgres.eq3 (Postgres.tok r) tk))
                (fun r => {| Postgres.tok := Some tk; Postgres.expire_at := Some (now + i) |}) t)
      as [(r & _ & _ & ->) | (_ & ->)]; simpl; [|exact Ht].
    apply tokened_insert; [exact Ht | simpl; congruence].
  - unfold Postgres.releaseLockStmt.
    destruct (update_where_cases k
                (fun r => Postgres.and3 (Postgres.eq3 (Postgres.tok r) tk)
                            (Postgres.ge3 (Postgres.expire_at r) now))
                (fun r => {| Postgres.tok := Postgres.tok r; Postgres.expire_at := None |}) t)
      as [(r & _ & _ & ->) | (_ & ->)]; simpl; [|exact Ht].
    apply tokened_insert; [exact Ht | simpl; congruence].
  - unfold Postgres.extendLockStmt.
    destruct (update_where_cases k
                (fun r => Postgres.and3 (Postgres.eq3 (Postgres.tok r) tk)
                            (Postgres.ge3 (Postgres.expire_at r) now))
                (fun r => {| Postgres.tok := Postgres.tok r;
                             Postgres.expire_at := Some (now + i) |}) t)
      as [(r & _ & Hc & ->) | (_ & ->)]; simpl; [|exact Ht].
    apply tokened_insert; [exact Ht|]. simpl. intros _.
    apply fenced_cond_true in Hc as [Hc _]. congruence.
Qed.

Lemma tokened_replay (h : list (Z * Postgres.Op)) t : tokened t -> tokened (Postgres.replay h t).
Proof.
  revert t. induction h as [|[now op] h IH]; intros t Ht; simpl; [exact Ht|].
  apply IH, tokened_apply, Ht.
Qed.

Lemma tokened_empty : tokened ∅.
Proof. intros key r Hk. rewrite lookup_empty in Hk. discriminate. Qed.

(** A token other than the holder's changes nothing while the key is held. *)
Lemma held_not_displaced t (key : string) (now i : Z) (holder tk : string) :
  Postgres.held t key now holder -> tk <> holder ->
  Postgres.acquireLockStmt now i tk key tk t = (t, 0) /\
  Postgres.releaseLockStmt now key tk t = (t, 0) /\
  Postgres.extendLockStmt now i key tk t = (t, 0).
Proof.
  intros (r & e & Hr & He & Hle & Htk) Hne.
  unfold Postgres.acquireLockStmt, Postgres.releaseLockStmt, Postgres.extendLockStmt.
  split; [|split].
  - match goal with |- Postgres.update_where ?k ?c ?f t = _ =>
      destruct (update_where_cases k c f t) as [(r' & Hr' & Hc & _) | (_ & ->)]; [|reflexivity]
    end.
    rewrite Hr in Hr'. injection Hr' as <-.
    apply acquire_cond_true in Hc as [Hn | [(e' & He' & Hlt) | Ht]]; [congruence | | congruence].
    rewrite He in He'. injection He' as <-. lia.
  - match goal with |- Postgres.update_where ?k ?c ?f t = _ =>
      destruct (update_where_cases k c f t) as [(r' & Hr' & Hc & _) | (_ & ->)]; [|reflexivity]
    end.
    rewrite Hr in Hr'. injection Hr' as <-.
    apply fenced_cond_true in Hc as [Ht _]. congruence.
  - match goal with |- Postgres.update_where ?k ?c ?f t = _ =>
      destruct (update_where_cases k c f t) as [(r' & Hr' & Hc & _) | (_ & ->)]; [|reflexivity]
    end.
    rewrite Hr in Hr'. injection Hr' as <-.
    apply fenced_cond_true in Hc as [Ht _]. congruence.
Qed.

End Rows.

Lemma acquire_affects_iff (t : gmap string Postgres.LockRow) (key : string) (now i : Z) (tk : string) :
  (Postgres.free t key now \/ Postgres.carries t key tk ->
     Postgres.acquireLockStmt now i tk key tk t
     = (<[key := {| Postgres.tok := Some tk; Postgres.expire_at := Some (now + i) |}]> t, 1)) /\
  (~ (Postgres.free t key now \/ Postgres.carries t key tk) ->
     Postgres.acquireLockStmt now i tk key tk t = (t, 0)).
Proof.
  unfold Postgres.acquireLockStmt.
  match goal with |- context [Postgres.update_where ?k ?c ?f t] =>
    destruct (update_where_cases k c f t) as [(r & Hr & Hc & ->) | (Hno & ->)]
  end.
  - split; [reflexivity|]. intros Hnot. exfalso. apply Hnot.
    apply acquire_cond_true in Hc as [Hn | [(e & He & Hlt) | Ht]].
    + left. exists r. auto.
    + left. exists r. split; [exact Hr|]. right. eauto.
    + right. exists r. auto.
  - split; [|reflexivity]. intros Hfc. exfalso.
    destruct Hfc as [(r & Hr & Hfree) | (r & Hr & Ht)];
      apply (Hno r Hr), acquire_cond_true; tauto.
Qed.

(** C1. With acquire, release and extend read as atomic updates of the row
    of a key: (1) in any table, at any instant, at most one token holds a
    key; (2) in every table the protocol reaches from the empty one, a row
    whose expiry is set and not passed is held by exactly one token;
    (3) an acquire affects one row, and then writes its token and the new
    expiry, exactly when the row is free or carries the same token, and
    otherwise changes nothing and affects no row; (4) while a token holds
    the key, an acquire, release or extend with any other token at that
    instant changes nothing and affects no row. *)
Theorem mutual_exclusion :
  (forall (t : gmap string Postgres.LockRow) key now t1 t2,
     Postgres.held t key now t1 -> Postgres.held t key now t2 -> t1 = t2) /\
  (forall (h : list (Z * Postgres.Op)) key now r e,
     Postgres.replay h ∅ !! key = Some r -> Postgres.expire_at r = Some e -> now <= e ->
     exists tk, Postgres.held (Postgres.replay h ∅) key now tk /\
                forall tk', Postgres.held (Postgres.replay h ∅) key now tk' -> tk' = tk) /\
  (forall (t : gmap string Postgres.LockRow) key now i tk,
     (Postgres.free t key now \/ Postgres.carries t key tk ->
        Postgres.acquireLockStmt now i tk key tk t
        = (<[key := {| Postgres.tok := Some tk; Postgres.expire_at := Some (now + i) |}]> t, 1)) /\
     (~ (Postgres.free t key now \/ Postgres.carries t key tk) ->
        Postgres.acquireLockStmt now i tk key tk t = (t, 0))) /\
  (forall (t : gmap string Postgres.LockRow) key now i holder tk,
     Postgres.held t key now holder -> tk <> holder ->
     Postgres.acquireLockStmt now i tk key tk t = (t, 0) /\
     Postgres.releaseLockStmt now key tk t = (t, 0) /\
     Postgres.extendLockStmt now i key tk t = (t, 0)).
Proof.
  assert (Huniq : forall (t : gmap string Postgres.LockRow) key now t1 t2,
             Postgres.held t key now t1 -> Postgres.held t key now t2 -> t1 = t2).
  { intros t key now t1 t2 (r1 & e1 & Hr1 & _ & _ & Ht1) (r2 & e2 & Hr2 & _ & _ & Ht2).
    rewrite Hr1 in Hr2. injection Hr2 as <-. congruence. }
  split; [exact Huniq|]. split; [|split].
  - intros h key now r e Hr He Hle.
    destruct (Postgres.tok r) as [tk|] eqn:Htk.
    + exists tk. split; [exists r, e; auto|].
      intros tk' Hheld. apply (Huniq (Postgres.replay h ∅) key now); [exact Hheld | exists r, e; auto].
    + exfalso. apply (tokened_replay h ∅ tokened_empty key r Hr); congruence.
  - intros t key now i tk. apply acquire_affects_iff.
  - intros t key now i holder tk. apply held_not_displaced.
Qed.

(** Scenario: at instant 7 token [B] can neither acquire, release nor
    extend the key [A] holds until instant 15; at instant 16 [B] acquires. *)
Example heldByA_row :
  heldByA !! "job-A" = Some {| Postgres.tok := Some "A"; Postgres.expire_at := Some 15 |}.
Proof. reflexivity. Qed.

Lemma mutual_exclusion_witness :
  Postgres.acquireLockStmt 7 10 "B" "job-A" "B" heldByA = (heldByA, 0) /\
  Postgres.releaseLockStmt 7 "job-A" "B" heldByA = (heldByA, 0) /\
  Postgres.extendLockStmt 7 10 "job-A" "B" heldByA = (heldByA, 0).
Proof.
  apply (proj2 (proj2 (proj2 mutual_exclusion))) with (holder := "A"); [|discriminate].
  exists {| Postgres.tok := Some "A"; Postgres.expire_at := Some 15 |}, 15.
  split; [reflexivity | split; [reflexivity | split; [lia | reflexivity]]].
Defined.

Example B_acquires_after_expiry :
  snd (Postgres.acquireLockStmt 16 10 "B" "job-A" "B" heldByA) = 1 /\
  fst (Postgres.acquireLockStmt 16 10 "B" "job-A" "B" heldByA) !! "job-A"
  = Some {| Postgres.tok := Some "B"; Postgres.expire_at := Some 26 |}.
Proof. split; reflexivity. Qed.

(** ** The lock handle against the PostgreSQL server *)

Lemma server_ctx_Err_withTable (ctx : Context) (w : Postgres.Server)
    (t : gmap string Postgres.LockRow) :
  ctx_Err ctx (Postgres.withTable w t) = ctx_Err ctx w.
Proof. reflexivity. Qed.

Lemma server_ctx_Err_atTime (ctx : Context) (w : Postgres.Server) (now : Z) :
  ctx_Err ctx (Postgres.atTime w now) = ctx_Err ctx w.
Proof. reflexivity. Qed.

(** Both PostgreSQL dialects get the PostgreSQL statements. *)
Lemma postgres_manager_queries (dialect : dbkit.Dialect) (tableName : string)
    (m : distrlock.DBManager) :
  dialect = dbkit.DialectPostgres \/ dialect = dbkit.DialectPgx ->
  distrlock.NewDBManagerWithOpts dialect {| distrlock.TableName := tableName |} = inl m ->
  distrlock.acquireLock (distrlock.queries m) = Sprintf distrlock.postgresAcquireLockQuery tableName /\
  distrlock.initLock (distrlock.queries m) = Sprintf distrlock.postgresInitLockQuery tableName /\
  distrlock.releaseLock (distrlock.queries m) = Sprintf distrlock.postgresReleaseLockQuery tableName /\
  distrlock.extendLock (distrlock.queries m) = Sprintf distrlock.postgresExtendLockQuery tableName /\
  distrlock.intervalMaker (distrlock.queries m) = distrlock.postgresMakeInterval.
Proof.
  intros [-> | ->] Hmgr; unfold distrlock.NewDBManagerWithOpts in Hmgr; simpl in Hmgr;
    injection Hmgr as <-; repeat split.
Qed.

(** [AcquireWithStaticToken] through a connection to the server, with a
    manager made for PostgreSQL and the same table, under a live context
    and with a token the server reads as the uuid [u]: the acquire
    statement runs at the server's instant with the TTL in microseconds,
    and the call succeeds exactly when it affects one row.  The handle
    keeps the token as it was given. *)
Lemma AcquireWithStaticToken_on_server (dialect : dbkit.Dialect) (tableName : string)
    (m : distrlock.DBManager) (l : distrlock.DBLock) (ctx : Context) (tk u : string)
    (ttl : Duration) (w : Postgres.Server) (ev : list Event) :
  dialect = dbkit.DialectPostgres \/ dialect = dbkit.DialectPgx ->
  distrlock.NewDBManagerWithOpts dialect {| distrlock.TableName := tableName |} = inl m ->
  distrlock.manager l = Some m ->
  ctx_Err ctx w = None ->
  Postgres.uuid_in tk = Some u ->
  let r := Postgres.acquireLockStmt (Postgres.NOW w) (Microseconds ttl) u (distrlock.Key l) u
             (Postgres.lockTable w) in
  distrlock.AcquireWithStaticToken l ctx (Postgres.connection tableName) tk ttl (mkSt w ev)
  = (Val (if Z.eqb (snd r) 1
          then ({| distrlock.Key := distrlock.Key l; distrlock.TTL := ttl;
                   distrlock.token := tk; distrlock.manager := distrlock.manager l |}, None)
          else (l, Some distrlock.ErrLockAlreadyAcquired)),
     mkSt (Postgres.withTable w (fst r))
       (ev ++ [EvExec ctx (distrlock.acquireLock (distrlock.queries m))
                 [distrlock.postgresMakeInterval ttl; tk; distrlock.Key l; tk]])).
Proof.
  intros Hd Hmgr Hm Hctx Hu. cbv zeta.
  rewrite (AcquireWithStaticToken_run l m) by exact Hm. cbv zeta.
  destruct (postgres_manager_queries dialect tableName m Hd Hmgr) as (Hq & _ & _ & _ & Hi).
  rewrite Hq, Hi. cbn [world events Postgres.connection ExecContext].
  rewrite (execContext_acquireLock tableName ctx _ tk (distrlock.Key l) tk u u (Microseconds ttl))
    by (apply parseInterval_postgresMakeInterval || exact Hu).
  unfold Postgres.run. cbn [fst snd Postgres.rows RowsAffected].
  rewrite server_ctx_Err_withTable, Hctx. unfold verdict.
  destruct (Z.eqb _ 1); reflexivity.
Qed.

(** With a token that is not the text of a uuid the server rejects the
    statement: the call returns the error of the driver and nothing
    changes. *)
Lemma AcquireWithStaticToken_not_uuid (dialect : dbkit.Dialect) (tableName : string)
    (m : distrlock.DBManager) (l : distrlock.DBLock) (ctx : Context) (tk : string)
    (ttl : Duration) (w : Postgres.Server) (ev : list Event) :
  dialect = dbkit.DialectPostgres \/ dialect = dbkit.DialectPgx ->
  distrlock.NewDBManagerWithOpts dialect {| distrlock.TableName := tableName |} = inl m ->
  distrlock.manager l = Some m ->
  Postgres.uuid_in tk = None ->
  distrlock.AcquireWithStaticToken l ctx (Postgres.connection tableName) tk ttl (mkSt w ev)
  = (Val (l, Some (errors_New "invalid input syntax for type uuid")),
     mkSt w (ev ++ [EvExec ctx (distrlock.acquireLock (distrlock.queries m))
                      [distrlock.postgresMakeInterval ttl; tk; distrlock.Key l; tk]])).
Proof.
  intros Hd Hmgr Hm Hu.
  rewrite (AcquireWithStaticToken_run l m) by exact Hm. cbv zeta.
  destruct (postgres_manager_queries dialect tableName m Hd Hmgr) as (Hq & _ & _ & _ & Hi).
  rewrite Hq, Hi. cbn [world events Postgres.connection ExecContext].
  rewrite (execContext_acquireLock_not_uuid tableName ctx _ tk (distrlock.Key l)
             (Microseconds ttl))
    by (apply parseInterval_postgresMakeInterval || exact Hu).
  reflexivity.
Qed.

(** [NewLock] through a connection to the server: a key that passes the
    check gets its row if it has none, with no token and no expiry, and a
    row that is there stays as it is. *)
Lemma NewLock_on_server (dialect : dbkit.Dialect) (tableName key : string)
    (m : distrlock.DBManager) (ctx : Context) (w : Postgres.Server) (ev : list Event) :
  dialect = dbkit.DialectPostgres \/ dialect = dbkit.DialectPgx ->
  distrlock.NewDBManagerWithOpts dialect {| distrlock.TableName := tableName |} = inl m ->
  key <> EmptyString -> (String.length key <= 40)%nat ->
  distrlock.NewLock m ctx (Postgres.connection tableName) key (mkSt w ev)
  = (Val ({| distrlock.Key := key; distrlock.TTL := 0; distrlock.token := EmptyString;
             distrlock.manager := Some m |}, None),
     mkSt (Postgres.withTable w
             (match Postgres.lockTable w !! key with
              | Some _ => Postgres.lockTable w
              | None => <[key := {| Postgres.tok := None; Postgres.expire_at := None |}]>
                          (Postgres.lockTable w)
              end))
       (ev ++ [EvExec ctx (distrlock.initLock (distrlock.queries m)) [key]])).
Proof.
  intros Hd Hmgr Hne Hlen. unfold distrlock.NewLock.
  destruct (String.eqb_spec key EmptyString) as [-> | _]; [contradiction|].
  replace (Z.ltb 40 (Z.of_nat (String.length key))) with false
    by (symmetry; apply Z.ltb_ge; lia).
  destruct (postgres_manager_queries dialect tableName m Hd Hmgr) as (_ & Hq & _).
  rewrite Hq.
  rewrite bind_run. unfold distrlock.exec. rewrite prim_run.
  cbn [world events Postgres.connection ExecContext].
  rewrite execContext_initLock. unfold Postgres.run, Postgres.initLockStmt.
  destruct (Postgres.lockTable w !! key); reflexivity.
Qed.

(** The input function of [uuid] on some texts: the form [uuid.NewString]
    makes is read as itself, other spellings of it are read as the same
    value, and the empty text and a text that is no uuid are refused. *)
Example uuid_in_spellings :
  Postgres.uuid_in uuid0 = Some uuid0 /\
  Postgres.uuid_in uuid0Upper = Some uuid0 /\
  Postgres.uuid_in "{6ba7b8109dad11d180b400c04fd430c8}" = Some uuid0 /\
  Postgres.uuid_in "6ba7-b810-9dad-11d1-80b4-00c0-4fd4-30c8" = Some uuid0 /\
  Postgres.uuid_in uuid1 = Some uuid1 /\
  Postgres.uuid_in EmptyString = None /\
  Postgres.uuid_in "T" = None /\
  Postgres.uuid_in "6ba7b810-9dad-11d1-80b4-00c04fd430c" = None /\
  Postgres.uuid_in "6ba7b810-9dad-11d1-80b4-00c04fd430c8 " = None.
Proof. vm_compute. repeat split. Qed.

(** C5, as the code has it on PostgreSQL, where the column [token] is of
    type [uuid].  A manager for PostgreSQL (either dialect), any handles
    of one key, a live context, the row of the key free on the server.
    An acquire with a static token that is the text of the uuid [u]
    succeeds; a second acquire with a text of the same uuid (the same
    text in particular), at any later instant, succeeds too; and a third
    acquire with the text of another uuid, at an instant not past the
    expiry the second one set, nothing having released the lock in
    between, returns [ErrLockAlreadyAcquired] and leaves the table as it
    was, [u] holding the key.  An acquire with a token that is not the
    text of a uuid returns the error of the driver and changes nothing. *)
Theorem static_token_reacquire (dialect : dbkit.Dialect) (tableName key T T2 T' u u' : string)
    (m : distrlock.DBManager) (l1 l2 l3 : distrlock.DBLock) (ctx : Context)
    (ttl1 ttl2 ttl3 : Duration) (w0 : Postgres.Server) (now2 now3 : Z)
    (Hd : dialect = dbkit.DialectPostgres \/ dialect = dbkit.DialectPgx)
    (Hmgr : distrlock.NewDBManagerWithOpts dialect
              {| distrlock.TableName := tableName |} = inl m)
    (H1 : distrlock.manager l1 = Some m /\ distrlock.Key l1 = key)
    (H2 : distrlock.manager l2 = Some m /\ distrlock.Key l2 = key)
    (H3 : distrlock.manager l3 = Some m /\ distrlock.Key l3 = key)
    (Hctx : ctx_Err ctx w0 = None)
    (Hfree : Postgres.free (Postgres.lockTable w0) key (Postgres.NOW w0))
    (HT : Postgres.uuid_in T = Some u)
    (HT2 : Postgres.uuid_in T2 = Some u)
    (HT' : Postgres.uuid_in T' = Some u')
    (Hdiff : u' <> u)
    (Hlive : now3 <= now2 + Microseconds ttl2) :
  let conn := Postgres.connection tableName in
  let a1 := distrlock.AcquireWithStaticToken l1 ctx conn T ttl1 (mkSt w0 []) in
  let a2 := distrlock.AcquireWithStaticToken l2 ctx conn T2 ttl2
              (mkSt (Postgres.atTime (world (snd a1)) now2) (events (snd a1))) in
  let a3 := distrlock.AcquireWithStaticToken l3 ctx conn T' ttl3
              (mkSt (Postgres.atTime (world (snd a2)) now3) (events (snd a2))) in
  (exists l1', fst a1 = Val (l1', None) /\ distrlock.Token l1' = T) /\
  (exists l2', fst a2 = Val (l2', None) /\ distrlock.Token l2' = T2) /\
  fst a3 = Val (l3, Some distrlock.ErrLockAlreadyAcquired) /\
  Postgres.lockTable (world (snd a3)) = Postgres.lockTable (world (snd a2)) /\
  Postgres.held (Postgres.lockTable (world (snd a3))) key now3 u /\
  (forall bad, Postgres.uuid_in bad = None ->
     let a := distrlock.AcquireWithStaticToken l1 ctx conn bad ttl1 (mkSt w0 []) in
     fst a = Val (l1, Some (errors_New "invalid input syntax for type uuid")) /\
     world (snd a) = w0).
Proof.
  destruct H1 as [Hm1 Hk1], H2 as [Hm2 Hk2], H3 as [Hm3 Hk3]. cbv zeta.
  assert (Hbad : forall bad, Postgres.uuid_in bad = None ->
            fst (distrlock.AcquireWithStaticToken l1 ctx (Postgres.connection tableName) bad ttl1
                   (mkSt w0 []))
            = Val (l1, Some (errors_New "invalid input syntax for type uuid")) /\
            world (snd (distrlock.AcquireWithStaticToken l1 ctx (Postgres.connection tableName)
                          bad ttl1 (mkSt w0 []))) = w0).
  { intros bad Hb.
    rewrite (AcquireWithStaticToken_not_uuid dialect tableName m l1 ctx bad ttl1 w0 [])
      by assumption.
    split; reflexivity. }
  (* first acquire: the row is free *)
  rewrite (AcquireWithStaticToken_on_server dialect tableName m l1 ctx T u ttl1 w0 [])
    by assumption.
  cbv zeta. rewrite Hk1.
  rewrite (proj1 (acquire_affects_iff (Postgres.lockTable w0) key (Postgres.NOW w0)
                    (Microseconds ttl1) u)) by (left; exact Hfree).
  cbn [fst snd world events Z.eqb Pos.eqb].
  set (t1 := <[key := {| Postgres.tok := Some u;
                         Postgres.expire_at := Some (Postgres.NOW w0 + Microseconds ttl1) |}]>
               (Postgres.lockTable w0)).
  (* second acquire: the row carries the same uuid *)
  rewrite (AcquireWithStaticToken_on_server dialect tableName m l2 ctx T2 u ttl2) by assumption.
  cbv zeta. rewrite Hk2.
  cbn [Postgres.atTime Postgres.withTable Postgres.lockTable Postgres.NOW].
  rewrite (proj1 (acquire_affects_iff t1 key now2 (Microseconds ttl2) u)).
  2:{ right. eexists. split; [apply lookup_insert_eq | reflexivity]. }
  cbn [fst snd world events Z.eqb Pos.eqb].
  set (t2 := <[key := {| Postgres.tok := Some u;
                         Postgres.expire_at := Some (now2 + Microseconds ttl2) |}]> t1).
  assert (Hheld : Postgres.held t2 key now3 u).
  { eexists _, _. split; [apply lookup_insert_eq|]. split; [reflexivity|]. split; [exact Hlive | reflexivity]. }
  (* third acquire: another uuid, the key held *)
  rewrite (AcquireWithStaticToken_on_server dialect tableName m l3 ctx T' u' ttl3) by assumption.
  cbv zeta. rewrite Hk3.
  cbn [Postgres.atTime Postgres.withTable Postgres.lockTable Postgres.NOW].
  rewrite (proj1 (held_not_displaced t2 key now3 (Microseconds ttl3) u u' Hheld Hdiff)).
  cbn [fst snd world events Z.eqb Postgres.withTable Postgres.lockTable].
  split; [eexists; split; reflexivity|].
  split; [eexists; split; reflexivity|].
  split; [reflexivity|]. split; [reflexivity|]. split; [exact Hheld | exact Hbad].
Qed.

(** C5, at work: two handles acquire with the same uuid for ten minutes,
    one at instant 0 and one a second later, the second spelling it in
    upper case; an acquire with another uuid nine minutes later fails. *)
Lemma static_token_reacquire_witness :
  let conn := Postgres.connection distrlock.defaultTableName in
  let a1 := distrlock.AcquireWithStaticToken (newHandle "job-A") (Caller 0) conn uuid0
              (10 * minute) (mkSt server0 []) in
  let a2 := distrlock.AcquireWithStaticToken (newHandle "job-A") (Caller 0) conn uuid0Upper
              (10 * minute) (mkSt (Postgres.atTime (world (snd a1)) 1000000) (events (snd a1))) in
  let a3 := distrlock.AcquireWithStaticToken (newHandle "job-A") (Caller 0) conn uuid1
              (10 * minute) (mkSt (Postgres.atTime (world (snd a2)) 540000000) (events (snd a2))) in
  (exists l1', fst a1 = Val (l1', None) /\ distrlock.Token l1' = uuid0) /\
  (exists l2', fst a2 = Val (l2', None) /\ distrlock.Token l2' = uuid0Upper) /\
  fst a3 = Val (newHandle "job-A", Some distrlock.ErrLockAlreadyAcquired) /\
  Postgres.lockTable (world (snd a3)) = Postgres.lockTable (world (snd a2)) /\
  Postgres.held (Postgres.lockTable (world (snd a3))) "job-A" 540000000 uuid0.
Proof.
  pose proof (static_token_reacquire dbkit.DialectPostgres distrlock.defaultTableName
                "job-A" uuid0 uuid0Upper uuid1 uuid0 uuid1 postgresManager
                (newHandle "job-A") (newHandle "job-A") (newHandle "job-A") (Caller 0)
                (10 * minute) (10 * minute) (10 * minute) server0 1000000 540000000) as Hthm.
  cbv zeta in Hthm.
  destruct Hthm as (Ha1 & Ha2 & Ha3 & Htab & Hheld & _).
  - left. reflexivity.
  - reflexivity.
  - split; reflexivity.
  - split; reflexivity.
  - split; reflexivity.
  - reflexivity.
  - exists freeRow. split; [reflexivity | left; reflexivity].
  - vm_compute. reflexivity.
  - vm_compute. reflexivity.
  - vm_compute. reflexivity.
  - discriminate.
  - vm_compute. discriminate.
  - cbv zeta. split; [exact Ha1|]. split; [exact Ha2|]. split; [exact Ha3|].
    split; [exact Htab | exact Hheld].
Defined.

(** The claim does not hold of every token.  On PostgreSQL the text [T],
    which is no uuid, is refused by the server: the first acquire returns
    the error of the driver, not success.  And a token that differs from
    the holder's as a text but is another spelling of the same uuid is the
    same token for the server: the acquire succeeds, where the claim has
    [ErrLockAlreadyAcquired]. *)
Lemma static_token_need_not_be_any_text :
  let conn := Postgres.connection distrlock.defaultTableName in
  let a := distrlock.AcquireWithStaticToken (newHandle "job-A") (Caller 0) conn "T"
             (10 * minute) (mkSt server0 []) in
  let a1 := distrlock.AcquireWithStaticToken (newHandle "job-A") (Caller 0) conn uuid0
              (10 * minute) (mkSt server0 []) in
  let a3 := distrlock.AcquireWithStaticToken (newHandle "job-A") (Caller 0) conn uuid0Upper
              (10 * minute) (mkSt (Postgres.atTime (world (snd a1)) 540000000) (events (snd a1))) in
  Postgres.free (Postgres.lockTable server0) "job-A" (Postgres.NOW server0) /\
  fst a = Val (newHandle "job-A", Some (errors_New "invalid input syntax for type uuid")) /\
  ~ (exists l, fst a = Val (l, None)) /\
  (exists l1, fst a1 = Val (l1, None)) /\
  uuid0Upper <> uuid0 /\
  (exists l3, fst a3 = Val (l3, None)) /\
  fst a3 <> Val (newHandle "job-A", Some distrlock.ErrLockAlreadyAcquired).
Proof.
  cbv zeta. split; [exists freeRow; split; [reflexivity | left; reflexivity]|].
  split; [vm_compute; reflexivity|].
  split; [intros [l Hl]; vm_compute in Hl; discriminate Hl|].
  split; [vm_compute; eexists; reflexivity|].
  split; [discriminate|].
  split; [vm_compute; eexists; reflexivity|].
  vm_compute. discriminate.
Qed.

(** Once the ten minutes are over, the other token acquires. *)
Example other_token_after_expiry :
  let conn := Postgres.connection distrlock.defaultTableName in
  let a1 := distrlock.AcquireWithStaticToken (newHandle "job-A") (Caller 0) conn uuid0
              (10 * minute) (mkSt server0 []) in
  let a3 := distrlock.AcquireWithStaticToken (newHandle "job-A") (Caller 0) conn uuid1
              (10 * minute) (mkSt (Postgres.atTime (world (snd a1)) 600000001) []) in
  exists l, fst a3 = Val (l, None) /\ distrlock.Token l = uuid1.
Proof. vm_compute. eexists. split; reflexivity. Qed.

(** And so it does once the holder has released. *)
Example other_token_after_release :
  let conn := Postgres.connection distrlock.defaultTableName in
  let a1 := distrlock.AcquireWithStaticToken (newHandle "job-A") (Caller 0) conn uuid0
              (10 * minute) (mkSt server0 []) in
  let l1 := match fst a1 with Val (l, _) => l | Panicked _ => newHandle "job-A" end in
  let rl := distrlock.Release l1 (Caller 0) conn (snd a1) in
  let a3 := distrlock.AcquireWithStaticToken (newHandle "job-A") (Caller 0) conn uuid1
              (10 * minute) (mkSt (world (snd rl)) []) in
  fst rl = Val None /\ exists l, fst a3 = Val (l, None) /\ distrlock.Token l = uuid1.
Proof. vm_compute. split; [reflexivity | eexists; split; reflexivity]. Qed.

(** ** Retry classifier *)

Section RetryProps.

Lemma lookup_registerAll (calls : list (dbkit.DriverType * (nat * (error -> bool))))
    (reg : gmap dbkit.DriverType Pred) (t : dbkit.DriverType) :
  registerAll calls reg !! t = stack (registeredFor t calls) (reg !! t).
Proof.
  revert reg. induction calls as [|[t' p] calls IH]; intros reg; [reflexivity|].
  unfold registerAll, registeredFor in *. simpl.
  rewrite IH. unfold dbkit.RegisterIsRetryableFunc.
  destruct (String.eqb_spec t' t) as [-> | Hne]; simpl.
  - rewrite lookup_insert_eq. reflexivity.
  - rewrite lookup_insert_ne by exact Hne. reflexivity.
Qed.

Lemma anyOf_app (ps qs : list (nat * (error -> bool))) (e : error) :
  anyOf (ps ++ qs) e = anyOf ps e || anyOf qs e.
Proof. unfold anyOf. apply existsb_app. Qed.

Lemma chain_head (e : error) : exists rest, chain e = e :: rest.
Proof. destruct e; simpl; eauto. Qed.

Lemma composed_unfold (prev : option Pred) (r : Pred) (e : error) (log : list (nat * error)) :
  dbkit.composed prev r e log
  = (let '(b1, s1) := orNoDriver prev e log in
     if b1 then (true, s1)
     else let '(b2, s2) := r e s1 in
          if b2 then (true, s2)
          else match Unwrap e with
               | Some cause => dbkit.composed prev r cause s2
               | None => (false, s2)
               end).
Proof. destruct e, prev; reflexivity. Qed.

Lemma answer_unfold (ps : list (nat * (error -> bool))) (e : error) :
  existsb (anyOf ps) (chain e)
  = anyOf ps e || match Unwrap e with
                  | Some cause => existsb (anyOf ps) (chain cause)
                  | None => false
                  end.
Proof. destruct e; simpl; rewrite ?orb_false_r; reflexivity. Qed.

Lemma answer_mono (ps qs : list (nat * (error -> bool))) (es : list error) :
  existsb (anyOf ps) es = true -> existsb (anyOf (ps ++ qs)) es = true.
Proof.
  rewrite !existsb_exists. intros (e & Hin & He). exists e. split; [exact Hin|].
  rewrite anyOf_app, He. reflexivity.
Qed.

(** The answer of the composed closure, in terms of the answer of the
    closure it stacks on. *)
Lemma composed_answer (prev : option Pred) (ps : list (nat * (error -> bool)))
    (id : nat) (p : error -> bool) :
  (forall e log, fst (orNoDriver prev e log) = existsb (anyOf ps) (chain e)) ->
  forall e log,
    fst (dbkit.composed prev (traced id p) e log) = existsb (anyOf (ps ++ [(id, p)])) (chain e).
Proof.
  intros Hprev e.
  induction e as [text | format operands | prefix cause IH]; intros log;
    rewrite composed_unfold, answer_unfold, anyOf_app;
    match goal with |- context [orNoDriver prev ?e log] =>
      pose proof (Hprev e log) as Hp; rewrite answer_unfold in Hp;
      destruct (orNoDriver prev e log) as [b1 s1]
    end;
    cbn [fst Unwrap traced] in *; unfold anyOf at 2; cbn [existsb snd]; rewrite !orb_false_r in *.
  - subst b1. destruct (anyOf ps (errors_New text)); [reflexivity|].
    destruct (p (errors_New text)); reflexivity.
  - subst b1. destruct (anyOf ps (fmt_Errorf format operands)); [reflexivity|].
    destruct (p (fmt_Errorf format operands)); reflexivity.
  - destruct b1.
    + symmetry in Hp. apply orb_true_iff in Hp as [Hh | Ht].
      * rewrite Hh. reflexivity.
      * rewrite (answer_mono ps [(id, p)] _ Ht), orb_true_r. reflexivity.
    + symmetry in Hp. apply orb_false_iff in Hp as [Hh Ht]. rewrite Hh.
      destruct (p (fmt_Errorf_w prefix cause)); [reflexivity|]. apply IH.
Qed.

Lemma stack_answer (ps qs : list (nat * (error -> bool))) (prev : option Pred) :
  (forall e log, fst (orNoDriver prev e log) = existsb (anyOf ps) (chain e)) ->
  forall e log, fst (orNoDriver (stack qs prev) e log) = existsb (anyOf (ps ++ qs)) (chain e).
Proof.
  revert ps prev. induction qs as [|[id p] qs IH]; intros ps prev Hprev e log.
  - rewrite app_nil_r. apply Hprev.
  - simpl. replace (ps ++ (id, p) :: qs)%list with ((ps ++ [(id, p)]) ++ qs)%list
      by (rewrite <- app_assoc; reflexivity).
    apply IH. intros e' log'. simpl. apply composed_answer, Hprev.
Qed.

Lemma existsb_anyOf_nil (es : list error) : existsb (anyOf []) es = false.
Proof. induction es; simpl; auto. Qed.

Lemma consulted_app (ps : list (nat * (error -> bool))) (id : nat) (p : error -> bool) (e : error) :
  consulted (ps ++ [(id, p)]) e
  = (consulted ps e ++ (if anyOf ps e then [] else [(id, e)]))%list.
Proof.
  induction ps as [|[i q] ps IH]; simpl; [destruct (p e); reflexivity|].
  destruct (q e); simpl; [reflexivity|]. rewrite IH. reflexivity.
Qed.

(** The calls the composed closure makes about an error without a cause. *)
Lemma stack_consulted (ps qs : list (nat * (error -> bool))) (prev : option Pred) (e : error) :
  Unwrap e = None ->
  (forall log, orNoDriver prev e log = (anyOf ps e, (log ++ consulted ps e)%list)) ->
  forall log, orNoDriver (stack qs prev) e log
              = (anyOf (ps ++ qs) e, (log ++ consulted (ps ++ qs) e)%list).
Proof.
  intros Hleaf. revert ps prev. induction qs as [|[id p] qs IH]; intros ps prev Hprev log.
  - rewrite app_nil_r. apply Hprev.
  - simpl. replace (ps ++ (id, p) :: qs)%list with ((ps ++ [(id, p)]) ++ qs)%list
      by (rewrite <- app_assoc; reflexivity).
    apply IH. intros log'. simpl. rewrite consulted_app, anyOf_app.
    unfold anyOf at 2. simpl. rewrite orb_false_r.
    assert (Hstep : dbkit.composed prev (traced id p) e log'
                    = (let '(b1, s1) := orNoDriver prev e log' in
                       if b1 then (true, s1)
                       else let '(b2, s2) := traced id p e s1 in
                            if b2 then (true, s2) else (false, s2))).
    { destruct e; try discriminate Hleaf; destruct prev; reflexivity. }
    rewrite Hstep, Hprev. destruct (anyOf ps e); simpl.
    + rewrite app_nil_r. reflexivity.
    + rewrite app_assoc. destruct (p e); reflexivity.
Qed.

Lemma stack_snoc (qs : list (nat * (error -> bool))) (k : nat) (r : error -> bool) (acc : option Pred) :
  stack (qs ++ [(k, r)]) acc = Some (dbkit.composed (stack qs acc) (traced k r)).
Proof. unfold stack. rewrite fold_left_app. reflexivity. Qed.

Lemma steady_composed (prev : option Pred) (k : nat) (r : error -> bool) :
  steady (orNoDriver prev) -> steady (dbkit.composed prev (traced k r)).
Proof.
  intros Hprev e.
  induction e as [text | format operands | prefix cause IH]; intros log;
    rewrite (composed_unfold prev _ _ log), (composed_unfold prev _ _ []);
    match goal with |- context [orNoDriver prev ?e log] =>
      rewrite (Hprev e log); destruct (orNoDriver prev e []) as [b c]
    end;
    cbn [fst snd Unwrap traced];
    (destruct b; [reflexivity|]);
    match goal with |- context [r ?e] => destruct (r e) end;
    cbn [fst snd]; rewrite <- ?app_assoc; try reflexivity.
  rewrite (IH ((log ++ c ++ [(k, fmt_Errorf_w prefix cause)])%list)), (IH ((c ++ [(k, fmt_Errorf_w prefix cause)])%list)).
  cbn [fst snd]. rewrite <- !app_assoc. reflexivity.
Qed.

Lemma steady_stack (ps : list (nat * (error -> bool))) (acc : option Pred) :
  steady (orNoDriver acc) -> steady (orNoDriver (stack ps acc)).
Proof.
  revert acc. induction ps as [|[k r] ps IH]; intros acc Hacc; [exact Hacc|].
  simpl. apply IH. simpl. apply steady_composed, Hacc.
Qed.

Lemma steady_none : steady (orNoDriver None).
Proof. intros e log. simpl. rewrite app_nil_r. reflexivity. Qed.

Lemma run_stack (ps : list (nat * (error -> bool))) (e : error) (log : list (nat * error)) :
  orNoDriver (stack ps None) e log = (existsb (anyOf ps) (chain e), (log ++ callsOf ps e)%list).
Proof.
  rewrite (steady_stack ps None steady_none e log). unfold callsOf. f_equal.
  apply (stack_answer [] ps None). intros e' log'. simpl. symmetry. apply existsb_anyOf_nil.
Qed.

Lemma callsOf_snoc (qs : list (nat * (error -> bool))) (k : nat) (r : error -> bool) (e : error) :
  callsOf (qs ++ [(k, r)]) e
  = (callsOf qs e
     ++ if existsb (anyOf qs) (chain e) then []
        else (k, e) :: if r e then []
                       else match Unwrap e with
                            | Some cause => callsOf (qs ++ [(k, r)]) cause
                            | None => []
                            end)%list.
Proof.
  unfold callsOf at 1. rewrite stack_snoc. cbn [orNoDriver].
  rewrite composed_unfold, run_stack. cbn [app].
  destruct (existsb (anyOf qs) (chain e)); cbn [snd]; [rewrite app_nil_r; reflexivity|].
  cbn [traced]. destruct (r e); cbn [snd]; [reflexivity|].
  destruct (Unwrap e) as [cause|] eqn:Hu; cbn [snd]; [|reflexivity].
  change (dbkit.composed (stack qs None) (traced k r)) with (orNoDriver (Some (dbkit.composed (stack qs None) (traced k r)))).
  rewrite <- stack_snoc, run_stack. cbn [snd]. rewrite <- app_assoc. reflexivity.
Qed.

(** Only registered predicates are asked. *)
Lemma callsOf_ids (ps : list (nat * (error -> bool))) (e : error) (j : nat) (e' : error) :
  In (j, e') (callsOf ps e) -> In j (map fst ps).
Proof.
  revert e. induction ps as [|[k r] qs IH] using rev_ind; intros e.
  - unfold callsOf. simpl. tauto.
  - rewrite map_app, in_app_iff. simpl.
    induction e as [text | format operands | prefix cause IHe];
      rewrite callsOf_snoc; rewrite in_app_iff; cbn [Unwrap];
      (intros [Hin | Hin]; [left; exact (IH _ Hin)|]);
      destruct (existsb (anyOf qs) _); try contradiction;
      destruct Hin as [[= <- _] | Hin]; try (right; left; reflexivity);
      match goal with H : In _ (if r ?x then _ else _) |- _ => destruct (r x) end;
      try contradiction.
    destruct (IHe Hin) as [H | H]; [left; exact H | right; exact H].
Qed.

(** When no predicate said yes, each one was asked about the error. *)
Lemma callsOf_all (ps : list (nat * (error -> bool))) (e : error) (i : nat) :
  existsb (anyOf ps) (chain e) = false -> In i (map fst ps) -> In (i, e) (callsOf ps e).
Proof.
  revert e. induction ps as [|[k r] qs IH] using rev_ind; intros e Hno Hi; [destruct Hi|].
  rewrite map_app, in_app_iff in Hi. rewrite callsOf_snoc, in_app_iff.
  assert (Hq : existsb (anyOf qs) (chain e) = false).
  { destruct (existsb (anyOf qs) (chain e)) eqn:Hq; [|reflexivity].
    rewrite (answer_mono qs [(k, r)] _ Hq) in Hno. discriminate. }
  rewrite Hq. destruct Hi as [Hi | [<- | []]].
  - left. apply IH; assumption.
  - right. left. reflexivity.
Qed.

Lemma before_snoc (i j k : nat) (ids : list nat) :
  NoDup (ids ++ [k]) -> before i j (ids ++ [k]) ->
  (j = k /\ In i ids) \/ (j <> k /\ before i j ids).
Proof.
  intros Hnd (a & b & c & Heq).
  destruct c as [|x c _] using rev_ind.
  - left. replace (a ++ i :: b ++ [j])%list with ((a ++ i :: b) ++ [j])%list in Heq
      by (rewrite <- app_assoc; reflexivity).
    apply app_inj_tail in Heq as [-> ->]. split; [reflexivity|].
    apply in_app_iff. right. left. reflexivity.
  - right. replace (a ++ i :: b ++ j :: c ++ [x])%list with ((a ++ i :: b ++ j :: c) ++ [x])%list in Heq
      by (rewrite <- !app_assoc; simpl; rewrite <- app_assoc; reflexivity).
    apply app_inj_tail in Heq as [-> ->]. split.
    + intros ->. apply NoDup_app in Hnd as (_ & Hdis & _).
      apply (Hdis x); [|left; reflexivity].
      apply list_elem_of_In, in_app_iff. right. right. apply in_app_iff. right. left. reflexivity.
    + exists a, b, c. reflexivity.
Qed.

Lemma split_at_occurrence {X : Type} (A Y l1 l2 : list X) (x hd : X) (b : bool) :
  (A ++ (if b then [] else hd :: Y))%list = (l1 ++ x :: l2)%list ->
  (exists l2', A = (l1 ++ x :: l2')%list) \/
  (b = false /\ x = hd /\ l1 = A) \/
  (b = false /\ exists l1', l1 = (A ++ hd :: l1')%list /\ Y = (l1' ++ x :: l2)%list).
Proof.
  intros Heq. apply app_eq_app in Heq as [l [[HA HX] | [Hl1 HX]]].
  - destruct l as [|y l].
    + rewrite app_nil_r in HA. destruct b; [discriminate HX|].
      injection HX as -> ->. right. left. auto.
    + injection HX as <- ->. left. eauto.
  - destruct b; [destruct l; discriminate HX|].
    destruct l as [|y l].
    + injection HX as <- <-. rewrite app_nil_r in Hl1. right. left. auto.
    + injection HX as <- ->. right. right. split; [reflexivity|]. eauto.
Qed.

Lemma callsOf_order (ps : list (nat * (error -> bool))) :
  NoDup (map fst ps) ->
  forall e i j l1 l2 e',
    before i j (map fst ps) ->
    callsOf ps e = (l1 ++ (j, e') :: l2)%list -> In (i, e') l1.
Proof.
  induction ps as [|[k r] qs IH] using rev_ind; intros Hnd.
  - intros e i j l1 l2 e' (a & b & c & Heq). destruct a; discriminate Heq.
  - rewrite map_app in Hnd. cbn [map fst] in Hnd.
    assert (Hndq : NoDup (map fst qs)) by (apply NoDup_app in Hnd; tauto).
    assert (Hk : ~ In k (map fst qs)).
    { intros Hin. apply NoDup_app in Hnd as (_ & Hdis & _).
      apply (Hdis k); [apply list_elem_of_In; exact Hin | left]. }
    specialize (IH Hndq).
    intros e i j l1 l2 e' Hbefore. rewrite map_app in Hbefore. cbn [map fst] in Hbefore.
    apply (before_snoc i j k _ Hnd) in Hbefore.
    assert (Hstep : forall e0 Y l1 l2,
               (forall l1' l2', Y = (l1' ++ (j, e') :: l2')%list -> In (i, e') l1') ->
               (callsOf qs e0
                ++ if existsb (anyOf qs) (chain e0) then [] else (k, e0) :: Y)%list
               = (l1 ++ (j, e') :: l2)%list ->
               In (i, e') l1).
    { intros e0 Y m1 m2 HY Heq.
      apply split_at_occurrence in Heq as [[m2' HA] | [(Hno & [= -> ->] & ->) | (Hno & m1' & -> & HYeq)]].
      - destruct Hbefore as [[-> _] | [_ Hb]].
        + exfalso. apply Hk. apply (callsOf_ids qs e0 k e'). rewrite HA.
          apply in_app_iff. right. left. reflexivity.
        + exact (IH e0 i j m1 m2' e' Hb HA).
      - destruct Hbefore as [[_ Hi] | [Hne _]]; [|contradiction].
        apply callsOf_all; assumption.
      - apply in_app_iff. right. right. exact (HY m1' m2 HYeq). }
    revert l1 l2.
    induction e as [text | format operands | prefix cause IHe]; intros l1 l2;
      rewrite callsOf_snoc; cbn [Unwrap]; apply Hstep.
    + intros m1 m2 Hm. destruct (r (errors_New text)), m1; discriminate Hm.
    + intros m1 m2 Hm. destruct (r (fmt_Errorf format operands)), m1; discriminate Hm.
    + intros m1 m2 Hm. destruct (r (fmt_Errorf_w prefix cause)); [destruct m1; discriminate Hm|].
      exact (IHe m1 m2 Hm).
Qed.

(** C7. (1) For a driver type without an entry, [GetIsRetryable] returns a
    predicate that is false of every error and calls nothing.  After any
    sequence of [RegisterIsRetryableFunc] calls, for any driver types,
    the predicate [GetIsRetryable] returns for a type (2) is true of an
    error exactly when some predicate registered for that type is true of
    the error or of an error of its unwrap chain; (3) stays true when an
    error it is true of is wrapped in any number of layers; (4) asked
    about an error without a cause, calls the registered predicates in the
    order of their registration, up to the first that returns true; and
    (5) asked about any error, calls a predicate about an error of the
    chain only after it has called, about that same error, every predicate
    registered before it (the predicates being told apart by their
    numbers). *)
Theorem retry_classifier_composition :
  (forall (S : Type) (reg : gmap dbkit.DriverType (dbkit.IsRetryable S)) t e s,
     reg !! t = None -> dbkit.GetIsRetryable t reg e s = (false, s)) /\
  (forall calls t e log,
     fst (dbkit.GetIsRetryable t (registerAll calls ∅) e log) = true <->
     exists p e', In p (registeredFor t calls) /\ In e' (chain e) /\ snd p e' = true) /\
  (forall calls t e wrapped log log',
     In e (chain wrapped) ->
     fst (dbkit.GetIsRetryable t (registerAll calls ∅) e log) = true ->
     fst (dbkit.GetIsRetryable t (registerAll calls ∅) wrapped log') = true) /\
  (forall calls t e log,
     Unwrap e = None ->
     snd (dbkit.GetIsRetryable t (registerAll calls ∅) e log)
     = (log ++ consulted (registeredFor t calls) e)%list) /\
  (forall calls t e log i j e' l1 l2,
     NoDup (map fst (registeredFor t calls)) ->
     before i j (map fst (registeredFor t calls)) ->
     snd (dbkit.GetIsRetryable t (registerAll calls ∅) e log)
     = (log ++ l1 ++ (j, e') :: l2)%list ->
     In (i, e') l1).
Proof.
  assert (Hget : forall calls t,
             dbkit.GetIsRetryable t (registerAll calls ∅)
             = orNoDriver (stack (registeredFor t calls) None)).
  { intros calls t. unfold dbkit.GetIsRetryable. rewrite lookup_registerAll, lookup_empty.
    reflexivity. }
  assert (Hans : forall calls t e log,
             fst (dbkit.GetIsRetryable t (registerAll calls ∅) e log)
             = existsb (anyOf (registeredFor t calls)) (chain e)).
  { intros calls t e log. rewrite Hget, run_stack. reflexivity. }
  assert (Hiff : forall calls t e,
             existsb (anyOf (registeredFor t calls)) (chain e) = true <->
             exists p e', In p (registeredFor t calls) /\ In e' (chain e) /\ snd p e' = true).
  { intros calls t e. rewrite existsb_exists. split.
    - intros (e' & Hin & Hany). apply existsb_exists in Hany as (p & Hp & Hpe). eauto.
    - intros (p & e' & Hp & Hin & Hpe). exists e'. split; [exact Hin|].
      apply existsb_exists. eauto. }
  assert (Hsub : forall e wrapped e', In e (chain wrapped) -> In e' (chain e) -> In e' (chain wrapped)).
  { intros e wrapped e'. induction wrapped as [text | format operands | prefix cause IH]; simpl.
    - intros [<- | []]. simpl. tauto.
    - intros [<- | []]. simpl. tauto.
    - intros [<- | Hin] He'; [exact He' | right; apply IH; assumption]. }
  split; [|split; [|split; [|split]]].
  - intros S reg t e s Hnone. unfold dbkit.GetIsRetryable. rewrite Hnone. reflexivity.
  - intros calls t e log. rewrite Hans. apply Hiff.
  - intros calls t e wrapped log log' Hin. rewrite !Hans, !Hiff.
    intros (p & e' & Hp & He' & Hpe). exists p, e'. eauto.
  - intros calls t e log Hleaf. rewrite Hget.
    rewrite (stack_consulted [] (registeredFor t calls) None e Hleaf); [reflexivity|].
    intros log'. simpl. rewrite app_nil_r. reflexivity.
  - intros calls t e log i j e' l1 l2 Hnd Hbefore. rewrite Hget, run_stack. cbn [snd].
    intros Heq. apply app_inv_head in Heq.
    exact (callsOf_order _ Hnd e i j l1 l2 e' Hbefore Heq).
Qed.

End RetryProps.

(** The repository's test of the call order: three predicates that say
    no, registered for the nil driver, asked about one error. *)
Example TestMultipleIsRetryError :
  dbkit.GetIsRetryable dbkit.nilType
    (registerAll [(dbkit.nilType, (1%nat, never)); (dbkit.nilType, (2%nat, never));
                  (dbkit.nilType, (3%nat, never))] ∅)
    (fmt_Errorf "fake error" []) []
  = (false, [(1%nat, fmt_Errorf "fake error" []); (2%nat, fmt_Errorf "fake error" []);
             (3%nat, fmt_Errorf "fake error" [])]).
Proof. reflexivity. Qed.

(** C7, at work: a deadlock error of the PostgreSQL driver, wrapped twice,
    is retryable for that driver and not for a driver without entry. *)
Lemma retry_classifier_composition_witness :
  let calls := [("*pq.Driver", (1%nat, hasText "deadlock_detected"));
                ("*pq.Driver", (2%nat, hasText "serialization_failure"))] in
  let wrapped := fmt_Errorf_w "begin tx: " (fmt_Errorf_w "worker: " (errors_New "deadlock_detected")) in
  fst (dbkit.GetIsRetryable "*pq.Driver" (registerAll calls ∅) wrapped []) = true /\
  dbkit.GetIsRetryable "*mysql.MySQLDriver" (registerAll calls ∅) wrapped [] = (false, []).
Proof.
  cbv zeta. split.
  - apply (proj1 (proj2 (proj2 retry_classifier_composition))
             [("*pq.Driver", (1%nat, hasText "deadlock_detected"));
              ("*pq.Driver", (2%nat, hasText "serialization_failure"))]
             "*pq.Driver" (errors_New "deadlock_detected") _ [] []).
    + simpl. tauto.
    + reflexivity.
  - apply (proj1 retry_classifier_composition). reflexivity.
Defined.

(** ** Lease supervisor *)

Section SupervisorProps.
Context {W : Type} `{ContextEnv W} `{SqlEnv W} `{UuidEnv W}.









End SupervisorProps.

(** A run of [DoExclusively] on the scripted world: the acquire succeeds,
    the extension ticks once, the user function sees the caller's context
    cancelled and returns [context.Canceled]; the release still runs, under
    its own context. *)
Example DoExclusively_trace :
  let q := distrlock.queries postgresManager in
  let newCtx := WithCancel (Caller 0) in
  let releaseCtx := WithTimeout Background second in
  let run := distrlock.DoExclusively {| distrlock.during := [1%nat]; distrlock.after := 0%nat |}
               (newHandle "job-A") (Caller 0) 0%nat (3 * second) second second cancelledJob
               (mkSt (Mock.happy 1) []) in
  fst run = Val ({| distrlock.Key := "job-A"; distrlock.TTL := 3 * second;
                    distrlock.token := uuid0; distrlock.manager := Some postgresManager |},
                 Some Canceled) /\
  events (snd run)
  = [EvBeginTx (Caller 0) 0%nat None;
     EvExec (Caller 0) (distrlock.acquireLock q) ["3000000 microseconds"; uuid0; "job-A"; uuid0];
     EvCommit 1%nat;
     EvCall newCtx;
     EvBeginTx (Caller 0) 0%nat None;
     EvExec (Caller 0) (distrlock.extendLock q) ["3000000 microseconds"; "job-A"; uuid0];
     EvCommit 1%nat;
     EvExtensionExit;
     EvCancel newCtx;
     EvBeginTx releaseCtx 0%nat None;
     EvExec releaseCtx (distrlock.releaseLock q) ["job-A"; uuid0];
     EvCommit 1%nat;
     EvCancel releaseCtx].
Proof. vm_compute. split; reflexivity. Qed.

(** The same with a release that affects no row: the error goes to the
    log and the result is the user function's. *)
Example DoExclusively_release_error_logged :
  let run := distrlock.DoExclusively {| distrlock.during := []; distrlock.after := 0%nat |}
               (newHandle "job-A") (Caller 0) 0%nat (3 * second) second second losingJob
               (mkSt (Mock.happy 1) []) in
  (exists l1, fst run = Val (l1, None)) /\
  In (EvLogError "failed to release db lock" distrlock.ErrLockAlreadyReleased) (events (snd run)) /\
  In (EvRollback 1%nat) (events (snd run)).
Proof. vm_compute. split; [eexists; reflexivity | split; tauto]. Qed.


(* ===================================================================== *)
(** * Further properties of the code                                       *)
(* ===================================================================== *)

(** ** Release and extension against the PostgreSQL server *)

Lemma forPostgres_queries (tableName : string) (m : distrlock.DBManager) :
  forPostgres tableName m ->
  distrlock.acquireLock (distrlock.queries m) = Sprintf distrlock.postgresAcquireLockQuery tableName /\
  distrlock.initLock (distrlock.queries m) = Sprintf distrlock.postgresInitLockQuery tableName /\
  distrlock.releaseLock (distrlock.queries m) = Sprintf distrlock.postgresReleaseLockQuery tableName /\
  distrlock.extendLock (distrlock.queries m) = Sprintf distrlock.postgresExtendLockQuery tableName /\
  distrlock.intervalMaker (distrlock.queries m) = distrlock.postgresMakeInterval.
Proof.
  intros (dialect & Hd & Hmgr). exact (postgres_manager_queries dialect tableName m Hd Hmgr).
Qed.

Lemma postgresManager_forPostgres : forPostgres distrlock.defaultTableName postgresManager.
Proof. exists dbkit.DialectPostgres. split; [left|]; reflexivity. Qed.

(** The fenced statements: a release or an extension with a token affects
    the row exactly when that token holds the key at that instant. *)
Lemma release_affects_iff (t : gmap string Postgres.LockRow) (key : string) (now : Z) (tk : string) :
  (Postgres.held t key now tk ->
     Postgres.releaseLockStmt now key tk t = (<[key := releasedRow tk]> t, 1)) /\
  (~ Postgres.held t key now tk -> Postgres.releaseLockStmt now key tk t = (t, 0)).
Proof.
  unfold Postgres.releaseLockStmt.
  match goal with |- context [Postgres.update_where ?k ?c ?f t] =>
    destruct (update_where_cases k c f t) as [(r & Hr & Hc & ->) | (Hno & ->)]
  end.
  - apply fenced_cond_true in Hc as (Htk & e & He & Hle).
    split; [intros _; unfold releasedRow; rewrite Htk; reflexivity|].
    intros Hnot. exfalso. apply Hnot. exists r, e. auto.
  - split; [|reflexivity]. intros (r & e & Hr & He & Hle & Htk). exfalso.
    apply (Hno r Hr), fenced_cond_true. eauto.
Qed.

Lemma extend_affects_iff (t : gmap string Postgres.LockRow) (key : string) (now i : Z) (tk : string) :
  (Postgres.held t key now tk ->
     Postgres.extendLockStmt now i key tk t = (<[key := leasedRow tk now i]> t, 1)) /\
  (~ Postgres.held t key now tk -> Postgres.extendLockStmt now i key tk t = (t, 0)).
Proof.
  unfold Postgres.extendLockStmt.
  match goal with |- context [Postgres.update_where ?k ?c ?f t] =>
    destruct (update_where_cases k c f t) as [(r & Hr & Hc & ->) | (Hno & ->)]
  end.
  - apply fenced_cond_true in Hc as (Htk & e & He & Hle).
    split; [intros _; unfold leasedRow; rewrite Htk; reflexivity|].
    intros Hnot. exfalso. apply Hnot. exists r, e. auto.
  - split; [|reflexivity]. intros (r & e & Hr & He & Hle & Htk). exfalso.
    apply (Hno r Hr), fenced_cond_true. eauto.
Qed.

(** [Release] and [Extend] through a connection to the server, under a
    live context, when the server reads the handle's token as the uuid
    [u]: the statement runs at the server's instant with the handle's key
    and that uuid (and the handle's TTL, in microseconds), and the call
    returns nil exactly when it affected one row. *)
Lemma Release_on_server (tableName : string) (m : distrlock.DBManager) (l : distrlock.DBLock)
    (ctx : Context) (u : string) (w : Postgres.Server) (ev : list Event) :
  forPostgres tableName m -> distrlock.manager l = Some m -> ctx_Err ctx w = None ->
  Postgres.uuid_in (distrlock.token l) = Some u ->
  let r := Postgres.releaseLockStmt (Postgres.NOW w) (distrlock.Key l) u (Postgres.lockTable w) in
  distrlock.Release l ctx (Postgres.connection tableName) (mkSt w ev)
  = (Val (if Z.eqb (snd r) 1 then None else Some distrlock.ErrLockAlreadyReleased),
     mkSt (Postgres.withTable w (fst r))
       (ev ++ [EvExec ctx (distrlock.releaseLock (distrlock.queries m))
                 [distrlock.Key l; distrlock.token l]])).
Proof.
  intros Hfor Hm Hctx Hu. cbv zeta.
  rewrite (Release_run l m) by exact Hm. cbv zeta.
  destruct (forPostgres_queries tableName m Hfor) as (_ & _ & Hq & _ & _).
  rewrite Hq. cbn [world events Postgres.connection ExecContext].
  rewrite (execContext_releaseLock tableName ctx _ _ u) by exact Hu.
  unfold Postgres.run. cbn [fst snd Postgres.rows RowsAffected].
  rewrite server_ctx_Err_withTable, Hctx. unfold verdict.
  destruct (Z.eqb _ 1); reflexivity.
Qed.

Lemma Extend_on_server (tableName : string) (m : distrlock.DBManager) (l : distrlock.DBLock)
    (ctx : Context) (u : string) (w : Postgres.Server) (ev : list Event) :
  forPostgres tableName m -> distrlock.manager l = Some m -> ctx_Err ctx w = None ->
  Postgres.uuid_in (distrlock.token l) = Some u ->
  let r := Postgres.extendLockStmt (Postgres.NOW w) (Microseconds (distrlock.TTL l))
             (distrlock.Key l) u (Postgres.lockTable w) in
  distrlock.Extend l ctx (Postgres.connection tableName) (mkSt w ev)
  = (Val (if Z.eqb (snd r) 1 then None else Some distrlock.ErrLockAlreadyReleased),
     mkSt (Postgres.withTable w (fst r))
       (ev ++ [EvExec ctx (distrlock.extendLock (distrlock.queries m))
                 [distrlock.postgresMakeInterval (distrlock.TTL l); distrlock.Key l;
                  distrlock.token l]])).
Proof.
  intros Hfor Hm Hctx Hu. cbv zeta.
  rewrite (Extend_run l m) by exact Hm. cbv zeta.
  destruct (forPostgres_queries tableName m Hfor) as (_ & _ & _ & Hq & Hi).
  rewrite Hq, Hi. cbn [world events Postgres.connection ExecContext].
  rewrite (execContext_extendLock tableName ctx _ (distrlock.Key l) (distrlock.token l) u
             (Microseconds (distrlock.TTL l)))
    by (apply parseInterval_postgresMakeInterval || exact Hu).
  unfold Postgres.run. cbn [fst snd Postgres.rows RowsAffected].
  rewrite server_ctx_Err_withTable, Hctx. unfold verdict.
  destruct (Z.eqb _ 1); reflexivity.
Qed.

(** With a token on the handle that is not the text of a uuid (the empty
    token of a handle that never acquired, for one) the server rejects the
    statement: the call returns the error of the driver, whatever the
    context, and the server is as it was. *)
Lemma Release_not_uuid (tableName : string) (m : distrlock.DBManager) (l : distrlock.DBLock)
    (ctx : Context) (w : Postgres.Server) (ev : list Event) :
  forPostgres tableName m -> distrlock.manager l = Some m ->
  Postgres.uuid_in (distrlock.token l) = None ->
  distrlock.Release l ctx (Postgres.connection tableName) (mkSt w ev)
  = (Val (Some (errors_New "invalid input syntax for type uuid")),
     mkSt w (ev ++ [EvExec ctx (distrlock.releaseLock (distrlock.queries m))
                      [distrlock.Key l; distrlock.token l]])).
Proof.
  intros Hfor Hm Hu.
  rewrite (Release_run l m) by exact Hm. cbv zeta.
  destruct (forPostgres_queries tableName m Hfor) as (_ & _ & Hq & _ & _).
  rewrite Hq. cbn [world events Postgres.connection ExecContext].
  rewrite execContext_releaseLock_not_uuid by exact Hu. reflexivity.
Qed.

Lemma Extend_not_uuid (tableName : string) (m : distrlock.DBManager) (l : distrlock.DBLock)
    (ctx : Context) (w : Postgres.Server) (ev : list Event) :
  forPostgres tableName m -> distrlock.manager l = Some m ->
  Postgres.uuid_in (distrlock.token l) = None ->
  distrlock.Extend l ctx (Postgres.connection tableName) (mkSt w ev)
  = (Val (Some (errors_New "invalid input syntax for type uuid")),
     mkSt w (ev ++ [EvExec ctx (distrlock.extendLock (distrlock.queries m))
                      [distrlock.postgresMakeInterval (distrlock.TTL l); distrlock.Key l;
                       distrlock.token l]])).
Proof.
  intros Hfor Hm Hu.
  rewrite (Extend_run l m) by exact Hm. cbv zeta.
  destruct (forPostgres_queries tableName m Hfor) as (_ & _ & _ & Hq & Hi).
  rewrite Hq, Hi. cbn [world events Postgres.connection ExecContext].
  rewrite (execContext_extendLock_not_uuid tableName ctx _ _ _ (Microseconds (distrlock.TTL l)))
    by (apply parseInterval_postgresMakeInterval || exact Hu).
  reflexivity.
Qed.

Lemma AcquireWithStaticToken_for (tableName : string)
    (m : distrlock.DBManager) (l : distrlock.DBLock) (ctx : Context) (tk u : string)
    (ttl : Duration) (w : Postgres.Server) (ev : list Event) :
  forPostgres tableName m -> distrlock.manager l = Some m -> ctx_Err ctx w = None ->
  Postgres.uuid_in tk = Some u ->
  let r := Postgres.acquireLockStmt (Postgres.NOW w) (Microseconds ttl) u (distrlock.Key l) u
             (Postgres.lockTable w) in
  distrlock.AcquireWithStaticToken l ctx (Postgres.connection tableName) tk ttl (mkSt w ev)
  = (Val (if Z.eqb (snd r) 1
          then ({| distrlock.Key := distrlock.Key l; distrlock.TTL := ttl;
                   distrlock.token := tk; distrlock.manager := distrlock.manager l |}, None)
          else (l, Some distrlock.ErrLockAlreadyAcquired)),
     mkSt (Postgres.withTable w (fst r))
       (ev ++ [EvExec ctx (distrlock.acquireLock (distrlock.queries m))
                 [distrlock.postgresMakeInterval ttl; tk; distrlock.Key l; tk]])).
Proof.
  intros (dialect & Hd & Hmgr). apply (AcquireWithStaticToken_on_server dialect); assumption.
Qed.

Lemma free_after_release (t : gmap string Postgres.LockRow) (key tk : string) (now : Z) :
  Postgres.free (<[key := releasedRow tk]> t) key now.
Proof. exists (releasedRow tk). split; [apply lookup_insert_eq | left; reflexivity]. Qed.

Lemma held_after_lease (t : gmap string Postgres.LockRow) (key tk : string) (at_ i now : Z) :
  now <= at_ + i -> Postgres.held (<[key := leasedRow tk at_ i]> t) key now tk.
Proof.
  intros Hle. exists (leasedRow tk at_ i), (at_ + i).
  split; [apply lookup_insert_eq|]. split; [reflexivity|]. split; [exact Hle | reflexivity].
Qed.

Lemma not_held_after_expiry (t : gmap string Postgres.LockRow) (key tk tk' : string)
    (at_ i now : Z) :
  at_ + i < now -> ~ Postgres.held (<[key := leasedRow tk at_ i]> t) key now tk'.
Proof.
  intros Hlt (r & e & Hr & He & Hle & _). rewrite lookup_insert_eq in Hr.
  injection Hr as <-. simpl in He. injection He as <-. lia.
Qed.

Lemma free_after_expiry (t : gmap string Postgres.LockRow) (key tk : string) (at_ i now : Z) :
  at_ + i < now -> Postgres.free (<[key := leasedRow tk at_ i]> t) key now.
Proof.
  intros Hlt. exists (leasedRow tk at_ i). split; [apply lookup_insert_eq|].
  right. exists (at_ + i). split; [reflexivity | exact Hlt].
Qed.

Lemma not_held_after_release (t : gmap string Postgres.LockRow) (key tk tk' : string) (now : Z) :
  ~ Postgres.held (<[key := releasedRow tk]> t) key now tk'.
Proof.
  intros (r & e & Hr & He & _). rewrite lookup_insert_eq in Hr.
  injection Hr as <-. discriminate.
Qed.

Lemma heldByUuid0_held : Postgres.held heldByUuid0 "job-A" 7 uuid0.
Proof.
  exists {| Postgres.tok := Some uuid0; Postgres.expire_at := Some 15 |}, 15.
  split; [reflexivity | split; [reflexivity | split; [lia | reflexivity]]].
Qed.

(** X1. [Release] on a handle of a PostgreSQL manager, the column
    [token] being of type [uuid].  When the token on the handle is not the
    text of a uuid (a handle that never acquired has the empty token) the
    server refuses the statement: the call returns the error of the
    driver and the table is as it was.  When it is the text of the uuid
    [u], under a live context: the call returns nil exactly when [u]
    holds the key at that instant; the row then keeps the token and has
    no expiry, so the key is free at every instant.  Otherwise (another
    uuid in the row, the lease expired, already released, no row) it
    returns [ErrLockAlreadyReleased] and the table is as it was. *)
Theorem Release_frees_own_live_lease (tableName : string) (m : distrlock.DBManager)
    (l : distrlock.DBLock) (ctx : Context) (w : Postgres.Server) (ev : list Event)
    (Hfor : forPostgres tableName m)
    (Hm : distrlock.manager l = Some m)
    (Hctx : ctx_Err ctx w = None) :
  let out := distrlock.Release l ctx (Postgres.connection tableName) (mkSt w ev) in
  let t' := Postgres.lockTable (world (snd out)) in
  (Postgres.uuid_in (distrlock.token l) = None ->
     fst out = Val (Some (errors_New "invalid input syntax for type uuid")) /\
     t' = Postgres.lockTable w) /\
  (forall u, Postgres.uuid_in (distrlock.token l) = Some u ->
     (Postgres.held (Postgres.lockTable w) (distrlock.Key l) (Postgres.NOW w) u ->
        fst out = Val None /\
        t' = <[distrlock.Key l := releasedRow u]> (Postgres.lockTable w) /\
        forall now, Postgres.free t' (distrlock.Key l) now) /\
     (~ Postgres.held (Postgres.lockTable w) (distrlock.Key l) (Postgres.NOW w) u ->
        fst out = Val (Some distrlock.ErrLockAlreadyReleased) /\ t' = Postgres.lockTable w)).
Proof.
  cbv zeta. split.
  - intros Hbad. rewrite (Release_not_uuid tableName m l ctx w ev Hfor Hm Hbad).
    split; reflexivity.
  - intros u Hu. rewrite (Release_on_server tableName m l ctx u w ev Hfor Hm Hctx Hu). cbv zeta.
    destruct (release_affects_iff (Postgres.lockTable w) (distrlock.Key l) (Postgres.NOW w) u)
      as [Hyes Hno].
    split; intros Hh.
    + rewrite (Hyes Hh). cbn. split; [reflexivity|]. split; [reflexivity|].
      intros now. apply free_after_release.
    + rewrite (Hno Hh). cbn. split; reflexivity.
Qed.

(** X1, at work: the uuid of the handle holds [job-A] until instant 15 and
    the handle releases at 7; a handle fresh from [NewLock] gets the
    error of the driver. *)
Lemma Release_frees_own_live_lease_witness :
  let conn := Postgres.connection distrlock.defaultTableName in
  let out := distrlock.Release (acquiredHandle "job-A" uuid0 10000) (Caller 0) conn
               (mkSt (serverAt heldByUuid0 7) []) in
  let fresh := distrlock.Release (newHandle "job-A") (Caller 0) conn
                 (mkSt (serverAt heldByUuid0 7) []) in
  (fst out = Val None /\
   Postgres.lockTable (world (snd out)) = <["job-A" := releasedRow uuid0]> heldByUuid0 /\
   forall now, Postgres.free (Postgres.lockTable (world (snd out))) "job-A" now) /\
  fst fresh = Val (Some (errors_New "invalid input syntax for type uuid")).
Proof.
  cbv zeta. split.
  - pose proof (Release_frees_own_live_lease distrlock.defaultTableName postgresManager
                  (acquiredHandle "job-A" uuid0 10000) (Caller 0) (serverAt heldByUuid0 7) []
                  postgresManager_forPostgres eq_refl eq_refl) as Hthm.
    cbv zeta in Hthm. destruct Hthm as [_ Hok].
    apply (Hok uuid0); [vm_compute; reflexivity | exact heldByUuid0_held].
  - pose proof (Release_frees_own_live_lease distrlock.defaultTableName postgresManager
                  (newHandle "job-A") (Caller 0) (serverAt heldByUuid0 7) []
                  postgresManager_forPostgres eq_refl eq_refl) as Hthm.
    cbv zeta in Hthm. destruct Hthm as [Hbad _].
    apply Hbad. reflexivity.
Defined.

(** X2. [Extend] on a handle of a PostgreSQL manager, the column [token]
    being of type [uuid].  When the token on the handle is not the text
    of a uuid the call returns the error of the driver and the table is
    as it was.  When it is the text of the uuid [u], under a live context:
    the call returns nil exactly when [u] holds the key at that instant;
    the expiry is then the server's instant plus the TTL the handle
    stored at its last acquire, in whole microseconds, whatever the
    expiry was before, and no other uuid can acquire up to that expiry.
    Otherwise it returns [ErrLockAlreadyReleased] and the table is as it
    was: an expired or released lease is not revived. *)
Theorem Extend_renews_own_live_lease (tableName : string) (m : distrlock.DBManager)
    (l : distrlock.DBLock) (ctx : Context) (w : Postgres.Server) (ev : list Event)
    (Hfor : forPostgres tableName m)
    (Hm : distrlock.manager l = Some m)
    (Hctx : ctx_Err ctx w = None) :
  let out := distrlock.Extend l ctx (Postgres.connection tableName) (mkSt w ev) in
  let t' := Postgres.lockTable (world (snd out)) in
  let expiry := Postgres.NOW w + Microseconds (distrlock.TTL l) in
  (Postgres.uuid_in (distrlock.token l) = None ->
     fst out = Val (Some (errors_New "invalid input syntax for type uuid")) /\
     t' = Postgres.lockTable w) /\
  (forall u, Postgres.uuid_in (distrlock.token l) = Some u ->
     (Postgres.held (Postgres.lockTable w) (distrlock.Key l) (Postgres.NOW w) u ->
        fst out = Val None /\
        t' !! distrlock.Key l
          = Some {| Postgres.tok := Some u; Postgres.expire_at := Some expiry |} /\
        (forall key, key <> distrlock.Key l -> t' !! key = Postgres.lockTable w !! key) /\
        forall now i u', now <= expiry -> u' <> u ->
          Postgres.acquireLockStmt now i u' (distrlock.Key l) u' t' = (t', 0)) /\
     (~ Postgres.held (Postgres.lockTable w) (distrlock.Key l) (Postgres.NOW w) u ->
        fst out = Val (Some distrlock.ErrLockAlreadyReleased) /\ t' = Postgres.lockTable w)).
Proof.
  cbv zeta. split.
  - intros Hbad. rewrite (Extend_not_uuid tableName m l ctx w ev Hfor Hm Hbad).
    split; reflexivity.
  - intros u Hu. rewrite (Extend_on_server tableName m l ctx u w ev Hfor Hm Hctx Hu). cbv zeta.
    destruct (extend_affects_iff (Postgres.lockTable w) (distrlock.Key l) (Postgres.NOW w)
                (Microseconds (distrlock.TTL l)) u) as [Hyes Hno].
    split; intros Hh.
    + rewrite (Hyes Hh). cbn. split; [reflexivity|]. split; [apply lookup_insert_eq|].
      split; [intros key Hne; apply lookup_insert_ne; congruence|].
      intros now i u' Hle Hne.
      apply (held_not_displaced _ _ now i u u'); [|exact Hne].
      apply held_after_lease. exact Hle.
    + rewrite (Hno Hh). cbn. split; reflexivity.
Qed.

(** X2, at work: the handle, whose TTL is 10 microseconds, extends at
    instant 7 the lease that ran until 15: it now runs until 17. *)
Lemma Extend_renews_own_live_lease_witness :
  let out := distrlock.Extend (acquiredHandle "job-A" uuid0 10000) (Caller 0)
               (Postgres.connection distrlock.defaultTableName)
               (mkSt (serverAt heldByUuid0 7) []) in
  fst out = Val None /\
  Postgres.lockTable (world (snd out)) !! "job-A"
    = Some {| Postgres.tok := Some uuid0; Postgres.expire_at := Some 17 |}.
Proof.
  pose proof (Extend_renews_own_live_lease distrlock.defaultTableName postgresManager
                (acquiredHandle "job-A" uuid0 10000) (Caller 0) (serverAt heldByUuid0 7) []
                postgresManager_forPostgres eq_refl eq_refl) as Hthm.
  cbv zeta in Hthm. destruct Hthm as [_ Hok].
  destruct (Hok uuid0 ltac:(vm_compute; reflexivity)) as [Hyes _].
  destruct (Hyes heldByUuid0_held) as (Hout & Hrow & _).
  cbv zeta. split; [exact Hout | exact Hrow].
Defined.

(** ** The life of a lease *)

(** The first acquire of a scenario: the row is free, the call succeeds and
    leaves the leased row. *)
Lemma acquire_free_on_server (tableName key tk u : string) (m : distrlock.DBManager)
    (l : distrlock.DBLock) (ctx : Context) (ttl : Duration) (w0 : Postgres.Server)
    (ev : list Event) :
  forPostgres tableName m -> distrlock.manager l = Some m -> distrlock.Key l = key ->
  ctx_Err ctx w0 = None ->
  Postgres.uuid_in tk = Some u ->
  Postgres.free (Postgres.lockTable w0) key (Postgres.NOW w0) \/
  Postgres.carries (Postgres.lockTable w0) key u ->
  distrlock.AcquireWithStaticToken l ctx (Postgres.connection tableName) tk ttl (mkSt w0 ev)
  = (Val ({| distrlock.Key := key; distrlock.TTL := ttl; distrlock.token := tk;
             distrlock.manager := Some m |}, None),
     mkSt (Postgres.withTable w0
             (<[key := leasedRow u (Postgres.NOW w0) (Microseconds ttl)]> (Postgres.lockTable w0)))
       (ev ++ [EvExec ctx (distrlock.acquireLock (distrlock.queries m))
                 [distrlock.postgresMakeInterval ttl; tk; key; tk]])).
Proof.
  intros Hfor Hm Hk Hctx Hu Hfree.
  rewrite (AcquireWithStaticToken_for tableName m l ctx tk u ttl w0 ev Hfor Hm Hctx Hu). cbv zeta.
  rewrite Hk, Hm.
  rewrite (proj1 (acquire_affects_iff (Postgres.lockTable w0) key (Postgres.NOW w0)
                    (Microseconds ttl) u) Hfree).
  reflexivity.
Qed.

(** X3. Acquire with a token that is the text of a uuid, then release
    while the lease runs: the release returns nil; after it, at any
    instant, a second release and an extension through the same handle
    return [ErrLockAlreadyReleased], and an acquire with the text of any
    uuid succeeds. *)
Theorem release_ends_the_lease (tableName key tk tk' u u' : string) (m : distrlock.DBManager)
    (l l' : distrlock.DBLock) (ctx : Context) (ttl ttl' : Duration) (w0 : Postgres.Server)
    (now1 now2 now3 : Z)
    (Hfor : forPostgres tableName m)
    (Hl : distrlock.manager l = Some m /\ distrlock.Key l = key)
    (Hl' : distrlock.manager l' = Some m /\ distrlock.Key l' = key)
    (Hctx : ctx_Err ctx w0 = None)
    (Hfree : Postgres.free (Postgres.lockTable w0) key (Postgres.NOW w0))
    (Htk : Postgres.uuid_in tk = Some u)
    (Htk' : Postgres.uuid_in tk' = Some u')
    (Hlive : now1 <= Postgres.NOW w0 + Microseconds ttl) :
  let conn := Postgres.connection tableName in
  let a := distrlock.AcquireWithStaticToken l ctx conn tk ttl (mkSt w0 []) in
  exists l1, fst a = Val (l1, None) /\
    let later (s : St Postgres.Server) (now : Z) := mkSt (Postgres.atTime (world s) now) (events s) in
    let r1 := distrlock.Release l1 ctx conn (later (snd a) now1) in
    let r2 := distrlock.Release l1 ctx conn (later (snd r1) now2) in
    let e2 := distrlock.Extend l1 ctx conn (later (snd r1) now2) in
    let a3 := distrlock.AcquireWithStaticToken l' ctx conn tk' ttl' (later (snd r1) now3) in
    fst r1 = Val None /\
    fst r2 = Val (Some distrlock.ErrLockAlreadyReleased) /\
    fst e2 = Val (Some distrlock.ErrLockAlreadyReleased) /\
    exists l3, fst a3 = Val (l3, None) /\ distrlock.Token l3 = tk'.
Proof.
  destruct Hl as [Hm Hk], Hl' as [Hm' Hk']. cbv zeta.
  rewrite (acquire_free_on_server tableName key tk u m l ctx ttl w0 [] Hfor Hm Hk Hctx Htk
             (or_introl Hfree)).
  eexists. split; [reflexivity|]. cbn [fst snd world events].
  set (t1 := <[key := leasedRow u (Postgres.NOW w0) (Microseconds ttl)]> (Postgres.lockTable w0)).
  set (l1 := {| distrlock.Key := key; distrlock.TTL := ttl; distrlock.token := tk;
                distrlock.manager := Some m |}).
  rewrite (Release_on_server tableName m l1 ctx u) by (assumption || reflexivity).
  cbv zeta. cbn [distrlock.Key distrlock.token l1 Postgres.atTime Postgres.withTable
                   Postgres.lockTable Postgres.NOW].
  rewrite (proj1 (release_affects_iff t1 key now1 u)) by (apply held_after_lease; exact Hlive).
  cbn [fst snd world events Z.eqb Pos.eqb].
  set (t2 := <[key := releasedRow u]> t1).
  rewrite (Release_on_server tableName m l1 ctx u) by (assumption || reflexivity).
  rewrite (Extend_on_server tableName m l1 ctx u) by (assumption || reflexivity).
  cbv zeta. cbn [distrlock.Key distrlock.token distrlock.TTL l1 Postgres.atTime Postgres.withTable
                   Postgres.lockTable Postgres.NOW].
  rewrite (proj2 (release_affects_iff t2 key now2 u)) by apply not_held_after_release.
  rewrite (proj2 (extend_affects_iff t2 key now2 (Microseconds ttl) u))
    by apply not_held_after_release.
  cbn [fst snd Z.eqb].
  split; [reflexivity|]. split; [reflexivity|]. split; [reflexivity|].
  rewrite (acquire_free_on_server tableName key tk' u' m l' ctx ttl' _ _ Hfor Hm' Hk').
  - eexists. split; reflexivity.
  - exact Hctx.
  - exact Htk'.
  - left. apply free_after_release.
Qed.

(** X3, at work: a lease of ten minutes, released after one. *)
Lemma release_ends_the_lease_witness :
  let conn := Postgres.connection distrlock.defaultTableName in
  let a := distrlock.AcquireWithStaticToken (newHandle "job-A") (Caller 0) conn uuid0
             (10 * minute) (mkSt server0 []) in
  exists l1, fst a = Val (l1, None) /\
    let later (s : St Postgres.Server) (now : Z) := mkSt (Postgres.atTime (world s) now) (events s) in
    let r1 := distrlock.Release l1 (Caller 0) conn (later (snd a) 60000000) in
    let r2 := distrlock.Release l1 (Caller 0) conn (later (snd r1) 60000001) in
    let e2 := distrlock.Extend l1 (Caller 0) conn (later (snd r1) 60000001) in
    let a3 := distrlock.AcquireWithStaticToken (newHandle "job-A") (Caller 0) conn uuid1 minute
                (later (snd r1) 60000002) in
    fst r1 = Val None /\
    fst r2 = Val (Some distrlock.ErrLockAlreadyReleased) /\
    fst e2 = Val (Some distrlock.ErrLockAlreadyReleased) /\
    exists l3, fst a3 = Val (l3, None) /\ distrlock.Token l3 = uuid1.
Proof.
  apply (release_ends_the_lease distrlock.defaultTableName "job-A" uuid0 uuid1 uuid0 uuid1
           postgresManager (newHandle "job-A") (newHandle "job-A") (Caller 0) (10 * minute)
           minute server0 60000000 60000001 60000002 postgresManager_forPostgres).
  - split; reflexivity.
  - split; reflexivity.
  - reflexivity.
  - exists freeRow. split; [reflexivity | left; reflexivity].
  - vm_compute. reflexivity.
  - vm_compute. reflexivity.
  - vm_compute. discriminate.
Defined.

(** X4. Acquire with a token that is the text of a uuid, then let the
    lease run out: past the expiry a release and an extension through the
    holder's handle return [ErrLockAlreadyReleased] and leave the table as
    it was, the holder's uuid still in the row; an acquire with the text
    of any uuid then succeeds and puts that uuid there. *)
Theorem expired_lease_is_lost (tableName key tk tk' u u' : string) (m : distrlock.DBManager)
    (l l' : distrlock.DBLock) (ctx : Context) (ttl ttl' : Duration) (w0 : Postgres.Server)
    (now1 : Z)
    (Hfor : forPostgres tableName m)
    (Hl : distrlock.manager l = Some m /\ distrlock.Key l = key)
    (Hl' : distrlock.manager l' = Some m /\ distrlock.Key l' = key)
    (Hctx : ctx_Err ctx w0 = None)
    (Hfree : Postgres.free (Postgres.lockTable w0) key (Postgres.NOW w0))
    (Htk : Postgres.uuid_in tk = Some u)
    (Htk' : Postgres.uuid_in tk' = Some u')
    (Hpast : Postgres.NOW w0 + Microseconds ttl < now1) :
  let conn := Postgres.connection tableName in
  let a := distrlock.AcquireWithStaticToken l ctx conn tk ttl (mkSt w0 []) in
  exists l1, fst a = Val (l1, None) /\
    let s1 := mkSt (Postgres.atTime (world (snd a)) now1) (events (snd a)) in
    let r := distrlock.Release l1 ctx conn s1 in
    let e := distrlock.Extend l1 ctx conn s1 in
    let a' := distrlock.AcquireWithStaticToken l' ctx conn tk' ttl' s1 in
    fst r = Val (Some distrlock.ErrLockAlreadyReleased) /\
    Postgres.lockTable (world (snd r)) = Postgres.lockTable (world (snd a)) /\
    fst e = Val (Some distrlock.ErrLockAlreadyReleased) /\
    Postgres.lockTable (world (snd e)) = Postgres.lockTable (world (snd a)) /\
    Postgres.carries (Postgres.lockTable (world (snd a))) key u /\
    (exists l3, fst a' = Val (l3, None) /\ distrlock.Token l3 = tk') /\
    Postgres.carries (Postgres.lockTable (world (snd a'))) key u'.
Proof.
  destruct Hl as [Hm Hk], Hl' as [Hm' Hk']. cbv zeta.
  rewrite (acquire_free_on_server tableName key tk u m l ctx ttl w0 [] Hfor Hm Hk Hctx Htk
             (or_introl Hfree)).
  eexists. split; [reflexivity|]. cbn [fst snd world events].
  set (t1 := <[key := leasedRow u (Postgres.NOW w0) (Microseconds ttl)]> (Postgres.lockTable w0)).
  set (l1 := {| distrlock.Key := key; distrlock.TTL := ttl; distrlock.token := tk;
                distrlock.manager := Some m |}).
  rewrite (Release_on_server tableName m l1 ctx u) by (assumption || reflexivity).
  rewrite (Extend_on_server tableName m l1 ctx u) by (assumption || reflexivity).
  cbv zeta. cbn [distrlock.Key distrlock.token distrlock.TTL l1 Postgres.atTime Postgres.withTable
                   Postgres.lockTable Postgres.NOW].
  rewrite (proj2 (release_affects_iff t1 key now1 u)) by (apply not_held_after_expiry; exact Hpast).
  rewrite (proj2 (extend_affects_iff t1 key now1 (Microseconds ttl) u))
    by (apply not_held_after_expiry; exact Hpast).
  cbn [fst snd Z.eqb world Postgres.withTable Postgres.lockTable].
  split; [reflexivity|]. split; [reflexivity|]. split; [reflexivity|]. split; [reflexivity|].
  split; [exists (leasedRow u (Postgres.NOW w0) (Microseconds ttl));
          split; [apply lookup_insert_eq | reflexivity]|].
  rewrite (acquire_free_on_server tableName key tk' u' m l' ctx ttl' _ _ Hfor Hm' Hk').
  - split; [eexists; split; reflexivity|]. cbn [snd world Postgres.withTable Postgres.lockTable].
    eexists. split; [apply lookup_insert_eq | reflexivity].
  - exact Hctx.
  - exact Htk'.
  - left. apply free_after_expiry. exact Hpast.
Qed.

(** X4, at work: a lease of ten minutes, one microsecond after its end. *)
Lemma expired_lease_is_lost_witness :
  let conn := Postgres.connection distrlock.defaultTableName in
  let a := distrlock.AcquireWithStaticToken (newHandle "job-A") (Caller 0) conn uuid0
             (10 * minute) (mkSt server0 []) in
  exists l1, fst a = Val (l1, None) /\
    let s1 := mkSt (Postgres.atTime (world (snd a)) 600000001) (events (snd a)) in
    let r := distrlock.Release l1 (Caller 0) conn s1 in
    let e := distrlock.Extend l1 (Caller 0) conn s1 in
    let a' := distrlock.AcquireWithStaticToken (newHandle "job-A") (Caller 0) conn uuid1 minute s1 in
    fst r = Val (Some distrlock.ErrLockAlreadyReleased) /\
    Postgres.lockTable (world (snd r)) = Postgres.lockTable (world (snd a)) /\
    fst e = Val (Some distrlock.ErrLockAlreadyReleased) /\
    Postgres.lockTable (world (snd e)) = Postgres.lockTable (world (snd a)) /\
    Postgres.carries (Postgres.lockTable (world (snd a))) "job-A" uuid0 /\
    (exists l3, fst a' = Val (l3, None) /\ distrlock.Token l3 = uuid1) /\
    Postgres.carries (Postgres.lockTable (world (snd a'))) "job-A" uuid1.
Proof.
  apply (expired_lease_is_lost distrlock.defaultTableName "job-A" uuid0 uuid1 uuid0 uuid1
           postgresManager (newHandle "job-A") (newHandle "job-A") (Caller 0) (10 * minute)
           minute server0 600000001 postgresManager_forPostgres).
  - split; reflexivity.
  - split; reflexivity.
  - reflexivity.
  - exists freeRow. split; [reflexivity | left; reflexivity].
  - vm_compute. reflexivity.
  - vm_compute. reflexivity.
  - vm_compute. reflexivity.
Defined.

(** [Duration.Microseconds] drops what is left of a microsecond, toward
    zero. *)
Lemma Microseconds_bounds (d : Duration) :
  (0 <= d -> 1000 * Microseconds d <= d < 1000 * Microseconds d + 1000) /\
  (d <= 0 -> d <= 1000 * Microseconds d < d + 1000) /\
  (-1000 < d < 1000 -> Microseconds d = 0).
Proof.
  unfold Microseconds.
  pose proof (Z.quot_rem' d 1000) as Hqr.
  split; [|split].
  - intros Hd. pose proof (Z.rem_bound_pos d 1000 Hd ltac:(lia)). lia.
  - intros Hd. pose proof (Z.rem_nonpos d 1000 ltac:(lia) Hd).
    pose proof (Z.rem_bound_abs d 1000 ltac:(lia)). lia.
  - intros [Hlo Hhi]. pose proof (Z.rem_bound_abs d 1000 ltac:(lia)).
    destruct (Z.le_ge_cases 0 d) as [Hd | Hd].
    + pose proof (Z.rem_nonneg d 1000 ltac:(lia) Hd). lia.
    + pose proof (Z.rem_nonpos d 1000 ltac:(lia) Hd). lia.
Qed.

(** X5. The lease of an acquire with a token that is the text of the
    uuid [u], on a row that is free or carries [u]: the call succeeds,
    the handle keeps the TTL and the token as given, the row carries [u]
    and its expiry is the server's instant plus the TTL in whole
    microseconds, rounded toward zero.  So the lease is never longer than
    the TTL and less than a microsecond shorter; with a TTL under a
    microsecond the call succeeds and the key is free again at every
    later instant; with a TTL of minus a microsecond or less the call
    succeeds and the key is free at once. *)
Theorem Acquire_lease_in_whole_microseconds (tableName key tk u : string)
    (m : distrlock.DBManager) (l : distrlock.DBLock) (ctx : Context) (ttl : Duration)
    (w0 : Postgres.Server) (ev : list Event)
    (Hfor : forPostgres tableName m)
    (Hl : distrlock.manager l = Some m /\ distrlock.Key l = key)
    (Hctx : ctx_Err ctx w0 = None)
    (Htk : Postgres.uuid_in tk = Some u)
    (Hfree : Postgres.free (Postgres.lockTable w0) key (Postgres.NOW w0) \/
             Postgres.carries (Postgres.lockTable w0) key u) :
  let a := distrlock.AcquireWithStaticToken l ctx (Postgres.connection tableName) tk ttl
             (mkSt w0 ev) in
  let t' := Postgres.lockTable (world (snd a)) in
  exists l1 e,
    fst a = Val (l1, None) /\ distrlock.TTL l1 = ttl /\ distrlock.Token l1 = tk /\
    t' !! key = Some {| Postgres.tok := Some u; Postgres.expire_at := Some e |} /\
    (0 <= ttl -> 1000 * (e - Postgres.NOW w0) <= ttl < 1000 * (e - Postgres.NOW w0) + 1000) /\
    (-1000 < ttl < 1000 ->
       e = Postgres.NOW w0 /\ forall now, Postgres.NOW w0 < now -> Postgres.free t' key now) /\
    (ttl <= -1000 -> Postgres.free t' key (Postgres.NOW w0)).
Proof.
  destruct Hl as [Hm Hk]. cbv zeta.
  rewrite (acquire_free_on_server tableName key tk u m l ctx ttl w0 ev Hfor Hm Hk Hctx Htk Hfree).
  cbn [fst snd world Postgres.withTable Postgres.lockTable].
  destruct (Microseconds_bounds ttl) as (Hpos & Hneg & Hsmall).
  eexists _, (Postgres.NOW w0 + Microseconds ttl).
  split; [reflexivity|]. split; [reflexivity|]. split; [reflexivity|].
  split; [apply lookup_insert_eq|].
  split; [intros Hd; specialize (Hpos Hd); lia|]. split.
  - intros Hs. rewrite (Hsmall Hs). split; [lia|].
    intros now Hnow. apply free_after_expiry. lia.
  - intros Hd. apply free_after_expiry. specialize (Hneg ltac:(lia)). lia.
Qed.

(** X5, at work: a TTL of 999 nanoseconds. *)
Lemma Acquire_lease_in_whole_microseconds_witness :
  let a := distrlock.AcquireWithStaticToken (newHandle "job-A") (Caller 0)
             (Postgres.connection distrlock.defaultTableName) uuid0 999 (mkSt server0 []) in
  exists l1, fst a = Val (l1, None) /\
    forall now, 0 < now -> Postgres.free (Postgres.lockTable (world (snd a))) "job-A" now.
Proof.
  cbv zeta.
  destruct (Acquire_lease_in_whole_microseconds distrlock.defaultTableName "job-A" uuid0 uuid0
              postgresManager (newHandle "job-A") (Caller 0) 999 server0 []
              postgresManager_forPostgres (conj eq_refl eq_refl) eq_refl
              ltac:(vm_compute; reflexivity)
              (or_introl (ex_intro _ freeRow (conj eq_refl (or_introl eq_refl)))))
    as (l1 & e & Ha & _ & _ & _ & _ & Hsmall & _).
  exists l1. split; [exact Ha|].
  exact (proj2 (Hsmall ltac:(lia))).
Defined.

(** ** The lock table over histories *)

Lemma update_where_other (key key' : string) (cond : Postgres.LockRow -> Postgres.bool3)
    (set : Postgres.LockRow -> Postgres.LockRow) (t : gmap string Postgres.LockRow) :
  key' <> key -> fst (Postgres.update_where key cond set t) !! key' = t !! key'.
Proof.
  intros Hne.
  destruct (update_where_cases key cond set t) as [(r & _ & _ & ->) | (_ & ->)]; simpl;
    [apply lookup_insert_ne; congruence | reflexivity].
Qed.

Lemma update_where_same (key : string) (cond : Postgres.LockRow -> Postgres.bool3)
    (set : Postgres.LockRow -> Postgres.LockRow) (t : gmap string Postgres.LockRow) :
  match t !! key with
  | Some r => fst (Postgres.update_where key cond set t) !! key = Some r \/
              fst (Postgres.update_where key cond set t) !! key = Some (set r)
  | None => fst (Postgres.update_where key cond set t) !! key = None
  end.
Proof.
  unfold Postgres.update_where. destruct (t !! key) as [r|] eqn:Hr; [|simpl; exact Hr].
  destruct (Postgres.holds (cond r)); simpl; [right; apply lookup_insert_eq | left; exact Hr].
Qed.

Lemma apply_other (now : Z) (op : Postgres.Op) (t : gmap string Postgres.LockRow) (key : string) :
  key <> keyOf op -> Postgres.apply now op t !! key = t !! key.
Proof.
  intros Hne. destruct op as [k | i tk k | k tk | i k tk]; simpl in *;
    try (apply update_where_other; exact Hne).
  unfold Postgres.initLockStmt. destruct (t !! k); simpl;
    [reflexivity | apply lookup_insert_ne; congruence].
Qed.

Lemma apply_keeps_rows (now : Z) (op : Postgres.Op) (t : gmap string Postgres.LockRow)
    (key : string) :
  is_Some (t !! key) -> is_Some (Postgres.apply now op t !! key).
Proof.
  intros [r Hr]. destruct (String.eqb_spec key (keyOf op)) as [Heq | Hne];
    [|rewrite apply_other by exact Hne; eauto].
  destruct op as [k | i tk k | k tk | i k tk]; simpl in *; subst k.
  - unfold Postgres.initLockStmt. rewrite Hr. simpl. eauto.
  - unfold Postgres.acquireLockStmt.
    match goal with |- context [Postgres.update_where ?k ?c ?f t] =>
      pose proof (update_where_same k c f t) as Hs end.
    rewrite Hr in Hs. destruct Hs as [-> | ->]; eauto.
  - unfold Postgres.releaseLockStmt.
    match goal with |- context [Postgres.update_where ?k ?c ?f t] =>
      pose proof (update_where_same k c f t) as Hs end.
    rewrite Hr in Hs. destruct Hs as [-> | ->]; eauto.
  - unfold Postgres.extendLockStmt.
    match goal with |- context [Postgres.update_where ?k ?c ?f t] =>
      pose proof (update_where_same k c f t) as Hs end.
    rewrite Hr in Hs. destruct Hs as [-> | ->]; eauto.
Qed.

(** X6. The statements of the protocol as updates of the lock table:
    (1) a row, once there, is there after any history: no statement
    deletes it; (2) an operation leaves the rows of all other keys as they
    are, so a history with no operation on a key leaves its row as it is;
    (3) only the insert of [NewLock] creates a row, and the row it creates
    has no token and no expiry; (4) only an acquire changes the token of a
    row: a release and an extension keep it. *)
Theorem lock_table_invariants :
  (forall (h : list (Z * Postgres.Op)) (t : gmap string Postgres.LockRow) key,
     is_Some (t !! key) -> is_Some (Postgres.replay h t !! key)) /\
  (forall (h : list (Z * Postgres.Op)) (t : gmap string Postgres.LockRow) key,
     Forall (fun c => keyOf (snd c) <> key) h -> Postgres.replay h t !! key = t !! key) /\
  (forall now op (t : gmap string Postgres.LockRow) key r,
     t !! key = None -> Postgres.apply now op t !! key = Some r ->
     op = Postgres.OpInit key /\ r = {| Postgres.tok := None; Postgres.expire_at := None |}) /\
  (forall now op (t : gmap string Postgres.LockRow) key r r',
     t !! key = Some r -> Postgres.apply now op t !! key = Some r' ->
     Postgres.tok r' <> Postgres.tok r ->
     exists i tk, op = Postgres.OpAcquire i tk key /\ Postgres.tok r' = Some tk).
Proof.
  split; [|split; [|split]].
  - intros h. induction h as [|[now op] h IH]; intros t key Hin; simpl; [exact Hin|].
    apply IH, apply_keeps_rows, Hin.
  - intros h. induction h as [|[now op] h IH]; intros t key Hall; simpl; [reflexivity|].
    apply Forall_cons in Hall as [Hne Hall]. simpl in Hne.
    rewrite (IH _ _ Hall). apply apply_other. congruence.
  - intros now op t key r Hnone Hsome.
    destruct (String.eqb_spec key (keyOf op)) as [Heq | Hne];
      [|rewrite apply_other in Hsome by exact Hne; congruence].
    destruct op as [k | i tk k | k tk | i k tk]; simpl in *; subst k.
    + unfold Postgres.initLockStmt in Hsome. rewrite Hnone in Hsome. simpl in Hsome.
      rewrite lookup_insert_eq in Hsome. injection Hsome as <-. split; reflexivity.
    + unfold Postgres.acquireLockStmt in Hsome.
      match type of Hsome with context [Postgres.update_where ?k ?c ?f t] =>
        pose proof (update_where_same k c f t) as Hs end.
      rewrite Hnone in Hs. congruence.
    + unfold Postgres.releaseLockStmt in Hsome.
      match type of Hsome with context [Postgres.update_where ?k ?c ?f t] =>
        pose proof (update_where_same k c f t) as Hs end.
      rewrite Hnone in Hs. congruence.
    + unfold Postgres.extendLockStmt in Hsome.
      match type of Hsome with context [Postgres.update_where ?k ?c ?f t] =>
        pose proof (update_where_same k c f t) as Hs end.
      rewrite Hnone in Hs. congruence.
  - intros now op t key r r' Hr Hr' Hdiff.
    destruct (String.eqb_spec key (keyOf op)) as [Heq | Hne];
      [|rewrite apply_other in Hr' by exact Hne; congruence].
    destruct op as [k | i tk k | k tk | i k tk]; simpl in *; subst k.
    + unfold Postgres.initLockStmt in Hr'. rewrite Hr in Hr'. simpl in Hr'. congruence.
    + unfold Postgres.acquireLockStmt in Hr'.
      match type of Hr' with context [Postgres.update_where ?k ?c ?f t] =>
        pose proof (update_where_same k c f t) as Hs end.
      rewrite Hr in Hs. destruct Hs as [Hs | Hs]; rewrite Hs in Hr'; injection Hr' as <-;
        [congruence|]. exists i, tk. split; reflexivity.
    + unfold Postgres.releaseLockStmt in Hr'.
      match type of Hr' with context [Postgres.update_where ?k ?c ?f t] =>
        pose proof (update_where_same k c f t) as Hs end.
      rewrite Hr in Hs. destruct Hs as [Hs | Hs]; rewrite Hs in Hr'; injection Hr' as <-;
        simpl in Hdiff; congruence.
    + unfold Postgres.extendLockStmt in Hr'.
      match type of Hr' with context [Postgres.update_where ?k ?c ?f t] =>
        pose proof (update_where_same k c f t) as Hs end.
      rewrite Hr in Hs. destruct Hs as [Hs | Hs]; rewrite Hs in Hr'; injection Hr' as <-;
        simpl in Hdiff; congruence.
Qed.

(** ** The extension goroutine *)

Section ExtensionProps.
Context {W : Type} `{ContextEnv W} `{SqlEnv W}.

(** [DoInTx] around a function, step by step. *)
Lemma DoInTx_run {A : Type} (ctx : Context) (dbConn : DB) (captured : A)
    (fn : Tx -> A -> M W (A * option error)) (s : St W) :
  let b := db_BeginTx ctx dbConn None (world s) in
  let tx := fst (fst b) in
  let s1 := mkSt (snd b) (events s ++ [EvBeginTx ctx dbConn None]) in
  dbkit.DoInTx ctx dbConn captured fn s
  = match snd (fst b) with
    | Some cause => (Val (captured, Some (fmt_Errorf_w "begin tx: " cause)), s1)
    | None =>
        match fn tx captured s1 with
        | (Panicked p, s2) =>
            (Panicked p, mkSt (snd (tx_Rollback tx (world s2))) (events s2 ++ [EvRollback tx]))
        | (Val (a, Some e), s2) =>
            (Val (a, Some e),
             mkSt (snd (tx_Rollback tx (world s2))) (events s2 ++ [EvRollback tx]))
        | (Val (a, None), s2) =>
            (Val (a, option_map (fmt_Errorf_w "commit tx: ") (fst (tx_Commit tx (world s2)))),
             mkSt (snd (tx_Commit tx (world s2))) (events s2 ++ [EvCommit tx]))
        end
    end.
Proof.
  cbv zeta.
  unfold dbkit.DoInTx, dbkit.DoInTxWithOpts, dbkit.BeginTx, dbkit.Commit, dbkit.Rollback, bind, ret.
  rewrite prim_run.
  destruct (db_BeginTx ctx dbConn None (world s)) as [[tx err] w1]; cbn [fst snd].
  destruct err as [cause|]; [reflexivity|].
  destruct (fn tx captured _) as [[[a [e|]]|p] s2]; rewrite prim_run; cbn [fst snd];
    try reflexivity.
  destruct (fst (tx_Commit tx (world s2))); reflexivity.
Qed.

Lemma Is_wrapped_released (p : string) (c : error) :
  Is (fmt_Errorf_w p c) distrlock.ErrLockAlreadyReleased = Is c distrlock.ErrLockAlreadyReleased.
Proof. reflexivity. Qed.

(** One firing of the extension ticker, step by step. *)
Lemma extendTick_run (l : distrlock.DBLock) (m : distrlock.DBManager)
    (ctx : Context) (dbConn : DB) (newCtx : Context) (s : St W) :
  distrlock.manager l = Some m ->
  let q := distrlock.extendLock (distrlock.queries m) in
  let args := [distrlock.intervalMaker (distrlock.queries m) (distrlock.TTL l);
               distrlock.Key l; distrlock.token l] in
  let b := db_BeginTx ctx dbConn None (world s) in
  let tx := fst (fst b) in
  let x := ExecContext (tx_Executor tx) ctx q args (snd b) in
  let afterError (e : error) (w : W) (evs : list Event) : outcome bool * St W :=
    if Is e distrlock.ErrLockAlreadyReleased
    then (Val false,
          mkSt (ctx_cancel newCtx w)
            (events s ++ evs ++ [EvLogError "failed to extend db lock" e; EvCancel newCtx]))
    else (Val true, mkSt w (events s ++ evs ++ [EvLogError "failed to extend db lock" e])) in
  distrlock.extendTick l ctx dbConn newCtx s
  = match snd (fst b) with
    | Some cause =>
        afterError (fmt_Errorf_w "begin tx: " cause) (snd b) [EvBeginTx ctx dbConn None]
    | None =>
        match verdict (snd (fst x)) (ctx_Err ctx (snd x)) (RowsAffected (fst (fst x)))
                distrlock.ErrLockAlreadyReleased with
        | Some e =>
            afterError e (snd (tx_Rollback tx (snd x)))
              [EvBeginTx ctx dbConn None; EvExec ctx q args; EvRollback tx]
        | None =>
            match fst (tx_Commit tx (snd x)) with
            | Some cause =>
                afterError (fmt_Errorf_w "commit tx: " cause) (snd (tx_Commit tx (snd x)))
                  [EvBeginTx ctx dbConn None; EvExec ctx q args; EvCommit tx]
            | None =>
                (Val true,
                 mkSt (snd (tx_Commit tx (snd x)))
                   (events s ++ [EvBeginTx ctx dbConn None; EvExec ctx q args; EvCommit tx]))
            end
        end
    end.
Proof.
  intros Hm. cbv zeta.
  unfold distrlock.extendTick. rewrite bind_run, DoInTx_run. cbv zeta.
  destruct (db_BeginTx ctx dbConn None (world s)) as [[tx berr] w1]; cbn [fst snd].
  destruct berr as [cause|].
  { cbn [snd]. unfold distrlock.logError, distrlock.cancel. rewrite bind_run, prim_run.
    cbn [fst snd]. destruct (Is _ _); [rewrite bind_run, prim_run|]; unfold ret;
      cbn [fst snd world events]; rewrite <- !app_assoc; reflexivity. }
  unfold bind at 1. rewrite (Extend_run l m) by exact Hm. cbv zeta. cbn [world events].
  destruct (ExecContext (tx_Executor tx) ctx _ _ w1) as [[res xerr] w2]; cbn [fst snd].
  unfold ret at 1.
  destruct (verdict xerr (ctx_Err ctx w2) (RowsAffected res) distrlock.ErrLockAlreadyReleased)
    as [e|]; cbn [snd world events].
  - unfold distrlock.logError, distrlock.cancel. rewrite bind_run, prim_run.
    cbn [fst snd]. destruct (Is _ _); [rewrite bind_run, prim_run|]; unfold ret;
      cbn [fst snd world events]; rewrite <- !app_assoc; reflexivity.
  - destruct (tx_Commit tx w2) as [[cme|] w3]; cbn [fst snd option_map].
    + unfold distrlock.logError, distrlock.cancel. rewrite bind_run, prim_run.
      cbn [fst snd]. destruct (Is _ _); [rewrite bind_run, prim_run|]; unfold ret;
        cbn [fst snd world events]; rewrite <- !app_assoc; reflexivity.
    + unfold ret. rewrite <- !app_assoc. reflexivity.
Qed.

(** X7. One firing of the extension ticker, for a handle with a manager,
    when the errors of the pool, the driver and the context are not
    [ErrLockAlreadyReleased] themselves.  The goroutine stops exactly when
    the transaction began, the extend statement ran without error under a
    context still alive and affected a number of rows other than one: the
    lease is lost.  Then the transaction is rolled back, the error is
    logged and the context handed to the user function is cancelled.  In
    every other case (success; begin, statement or commit failure; the
    caller's context done) the goroutine goes on with the next firing and
    cancels nothing. *)
Theorem extension_stops_on_lost_lease (l : distrlock.DBLock) (m : distrlock.DBManager)
    (ctx : Context) (dbConn : DB) (newCtx : Context) (s : St W)
    (Hm : distrlock.manager l = Some m) :
  let q := distrlock.extendLock (distrlock.queries m) in
  let args := [distrlock.intervalMaker (distrlock.queries m) (distrlock.TTL l);
               distrlock.Key l; distrlock.token l] in
  let b := db_BeginTx ctx dbConn None (world s) in
  let tx := fst (fst b) in
  let x := ExecContext (tx_Executor tx) ctx q args (snd b) in
  let lost := snd (fst b) = None /\ snd (fst x) = None /\ ctx_Err ctx (snd x) = None /\
              exists n, RowsAffected (fst (fst x)) = (n, None) /\ n <> 1 in
  let out := distrlock.extendTick l ctx dbConn newCtx s in
  foreign (snd (fst b)) -> foreign (snd (fst x)) -> foreign (ctx_Err ctx (snd x)) ->
  foreign (snd (RowsAffected (fst (fst x)))) -> foreign (fst (tx_Commit tx (snd x))) ->
  (fst out = Val false <-> lost) /\
  (~ lost -> fst out = Val true /\
     exists tail, events (snd out) = (events s ++ tail)%list /\
                  forall c, ~ In (EvCancel c) tail) /\
  (lost ->
     snd out
     = mkSt (ctx_cancel newCtx (snd (tx_Rollback tx (snd x))))
         (events s ++ [EvBeginTx ctx dbConn None; EvExec ctx q args; EvRollback tx;
                       EvLogError "failed to extend db lock" distrlock.ErrLockAlreadyReleased;
                       EvCancel newCtx])).
Proof.
  cbv zeta. intros Fb Fx Fc Fr Fm.
  remember (distrlock.extendTick l ctx dbConn newCtx s) as out eqn:Hout.
  rewrite (extendTick_run l m ctx dbConn newCtx s Hm) in Hout. cbv zeta in Hout.
  destruct (db_BeginTx ctx dbConn None (world s)) as [[tx berr] w1]; cbn [fst snd] in *.
  destruct berr as [cause|].
  { rewrite Is_wrapped_released, (Fb cause eq_refl) in Hout. subst out. cbn [fst snd events].
    split; [split; [discriminate | intros (Hb & _); discriminate]|].
    split; [|intros (Hb & _); discriminate].
    intros _. split; [reflexivity|]. eexists. split; [reflexivity|].
    intros c [Hc | [Hc | []]]; discriminate. }
  destruct (ExecContext (tx_Executor tx) ctx _ _ w1) as [[res xerr] w2]; cbn [fst snd] in *.
  destruct xerr as [xe|].
  { cbn [verdict] in Hout. rewrite (Fx xe eq_refl) in Hout. subst out. cbn [fst snd events].
    split; [split; [discriminate | intros (_ & Hx & _); discriminate]|].
    split; [|intros (_ & Hx & _); discriminate].
    intros _. split; [reflexivity|]. eexists. split; [reflexivity|].
    intros c [Hc | [Hc | [Hc | [Hc | []]]]]; discriminate. }
  destruct (ctx_Err ctx w2) as [ce|].
  { cbn [verdict] in Hout. rewrite (Fc ce eq_refl) in Hout. subst out. cbn [fst snd events].
    split; [split; [discriminate | intros (_ & _ & Hx & _); discriminate]|].
    split; [|intros (_ & _ & Hx & _); discriminate].
    intros _. split; [reflexivity|]. eexists. split; [reflexivity|].
    intros c [Hc | [Hc | [Hc | [Hc | []]]]]; discriminate. }
  destruct (RowsAffected res) as [n [re|]]; cbn [fst snd] in *.
  { cbn [verdict] in Hout. rewrite (Fr re eq_refl) in Hout. subst out. cbn [fst snd events].
    split; [split; [discriminate | intros (_ & _ & _ & n' & Hx & _); discriminate]|].
    split; [|intros (_ & _ & _ & n' & Hx & _); discriminate].
    intros _. split; [reflexivity|]. eexists. split; [reflexivity|].
    intros c [Hc | [Hc | [Hc | [Hc | []]]]]; discriminate. }
  cbn [verdict] in Hout. destruct (Z.eqb_spec n 1) as [-> | Hn].
  - destruct (tx_Commit tx w2) as [[cme|] w3]; cbn [fst snd] in *.
    + rewrite Is_wrapped_released, (Fm cme eq_refl) in Hout. subst out. cbn [fst snd events].
      split; [split; [discriminate | intros (_ & _ & _ & n' & [= <-] & Hx); contradiction]|].
      split; [|intros (_ & _ & _ & n' & [= <-] & Hx); contradiction].
      intros _. split; [reflexivity|]. eexists. split; [reflexivity|].
      intros c [Hc | [Hc | [Hc | [Hc | []]]]]; discriminate.
    + subst out. cbn [fst snd events].
      split; [split; [discriminate | intros (_ & _ & _ & n' & [= <-] & Hx); contradiction]|].
      split; [|intros (_ & _ & _ & n' & [= <-] & Hx); contradiction].
      intros _. split; [reflexivity|]. eexists. split; [reflexivity|].
      intros c [Hc | [Hc | [Hc | []]]]; discriminate.
  - change (Is distrlock.ErrLockAlreadyReleased distrlock.ErrLockAlreadyReleased) with true in Hout.
    subst out. cbn [fst snd events].
    split; [split; [intros _ | reflexivity]|].
    { split; [reflexivity|]. split; [reflexivity|]. split; [reflexivity|].
      exists n. split; [reflexivity | exact Hn]. }
    split; [|intros _; reflexivity].
    intros Hnot. exfalso. apply Hnot.
    split; [reflexivity|]. split; [reflexivity|]. split; [reflexivity|].
    exists n. split; [reflexivity | exact Hn].
Qed.

End ExtensionProps.

(** X7, at work: on the scripted world whose statements affect no row the
    goroutine stops and cancels the derived context. *)
Lemma extension_stops_on_lost_lease_witness :
  let out := distrlock.extendTick (acquiredHandle "job-A" uuid0 (3 * second)) (Caller 0) 0%nat
               (WithCancel (Caller 0)) (mkSt (Mock.happy 0) []) in
  fst out = Val false /\
  events (snd out)
  = [EvBeginTx (Caller 0) 0%nat None;
     EvExec (Caller 0) (distrlock.extendLock (distrlock.queries postgresManager))
       ["3000000 microseconds"; "job-A"; uuid0];
     EvRollback 1%nat;
     EvLogError "failed to extend db lock" distrlock.ErrLockAlreadyReleased;
     EvCancel (WithCancel (Caller 0))].
Proof.
  pose proof (@extension_stops_on_lost_lease Mock.World _ _
                (acquiredHandle "job-A" uuid0 (3 * second)) postgresManager (Caller 0) 0%nat
                (WithCancel (Caller 0)) (mkSt (Mock.happy 0) []) eq_refl) as Hthm.
  cbv zeta in Hthm.
  destruct Hthm as (Hiff & _ & Hlost); try (intros c Hc; vm_compute in Hc; discriminate).
  assert (Hl : Mock.onBegin (Mock.happy 0) = None /\ @None error = None /\ @None error = None /\
               exists n, (0, @None error) = (n, None) /\ n <> 1).
  { split; [reflexivity|]. split; [reflexivity|]. split; [reflexivity|].
    exists 0. split; [reflexivity | discriminate]. }
  cbv zeta. split; [exact (proj2 Hiff Hl)|].
  rewrite (Hlost Hl). reflexivity.
Defined.

(** ** What a run of [DoExclusively] does to the world *)

Section TraceProps.
Context {W : Type} `{ContextEnv W} `{SqlEnv W} `{UuidEnv W}.
Variable P : Event -> Prop.





Lemma adds_weaken {A : Type} (Q Q' : A -> Prop) (m : M W A) :
  adds P Q m -> (forall a, Q a -> Q' a) -> adds P Q' m.
Proof.
  intros Hm Himp s. destruct (Hm s) as (t & He & Hf & HQ).
  exists t. split; [exact He|]. split; [exact Hf|]. intros a Ha. apply Himp, HQ, Ha.
Qed.



End TraceProps.

Section OwnLease.
Context {W : Type} `{ContextEnv W} `{SqlEnv W} `{UuidEnv W}.
Variables (m : distrlock.DBManager) (key uuid : string) (ttl : Duration).
Variables (ctx : Context) (dbConn : DB) (releaseTimeout : Duration).
Variable l1 : distrlock.DBLock.
Hypothesis Hl1 : l1 = {| distrlock.Key := key; distrlock.TTL := ttl; distrlock.token := uuid;
                         distrlock.manager := Some m |}.






End OwnLease.

Section OwnLeaseTheorem.
Context {W : Type} `{ContextEnv W} `{SqlEnv W} `{UuidEnv W}.


End OwnLeaseTheorem.


(** ** Migrations *)

Section MigrateProps.
Context {W : Type}.
Implicit Types (m : migrate.Migration W).

Lemma convertMigration_plain m :
  migrate.RawMigration m = None \/ migrate.RawMigration m = Some (None, None) ->
  (convertible m ->
     migrate.convertMigration m
     = (Some {| migrate.Id := migrate.ID m; migrate.Up := migrate.UpSQL m;
                migrate.Down := migrate.DownSQL m;
                migrate.DisableTransactionUp := default false (migrate.DisableTx m);
                migrate.DisableTransactionDown := default false (migrate.DisableTx m) |}, None)) /\
  (~ convertible m ->
     exists format, migrate.convertMigration m = (None, Some (fmt_Errorf format [migrate.ID m]))).
Proof.
  intros Hplain. unfold convertible, migrate.convertMigration.
  destruct Hplain as [Hp | Hp]; rewrite Hp; cbv zeta;
    destruct (migrate.UpSQL m) as [|u us], (migrate.UpFn m) as [f|],
      (migrate.DownFn m) as [g|], (migrate.DownSQL m) as [|d ds];
    cbn [length Nat.eqb migrate.isNil negb andb orb];
    (split;
     [ intros (H1 & H2 & H3);
       first [ congruence | destruct H3; congruence | reflexivity ]
     | intros Hnot;
       first [ eexists; reflexivity
             | exfalso; apply Hnot; split; [discriminate|]; split; [reflexivity|];
               first [left; reflexivity | right; reflexivity] ] ]).
Qed.

Lemma convertible_dec m : convertible m \/ ~ convertible m.
Proof.
  unfold convertible. destruct (migrate.UpSQL m), (migrate.UpFn m), (migrate.DownFn m),
    (migrate.DownSQL m); try (left; repeat split; auto; discriminate);
    right; intros (Hu & Hf & [Hg | Hd]); congruence.
Qed.

(** Of the pointer and the error [convertMigration] returns, exactly one
    is nil. *)
Lemma convertMigration_one_nil m :
  fst (migrate.convertMigration m) = None <-> snd (migrate.convertMigration m) <> None.
Proof.
  destruct (migrate.RawMigration m) as [[raw [err|]]|] eqn:Hraw.
  - unfold migrate.convertMigration. rewrite Hraw. destruct raw; cbn [fst snd];
      (split; [intros _; discriminate | intros _; reflexivity]).
  - destruct raw as [raw|].
    + unfold migrate.convertMigration. rewrite Hraw. cbn [fst snd].
      split; [intros [=] | intros Hn; contradiction].
    + destruct (convertMigration_plain m (or_intror Hraw)) as [Hyes Hno].
      destruct (convertible_dec m) as [Hc | Hc];
        [rewrite (Hyes Hc) | destruct (Hno Hc) as [format ->]]; cbn;
        split; congruence.
  - destruct (convertMigration_plain m (or_introl Hraw)) as [Hyes Hno].
    destruct (convertible_dec m) as [Hc | Hc];
      [rewrite (Hyes Hc) | destruct (Hno Hc) as [format ->]]; cbn;
      split; congruence.
Qed.

(** X9. [convertMigration].  Exactly one of the pointer and the error it
    returns is nil.  A migration that does not take over through
    [RawMigrator] (not implemented, or [RawMigration] returned nil and
    nil) is converted exactly when it has statements for [UpSQL], no
    [UpFn], and not both [DownFn] and statements for [DownSQL]; the result
    then carries the ID and the two statement lists unchanged, and
    [DisableTx()] (false without [TxDisabler]) for both directions.  So a
    migration with an [UpFn] is never converted.  A non-nil migration from
    [RawMigration] is returned as it is, whatever the methods say, and an
    error from it is returned wrapped. *)
Theorem convertMigration_accepts m :
  let plain := migrate.RawMigration m = None \/ migrate.RawMigration m = Some (None, None) in
  (fst (migrate.convertMigration m) = None <-> snd (migrate.convertMigration m) <> None) /\
  (plain -> convertible m ->
     migrate.convertMigration m
     = (Some {| migrate.Id := migrate.ID m; migrate.Up := migrate.UpSQL m;
                migrate.Down := migrate.DownSQL m;
                migrate.DisableTransactionUp := default false (migrate.DisableTx m);
                migrate.DisableTransactionDown := default false (migrate.DisableTx m) |}, None)) /\
  (plain -> ~ convertible m ->
     exists format, migrate.convertMigration m = (None, Some (fmt_Errorf format [migrate.ID m]))) /\
  (plain -> migrate.UpFn m <> None -> snd (migrate.convertMigration m) <> None) /\
  (forall raw, migrate.RawMigration m = Some (Some raw, None) ->
     migrate.convertMigration m = (Some raw, None)) /\
  (forall raw err, migrate.RawMigration m = Some (raw, Some err) ->
     exists wrapped, migrate.convertMigration m = (None, Some wrapped) /\
                     Unwrap wrapped = Some err).
Proof.
  cbv zeta.
  split; [exact (convertMigration_one_nil m)|].
  split; [intros Hplain; exact (proj1 (convertMigration_plain m Hplain))|].
  split; [intros Hplain; exact (proj2 (convertMigration_plain m Hplain))|].
  split; [|split].
  - intros Hplain Hfn. destruct (proj2 (convertMigration_plain m Hplain)) as [format ->];
      [intros (_ & Hf & _); contradiction | cbn; discriminate].
  - intros raw Hraw. unfold migrate.convertMigration. rewrite Hraw. reflexivity.
  - intros raw err Hraw. unfold migrate.convertMigration. rewrite Hraw.
    destruct raw; eexists; split; reflexivity.
Qed.

End MigrateProps.

Section RunLimitProps.
Context {W : Type} `{migrate.MigrateEnv W}.
Implicit Types (m : migrate.Migration W) (mm : migrate.MigrationsManager).

(** The loop of [RunLimit] over migrations that pass, and up to the first
    one that does not. *)
Lemma convertFrom_passes (i : Z) (migrations : list (migrate.Migration W)) :
  Forall passes migrations ->
  migrate.convertFrom i migrations
  = inl (map (fun m => fst (migrate.convertMigration m)) migrations).
Proof.
  revert i. induction migrations as [|m rest IH]; intros i Hall; simpl; [reflexivity|].
  apply Forall_cons in Hall as [[Hid Hconv] Hall].
  destruct (String.eqb_spec (migrate.ID m) EmptyString) as [Heq | _]; [contradiction|].
  destruct (migrate.convertMigration m) as [c e]. simpl in Hconv. subst e.
  rewrite (IH _ Hall). reflexivity.
Qed.

Lemma convertFrom_first_bad (i : Z) (pre post : list (migrate.Migration W)) m :
  Forall passes pre -> ~ passes m ->
  exists err,
    migrate.convertFrom i (pre ++ m :: post) = inr err /\
    (migrate.ID m = EmptyString ->
       err = fmt_Errorf "migration #%d has empty ID" [FormatInt (i + Z.of_nat (length pre) + 1)]) /\
    (migrate.ID m <> EmptyString -> snd (migrate.convertMigration m) = Some err).
Proof.
  revert i. induction pre as [|p pre IH]; intros i Hall Hbad.
  - cbn [app length Z.of_nat migrate.convertFrom]. rewrite Z.add_0_r.
    destruct (String.eqb_spec (migrate.ID m) EmptyString) as [Heq | Hne].
    + eexists. split; [reflexivity|]. split; [reflexivity | contradiction].
    + destruct (migrate.convertMigration m) as [c [e|]] eqn:Hc.
      * exists e. split; [reflexivity|]. split; [contradiction | reflexivity].
      * exfalso. apply Hbad. split; [exact Hne | rewrite Hc; reflexivity].
  - apply Forall_cons in Hall as [[Hid Hconv] Hall].
    cbn [app migrate.convertFrom].
    destruct (String.eqb_spec (migrate.ID p) EmptyString) as [Heq | _]; [contradiction|].
    destruct (migrate.convertMigration p) as [c e]. simpl in Hconv. subst e.
    destruct (IH (i + 1) Hall Hbad) as (err & -> & Hempty & Hconv).
    exists err. split; [reflexivity|]. split; [|exact Hconv].
    intros Hid'. rewrite (Hempty Hid'). do 3 f_equal. cbn [length]. lia.
Qed.

(** X10. [RunLimit] checks before it runs anything.  When the migrations
    before one that does not pass all pass, the call returns the error of
    that one, whatever the direction and the limit, and sql-migrate is not
    called (the state is as before): for an empty ID the error names the
    position in the list counted from one, otherwise it is the error of
    [convertMigration]. *)
Theorem RunLimit_rejects_first_bad_migration mm (pre post : list (migrate.Migration W)) m
    (direction : migrate.MigrationsDirection) (limit : Z) (s : St W)
    (Hpre : Forall passes pre)
    (Hbad : ~ passes m) :
  exists err,
    migrate.RunLimit mm (pre ++ m :: post) direction limit s = (Val (Some err), s) /\
    (migrate.ID m = EmptyString ->
       err = fmt_Errorf "migration #%d has empty ID" [FormatInt (Z.of_nat (length pre) + 1)]) /\
    (migrate.ID m <> EmptyString -> snd (migrate.convertMigration m) = Some err).
Proof.
  destruct (convertFrom_first_bad 0 pre post m Hpre Hbad) as (err & Hrun & Hempty & Hconv).
  exists err. unfold migrate.RunLimit. rewrite Hrun.
  split; [reflexivity|]. split; [exact Hempty | exact Hconv].
Qed.

(** [RunLimit] with the direction [up] or [down], on migrations that
    pass: one call of sql-migrate. *)
Lemma RunLimit_calls_ExecMax mm (migrations : list (migrate.Migration W))
    (direction : migrate.MigrationsDirection) (limit : Z) (s : St W) :
  Forall passes migrations ->
  direction = migrate.MigrationsDirectionUp \/ direction = migrate.MigrationsDirectionDown ->
  let r := migrate.ExecMax (migrate.migSet mm) (migrate.db mm) (migrate.Dialect mm)
             (map (fun m => fst (migrate.convertMigration m)) migrations)
             (if String.eqb direction migrate.MigrationsDirectionUp
              then migrate.SqlUp else migrate.SqlDown)
             limit (world s) in
  migrate.RunLimit mm migrations direction limit s
  = (Val (snd (fst r)),
     mkSt (snd r)
       (events s ++ match snd (fst r) with
                    | Some e => [EvLogError "db migration failed" e]
                    | None => []
                    end)).
Proof.
  intros Hall Hdir. cbv zeta. unfold migrate.RunLimit.
  rewrite (convertFrom_passes 0 migrations Hall). cbv zeta.
  destruct Hdir as [-> | ->];
    [ replace (String.eqb migrate.MigrationsDirectionUp migrate.MigrationsDirectionUp)
        with true by reflexivity
    | replace (String.eqb migrate.MigrationsDirectionDown migrate.MigrationsDirectionUp)
        with false by reflexivity;
      replace (String.eqb migrate.MigrationsDirectionDown migrate.MigrationsDirectionDown)
        with true by reflexivity ];
    rewrite bind_run;
    match goal with |- context [migrate.ExecMax ?a ?b ?c ?d ?e ?f ?g] =>
      destruct (migrate.ExecMax a b c d e f g) as [[n [e0|]] w']
    end; cbn [fst snd];
    try (rewrite bind_run, prim_run; reflexivity);
    unfold ret; rewrite app_nil_r; destruct s; reflexivity.
Qed.

(** X11. [RunLimit] on migrations that all pass.  With a direction other
    than [up] and [down] it returns the error [unknown direction], made
    from the zero direction of sql-migrate and not from the direction
    given, and sql-migrate is not called.  With [up] or [down] sql-migrate
    is called once, with the table and the dialect of the manager, the
    converted migrations in the order given, none of them a nil pointer,
    the direction and the limit; its error is returned as it is, after it
    went to the log. *)
Theorem RunLimit_runs_what_passes mm (migrations : list (migrate.Migration W))
    (direction : migrate.MigrationsDirection) (limit : Z) (s : St W)
    (Hall : Forall passes migrations) :
  let converted := map (fun m => fst (migrate.convertMigration m)) migrations in
  let run (dir : migrate.SqlDirection) :=
    migrate.ExecMax (migrate.migSet mm) (migrate.db mm) (migrate.Dialect mm) converted dir limit
      (world s) in
  let after (r : (Z * option error) * W) :=
    (Val (snd (fst r)),
     mkSt (snd r)
       (events s ++ match snd (fst r) with
                    | Some e => [EvLogError "db migration failed" e]
                    | None => []
                    end)) in
  Forall (fun c => c <> None) converted /\
  (direction = migrate.MigrationsDirectionUp ->
     migrate.RunLimit mm migrations direction limit s = after (run migrate.SqlUp)) /\
  (direction = migrate.MigrationsDirectionDown ->
     migrate.RunLimit mm migrations direction limit s = after (run migrate.SqlDown)) /\
  (direction <> migrate.MigrationsDirectionUp -> direction <> migrate.MigrationsDirectionDown ->
     migrate.RunLimit mm migrations direction limit s
     = (Val (Some (fmt_Errorf "unknown direction %q" ["0"])), s)).
Proof.
  cbv zeta. split; [|split; [|split]].
  - apply Forall_map. eapply Forall_impl; [exact Hall|].
    intros m [_ Hconv]. cbn.
    destruct (migrate.convertMigration m) as [[c|] [e|]] eqn:Hc; cbn in *; try congruence.
    pose proof (proj1 (convertMigration_one_nil m)) as Hnil.
    rewrite Hc in Hnil. cbn in Hnil. exfalso. exact (Hnil eq_refl eq_refl).
  - intros ->. exact (RunLimit_calls_ExecMax mm migrations _ limit s Hall (or_introl eq_refl)).
  - intros ->. exact (RunLimit_calls_ExecMax mm migrations _ limit s Hall (or_intror eq_refl)).
  - intros Hup Hdown. unfold migrate.RunLimit. rewrite (convertFrom_passes 0 migrations Hall).
    cbv zeta.
    destruct (String.eqb_spec direction migrate.MigrationsDirectionUp) as [Heq | _];
      [contradiction|].
    destruct (String.eqb_spec direction migrate.MigrationsDirectionDown) as [Heq | _];
      [contradiction|].
    reflexivity.
Qed.

End RunLimitProps.

Lemma createUsers_passes : passes createUsers.
Proof. split; [discriminate | reflexivity]. Qed.

(** X10, at work: the second migration has only an [UpFn], the third has
    no ID; the error is the second one's, and nothing was run. *)
Lemma RunLimit_rejects_first_bad_migration_witness :
  migrate.RunLimit (fst (migrate.NewMigrationsManager 0%nat dbkit.DialectPostgres))
    [createUsers; onlyUpFn; migrate.NullMigration] migrate.MigrationsDirectionUp 0 (mkSt [] [])
  = (Val (Some (fmt_Errorf "migration %s should implement UpSQL" ["0002_fill"])), mkSt [] []).
Proof.
  destruct (RunLimit_rejects_first_bad_migration
              (fst (migrate.NewMigrationsManager 0%nat dbkit.DialectPostgres))
              [createUsers] [migrate.NullMigration] onlyUpFn migrate.MigrationsDirectionUp 0
              (mkSt [] []))
    as (err & Hrun & _ & Hconv).
  - apply Forall_cons. split; [exact createUsers_passes | constructor].
  - intros [_ Hc]. discriminate Hc.
  - cbn [app] in Hrun. rewrite Hrun. specialize (Hconv ltac:(discriminate)).
    cbn in Hconv. injection Hconv as <-. reflexivity.
Defined.

(** X11, at work: a direction that is neither [up] nor [down]. *)
Lemma RunLimit_runs_what_passes_witness :
  migrate.RunLimit (fst (migrate.NewMigrationsManager 0%nat dbkit.DialectPostgres))
    [createUsers] "sideways" 0 (mkSt [] [])
  = (Val (Some (fmt_Errorf "unknown direction %q" ["0"])), mkSt [] []).
Proof.
  apply (RunLimit_runs_what_passes
           (fst (migrate.NewMigrationsManager 0%nat dbkit.DialectPostgres))
           [createUsers] "sideways" 0 (mkSt [] [])).
  - apply Forall_cons. split; [exact createUsers_passes | constructor].
  - discriminate.
  - discriminate.
Defined.

(** The raw migration of the tests: while it fails, [RunLimit] fails with
    its error wrapped, whatever is pending, and runs nothing; once it
    succeeds, sql-migrate gets its migration as it is, and the last
    migration with the transaction disabled both ways. *)
Example TestMigrationsManager_supportRawMigration :
  let mm := fst (migrate.NewMigrationsManager 0%nat dbkit.DialectSQLite) in
  migrate.RunLimit mm
    [createUsers; testMigration00003RawMigration true; testMigration00004NoTransaction]
    migrate.MigrationsDirectionUp 1 (mkSt [] [])
  = (Val (Some (fmt_Errorf_w "preparing migration 00003_raw_migration failed with error: "
                  (fmt_Errorf "fake fatal error" []))), mkSt [] []) /\
  exists raw,
    world (snd (migrate.RunLimit mm
                  [createUsers; testMigration00003RawMigration false;
                   testMigration00004NoTransaction]
                  migrate.MigrationsDirectionUp 1 (mkSt [] [])))
    = [("migrations", "sqlite3",
        [fst (migrate.convertMigration createUsers); Some raw;
         Some {| migrate.Id := "00004_no_transaction";
                 migrate.Up := ["INSERT INTO users(name) VALUES ('LAMBERT')"];
                 migrate.Down := ["DELETE FROM users WHERE name='LAMBERT'"];
                 migrate.DisableTransactionUp := true;
                 migrate.DisableTransactionDown := true |}],
        migrate.SqlUp, 1)] /\
    migrate.Id raw = "00003_raw_migration".
Proof. cbv zeta. split; [reflexivity|]. eexists. split; reflexivity. Qed.

Section LockMigrations.
Context {W : Type} `{migrate.MigrateEnv W}.

Lemma lock_migrations_pass (m : distrlock.DBManager) :
  Forall passes (lockmigrations.Migrations (W := W) m).
Proof.
  apply Forall_cons. split; [|constructor]. split; [discriminate | reflexivity].
Qed.

(** X12. The migrations of a lock manager, run by a migrations manager
    made for any dialect, as the tests of the package do: sql-migrate is
    called once, for the table [migrations] and with the dialect given,
    [postgres] standing in for [pgx], with the one migration
    [distrlock_00001_create_table], whose statements are the manager's
    [CREATE TABLE] and [DROP TABLE] and which runs in a transaction; no
    limit; the error of sql-migrate is what [Run] returns.  The
    statements name the table of the lock manager, in double quotes for
    PostgreSQL and in backquotes for MySQL. *)
Theorem lock_migrations_run_as_one_migration (m : distrlock.DBManager) (dbConn : DB)
    (dialect : dbkit.Dialect) (direction : migrate.MigrationsDirection) (s : St W)
    (Hdir : direction = migrate.MigrationsDirectionUp \/
            direction = migrate.MigrationsDirectionDown) :
  let mm := fst (migrate.NewMigrationsManager dbConn dialect) in
  let dir := if String.eqb direction migrate.MigrationsDirectionUp
             then migrate.SqlUp else migrate.SqlDown in
  let r := migrate.ExecMax "migrations" dbConn
             (if String.eqb dialect "pgx" then "postgres" else dialect)
             [Some {| migrate.Id := "distrlock_00001_create_table";
                      migrate.Up := [distrlock.createTable (distrlock.queries m)];
                      migrate.Down := [distrlock.dropTable (distrlock.queries m)];
                      migrate.DisableTransactionUp := false;
                      migrate.DisableTransactionDown := false |}]
             dir 0 (world s) in
  migrate.Run mm (lockmigrations.Migrations m) direction s
  = (Val (snd (fst r)),
     mkSt (snd r) (events s ++ match snd (fst r) with
                               | Some e => [EvLogError "db migration failed" e]
                               | None => []
                               end)) /\
  (forall tableName, forPostgres tableName m ->
     distrlock.createTable (distrlock.queries m)
     = "CREATE TABLE " ++ distrlock.dq ++ tableName ++ distrlock.dq
       ++ " (lock_key varchar(40) PRIMARY KEY, token uuid, expire_at timestamp);" /\
     distrlock.dropTable (distrlock.queries m)
     = "DROP TABLE IF EXISTS " ++ distrlock.dq ++ tableName ++ distrlock.dq ++ ";") /\
  (forall tableName,
     distrlock.NewDBManagerWithOpts dbkit.DialectMySQL {| distrlock.TableName := tableName |}
       = inl m ->
     distrlock.createTable (distrlock.queries m)
     = "CREATE TABLE " ++ distrlock.bq ++ tableName ++ distrlock.bq
       ++ " (lock_key VARCHAR(40) PRIMARY KEY, token VARCHAR(36), expire_at BIGINT);" /\
     distrlock.dropTable (distrlock.queries m)
     = "DROP TABLE IF EXISTS " ++ distrlock.bq ++ tableName ++ distrlock.bq ++ ";").
Proof.
  cbv zeta. split; [|split].
  - unfold migrate.Run.
    rewrite (RunLimit_calls_ExecMax (fst (migrate.NewMigrationsManager dbConn dialect))
               (lockmigrations.Migrations m) direction migrate.MigrationsNoLimit s
               (lock_migrations_pass m) Hdir).
    reflexivity.
  - intros tableName (d & [-> | ->] & Hmgr); unfold distrlock.NewDBManagerWithOpts in Hmgr;
      simpl in Hmgr; injection Hmgr as <-; split; reflexivity.
  - intros tableName Hmgr. unfold distrlock.NewDBManagerWithOpts in Hmgr.
    simpl in Hmgr. injection Hmgr as <-. split; reflexivity.
Qed.

End LockMigrations.

(** X12, at work: the setup of the lock tests. *)
Lemma lock_migrations_run_as_one_migration_witness :
  migrate.Run (fst (migrate.NewMigrationsManager 0%nat dbkit.DialectPgx))
    (lockmigrations.Migrations postgresManager) migrate.MigrationsDirectionUp
    (mkSt ([] : MigrateCalls) [])
  = (Val None,
     mkSt [("migrations", "postgres",
            [Some {| migrate.Id := "distrlock_00001_create_table";
                     migrate.Up := [distrlock.createTable (distrlock.queries postgresManager)];
                     migrate.Down := [distrlock.dropTable (distrlock.queries postgresManager)];
                     migrate.DisableTransactionUp := false;
                     migrate.DisableTransactionDown := false |}],
            migrate.SqlUp, 0)] []).
Proof.
  exact (proj1 (lock_migrations_run_as_one_migration (W := MigrateCalls) postgresManager 0%nat
                  dbkit.DialectPgx migrate.MigrationsDirectionUp (mkSt [] [])
                  (or_introl eq_refl))).
Defined.

(** ** What the driver packages register *)

Section PurePredicates.
Context {S : Type}.

(** A predicate without effects, registered for a type that had no
    entry: it is asked about the errors of the unwrap chain. *)
Lemma composed_pure (p : error -> bool) (e : error) (s : S) :
  dbkit.composed None (fun err s0 => (p err, s0)) e s = (existsb p (chain e), s).
Proof.
  induction e as [t | f xs | prefix cause IH]; simpl.
  - destruct (p _); reflexivity.
  - destruct (p _); reflexivity.
  - destruct (p (fmt_Errorf_w prefix cause)); [reflexivity|]. exact IH.
Qed.

Lemma register_fresh (t : dbkit.DriverType) (p : error -> bool)
    (reg : gmap dbkit.DriverType (dbkit.IsRetryable S)) (e : error) (s : S) :
  reg !! t = None ->
  dbkit.GetIsRetryable t (dbkit.RegisterIsRetryableFunc t (fun err s0 => (p err, s0)) reg) e s
  = (existsb p (chain e), s).
Proof.
  intros Hnone. unfold dbkit.GetIsRetryable, dbkit.RegisterIsRetryableFunc.
  rewrite lookup_insert_eq, Hnone. apply composed_pure.
Qed.

Lemma register_other (t t' : dbkit.DriverType) (f : dbkit.IsRetryable S)
    (reg : gmap dbkit.DriverType (dbkit.IsRetryable S)) :
  t' <> t ->
  dbkit.RegisterIsRetryableFunc t f reg !! t' = reg !! t'.
Proof.
  intros Hne. unfold dbkit.RegisterIsRetryableFunc. apply lookup_insert_ne. congruence.
Qed.

(** X13. With the five driver packages imported into a registry that had
    no entry for their driver types, the predicate [GetIsRetryable]
    returns for each of these types says yes exactly when the predicate
    of that package says yes to some error of the unwrap chain, and it
    leaves the state of the predicates alone; the entries of all other
    types, the nil driver included, are as before.  So an error of one
    driver is retried only under that driver's type, and it is retried
    however deeply it is wrapped. *)
Theorem imported_drivers_classify
    (asPq : error -> option postgres.Error) (asPgx : error -> option pgx.PgError)
    (asMySQL : error -> option mysql.MySQLError) (asMSSQL : error -> option mssql.Error)
    (asSQLite : error -> option sqlite.Error)
    (reg : gmap dbkit.DriverType (dbkit.IsRetryable S)) (e : error) (s : S)
    (Hfresh : forall t, In t driverTypes -> reg !! t = None) :
  let reg' := importAll asPq asPgx asMySQL asMSSQL asSQLite reg in
  dbkit.GetIsRetryable postgres.driverType reg' e s
    = (existsb (postgres.isRetryable asPq) (chain e), s) /\
  dbkit.GetIsRetryable pgx.driverType reg' e s
    = (existsb (pgx.isRetryable asPgx) (chain e), s) /\
  dbkit.GetIsRetryable mysql.driverType reg' e s
    = (existsb (mysql.isRetryable asMySQL) (chain e), s) /\
  dbkit.GetIsRetryable mssql.driverType reg' e s
    = (existsb (mssql.isRetryable asMSSQL) (chain e), s) /\
  dbkit.GetIsRetryable sqlite.driverType reg' e s
    = (existsb (sqlite.isRetryable asSQLite) (chain e), s) /\
  (forall t, ~ In t driverTypes -> reg' !! t = reg !! t).
Proof.
  cbv zeta. unfold importAll, sqlite.init, mssql.init, mysql.init, pgx.init, postgres.init.
  assert (H1 := Hfresh postgres.driverType ltac:(simpl; tauto)).
  assert (H2 := Hfresh pgx.driverType ltac:(simpl; tauto)).
  assert (H3 := Hfresh mysql.driverType ltac:(simpl; tauto)).
  assert (H4 := Hfresh mssql.driverType ltac:(simpl; tauto)).
  assert (H5 := Hfresh sqlite.driverType ltac:(simpl; tauto)).
  split; [|split; [|split; [|split; [|split]]]].
  - unfold dbkit.GetIsRetryable at 1.
    rewrite !register_other by discriminate.
    unfold dbkit.RegisterIsRetryableFunc. rewrite lookup_insert_eq, H1. apply composed_pure.
  - unfold dbkit.GetIsRetryable at 1.
    rewrite !register_other by discriminate.
    unfold dbkit.RegisterIsRetryableFunc at 1. rewrite lookup_insert_eq.
    rewrite register_other, H2 by discriminate. apply composed_pure.
  - unfold dbkit.GetIsRetryable at 1.
    rewrite !register_other by discriminate.
    unfold dbkit.RegisterIsRetryableFunc at 1. rewrite lookup_insert_eq.
    rewrite !register_other, H3 by discriminate. apply composed_pure.
  - unfold dbkit.GetIsRetryable at 1.
    rewrite !register_other by discriminate.
    unfold dbkit.RegisterIsRetryableFunc at 1. rewrite lookup_insert_eq.
    rewrite !register_other, H4 by discriminate. apply composed_pure.
  - unfold dbkit.GetIsRetryable at 1.
    unfold dbkit.RegisterIsRetryableFunc at 1. rewrite lookup_insert_eq.
    rewrite !register_other, H5 by discriminate. apply composed_pure.
  - intros t Hnot. rewrite !register_other; [reflexivity|..];
      intros ->; apply Hnot; simpl; tauto.
Qed.

End PurePredicates.

(** X13, at work: a deadlock of lib/pq, wrapped twice, is retried under
    the type of lib/pq and not under the type of pgx. *)
Lemma imported_drivers_classify_witness :
  let reg := importAll (S := unit) asPqByText asPgxByText asMySQLByText asMSSQLByText
               asSQLiteByText ∅ in
  let e := fmt_Errorf_w "commit tx: " (fmt_Errorf_w "flush: " (errors_New "pq: deadlock detected")) in
  dbkit.GetIsRetryable postgres.driverType reg e tt = (true, tt) /\
  dbkit.GetIsRetryable pgx.driverType reg e tt = (false, tt).
Proof.
  cbv zeta.
  destruct (imported_drivers_classify (S := unit) asPqByText asPgxByText asMySQLByText
              asMSSQLByText asSQLiteByText ∅
              (fmt_Errorf_w "commit tx: "
                 (fmt_Errorf_w "flush: " (errors_New "pq: deadlock detected"))) tt)
    as (Hpq & Hpgx & _).
  - intros t _. apply lookup_empty.
  - rewrite Hpq, Hpgx. split; reflexivity.
Defined.

Section CheckProps.
Variables (asPq : error -> option postgres.Error) (asPgx : error -> option pgx.PgError).
Variables (asMySQL : error -> option mysql.MySQLError) (asMSSQL : error -> option mssql.Error).
Variable asSQLite : error -> option sqlite.Error.



End CheckProps.

(** ** Retrying a transaction *)

Section RetryTx.
Context {W : Type} `{SqlEnv W} {S : Type}.

Lemma existsb_chain_wrapped (p : error -> bool) (prefix : string) (cause : error) :
  p (fmt_Errorf_w prefix cause) = false ->
  existsb p (chain (fmt_Errorf_w prefix cause)) = existsb p (chain cause).
Proof. intros Hp. cbn [chain existsb]. rewrite Hp. reflexivity. Qed.

(** X15. What a retry loop around [DoInTx] sees.  Take a predicate
    without effects that says no to wrapping errors themselves,
    registered for a driver type that had no entry.  When [DoInTx]
    returns an error, the registered predicate classifies it as it
    classifies its cause: the error of [BeginTx], or the error the
    function returned (which [DoInTx] returns as it is), or the error of
    [Commit]; and [DoInTx] returns nil exactly when none of the three
    failed.  The predicates of the five driver packages are such
    predicates, as long as the type assertions they make do not take a
    wrapping error for a driver's error. *)
Theorem DoInTx_error_classified_by_cause {A : Type} (t : dbkit.DriverType) (p : error -> bool)
    (reg : gmap dbkit.DriverType (dbkit.IsRetryable S)) (ctx : Context) (dbConn : DB)
    (captured : A) (fn : Tx -> A -> M W (A * option error)) (s : St W) (st : S)
    (Hfresh : reg !! t = None)
    (Hblind : forall prefix cause, p (fmt_Errorf_w prefix cause) = false) :
  let retry (e : error) :=
    fst (dbkit.GetIsRetryable t
           (dbkit.RegisterIsRetryableFunc t (fun err s0 => (p err, s0)) reg) e st) in
  let b := db_BeginTx ctx dbConn None (world s) in
  let tx := fst (fst b) in
  let s1 := mkSt (snd b) (events s ++ [EvBeginTx ctx dbConn None]) in
  let cause :=
    match snd (fst b) with
    | Some c => Some c
    | None =>
        match fn tx captured s1 with
        | (Val (_, Some e), _) => Some e
        | (Val (_, None), s2) => fst (tx_Commit tx (world s2))
        | (Panicked _, _) => None
        end
    end in
  (forall a err, fst (dbkit.DoInTx ctx dbConn captured fn s) = Val (a, err) ->
     (err = None <-> cause = None) /\
     forall e c, err = Some e -> cause = Some c ->
       retry e = retry c /\ retry c = existsb p (chain c)) /\
  (forall (asPq : error -> option postgres.Error) (asPgx : error -> option pgx.PgError)
          (asMySQL : error -> option mysql.MySQLError) (asMSSQL : error -> option mssql.Error)
          (asSQLite : error -> option sqlite.Error) prefix cause,
     (blindToWrappers asPq -> postgres.isRetryable asPq (fmt_Errorf_w prefix cause) = false) /\
     (blindToWrappers asPgx -> pgx.isRetryable asPgx (fmt_Errorf_w prefix cause) = false) /\
     (blindToWrappers asMySQL -> mysql.isRetryable asMySQL (fmt_Errorf_w prefix cause) = false) /\
     (blindToWrappers asMSSQL -> mssql.isRetryable asMSSQL (fmt_Errorf_w prefix cause) = false) /\
     (blindToWrappers asSQLite -> sqlite.isRetryable asSQLite (fmt_Errorf_w prefix cause) = false)).
Proof.
  cbv zeta. split.
  - assert (Hretry : forall e,
              fst (dbkit.GetIsRetryable t
                     (dbkit.RegisterIsRetryableFunc t (fun err s0 => (p err, s0)) reg) e st)
              = existsb p (chain e)).
    { intros e. rewrite (register_fresh t p reg e st Hfresh). reflexivity. }
    intros a err. rewrite DoInTx_run. cbv zeta.
    destruct (db_BeginTx ctx dbConn None (world s)) as [[tx berr] w1]; cbn [fst snd].
    destruct berr as [bc|].
    { cbn [fst]. intros [= <- <-]. split; [split; discriminate|].
      intros e c [= <-] [= <-]. rewrite !Hretry.
      split; [apply existsb_chain_wrapped, Hblind | reflexivity]. }
    destruct (fn tx captured _) as [[[a' [fe|]]|pv] s2]; cbn [fst snd].
    + intros [= <- <-]. split; [split; discriminate|].
      intros e c [= <-] [= <-]. rewrite !Hretry. split; reflexivity.
    + intros [= <- <-]. destruct (fst (tx_Commit tx (world s2))) as [cc|]; cbn [option_map].
      * split; [split; discriminate|].
        intros e c [= <-] [= <-]. rewrite !Hretry.
        split; [apply existsb_chain_wrapped, Hblind | reflexivity].
      * split; [split; reflexivity|]. intros e c [=].
    + intros [=].
  - intros asPq asPgx asMySQL asMSSQL asSQLite prefix cause.
    unfold postgres.isRetryable, pgx.isRetryable, mysql.isRetryable, mssql.isRetryable,
      sqlite.isRetryable.
    repeat split; intros Hb; rewrite (Hb prefix cause); reflexivity.
Qed.

End RetryTx.

(** X15, at work: [Commit] fails with a deadlock of lib/pq; the error
    [DoInTx] returns is retried. *)
Lemma DoInTx_error_classified_by_cause_witness :
  let deadlock := errors_New "pq: deadlock detected" in
  let run := dbkit.DoInTx (Caller 0) 0%nat tt (fnReturns None) (mkSt (withCommit deadlock) []) in
  fst run = Val (tt, Some (fmt_Errorf_w "commit tx: " deadlock)) /\
  fst (dbkit.GetIsRetryable postgres.driverType (postgres.init (S := unit) asPqByText ∅)
         (fmt_Errorf_w "commit tx: " deadlock) tt) = true.
Proof.
  cbv zeta. split; [reflexivity|].
  pose proof (@DoInTx_error_classified_by_cause Mock.World _ unit unit postgres.driverType
                (postgres.isRetryable asPqByText) ∅ (Caller 0) 0%nat tt (fnReturns None)
                (mkSt (withCommit (errors_New "pq: deadlock detected")) []) tt
                (lookup_empty _)) as Hthm.
  cbv zeta in Hthm.
  destruct Hthm as [Hrun _]; [intros prefix cause; reflexivity|].
  destruct (Hrun tt (Some (fmt_Errorf_w "commit tx: " (errors_New "pq: deadlock detected")))
              eq_refl) as [_ Hclass].
  destruct (Hclass _ (errors_New "pq: deadlock detected") eq_refl eq_refl) as [He Hc].
  unfold postgres.init. rewrite He, Hc. reflexivity.
Defined.

(** ** Fencing, through the handles *)

(** X16. While a uuid holds a key, handles with any other uuid are
    fenced out, the tokens being read as uuids by the server: an acquire
    with the text of another uuid returns [ErrLockAlreadyAcquired] and
    leaves the handle as it was, a release and an extension through a
    handle whose token is the text of another uuid return
    [ErrLockAlreadyReleased], and none of them changes the lock table, so
    the holder still holds the key. *)
Theorem other_tokens_are_fenced_out (tableName holder tk u ul : string)
    (m : distrlock.DBManager)
    (l : distrlock.DBLock) (ctx : Context) (ttl : Duration) (w : Postgres.Server)
    (ev : list Event)
    (Hfor : forPostgres tableName m)
    (Hm : distrlock.manager l = Some m)
    (Hctx : ctx_Err ctx w = None)
    (Hheld : Postgres.held (Postgres.lockTable w) (distrlock.Key l) (Postgres.NOW w) holder)
    (Htk : Postgres.uuid_in tk = Some u /\ u <> holder)
    (Htoken : Postgres.uuid_in (distrlock.token l) = Some ul /\ ul <> holder) :
  let conn := Postgres.connection tableName in
  let a := distrlock.AcquireWithStaticToken l ctx conn tk ttl (mkSt w ev) in
  let r := distrlock.Release l ctx conn (mkSt w ev) in
  let e := distrlock.Extend l ctx conn (mkSt w ev) in
  fst a = Val (l, Some distrlock.ErrLockAlreadyAcquired) /\
  fst r = Val (Some distrlock.ErrLockAlreadyReleased) /\
  fst e = Val (Some distrlock.ErrLockAlreadyReleased) /\
  world (snd a) = w /\ world (snd r) = w /\ world (snd e) = w.
Proof.
  destruct Htk as [Hu Hne], Htoken as [Hul Hnel]. cbv zeta.
  rewrite (AcquireWithStaticToken_for tableName m l ctx tk u ttl w ev Hfor Hm Hctx Hu).
  rewrite (Release_on_server tableName m l ctx ul w ev Hfor Hm Hctx Hul).
  rewrite (Extend_on_server tableName m l ctx ul w ev Hfor Hm Hctx Hul).
  cbv zeta.
  rewrite (proj1 (held_not_displaced _ _ _ (Microseconds ttl) holder u Hheld Hne)).
  destruct (held_not_displaced _ _ _ (Microseconds (distrlock.TTL l)) holder ul
              Hheld Hnel) as (_ & -> & ->).
  cbn [fst snd world Z.eqb]. destruct w; repeat split.
Qed.

(** X16, at work: one uuid holds [job-A] until 15; at 7 a handle that once
    acquired with another uuid tries. *)
Lemma other_tokens_are_fenced_out_witness :
  let conn := Postgres.connection distrlock.defaultTableName in
  let s := mkSt (serverAt heldByUuid0 7) [] in
  let l := acquiredHandle "job-A" uuid1 minute in
  fst (distrlock.AcquireWithStaticToken l (Caller 0) conn uuid1 minute s)
    = Val (l, Some distrlock.ErrLockAlreadyAcquired) /\
  fst (distrlock.Release l (Caller 0) conn s) = Val (Some distrlock.ErrLockAlreadyReleased) /\
  fst (distrlock.Extend l (Caller 0) conn s) = Val (Some distrlock.ErrLockAlreadyReleased).
Proof.
  cbv zeta.
  destruct (other_tokens_are_fenced_out distrlock.defaultTableName uuid0 uuid1 uuid1 uuid1
              postgresManager (acquiredHandle "job-A" uuid1 minute) (Caller 0) minute
              (serverAt heldByUuid0 7) []
              postgresManager_forPostgres eq_refl eq_refl heldByUuid0_held)
    as (Ha & Hr & He & _).
  - split; [vm_compute; reflexivity | discriminate].
  - split; [vm_compute; reflexivity | discriminate].
  - split; [exact Ha | split; [exact Hr | exact He]].
Defined.

(** ** Statements and their parameters *)

Lemma countChar_app (c : ascii) (a b : string) :
  countChar c (a ++ b) = (countChar c a + countChar c b)%nat.
Proof.
  induction a as [|d a IH]; simpl; [reflexivity|]. rewrite IH. lia.
Qed.

Lemma dollarParams_clean (a b : string) :
  countChar "$" a = O -> dollarParams (a ++ b) = dollarParams b.
Proof.
  induction a as [|d a IH]; simpl; [reflexivity|].
  destruct (Ascii.eqb d "$"); [discriminate|]. exact IH.
Qed.

(** A statement made of a template: the text before the table name, the
    table name, the text after it. *)
Lemma dollarParams_template (q pre t suf : string) :
  q = pre ++ t ++ suf -> countChar "$" pre = O -> countChar "$" t = O ->
  dollarParams q = dollarParams suf.
Proof.
  intros -> Hp Ht. rewrite (dollarParams_clean pre) by exact Hp. apply dollarParams_clean, Ht.
Qed.

Lemma countChar_template (c : ascii) (q pre t suf : string) :
  q = pre ++ t ++ suf -> countChar c t = O ->
  countChar c q = (countChar c pre + countChar c suf)%nat.
Proof. intros -> Ht. rewrite !countChar_app, Ht. reflexivity. Qed.

Ltac dollars_by_template t pre suf Hd :=
  etransitivity;
  [ apply (dollarParams_template _ pre t suf); [reflexivity | reflexivity | exact Hd]
  | reflexivity ].

Ltac marks_by_template t pre suf Hq :=
  etransitivity;
  [ apply (countChar_template _ _ pre t suf); [reflexivity | exact Hq]
  | reflexivity ].

Ltac mysql_by_template t pre suf Hd Hq :=
  split; [marks_by_template t pre suf Hq | dollars_by_template t pre suf Hd].

Ltac by_template t pre suf Hd Hq :=
  split; [dollars_by_template t pre suf Hd | marks_by_template t pre suf Hq].

Section ParameterProps.
Context {W : Type} `{ContextEnv W}.

Lemma NewLock_trace (m : distrlock.DBManager) (ctx : Context) (ex : Executor W) (key : string)
    (s : St W) :
  key <> EmptyString -> (String.length key <= 40)%nat ->
  events (snd (distrlock.NewLock m ctx ex key s))
  = (events s ++ [EvExec ctx (distrlock.initLock (distrlock.queries m)) [key]])%list.
Proof.
  intros Hne Hlen. unfold distrlock.NewLock.
  destruct (String.eqb_spec key EmptyString) as [-> | _]; [contradiction|].
  replace (Z.ltb 40 (Z.of_nat (String.length key))) with false
    by (symmetry; apply Z.ltb_ge; lia).
  rewrite bind_run. unfold distrlock.exec. rewrite prim_run.
  destruct (ExecContext ex ctx _ _ (world s)) as [[res [e|]] w']; reflexivity.
Qed.

(** X17. Every statement a handle executes gets as many arguments as it
    has placeholders, for PostgreSQL and for MySQL, when the name of the
    lock table has no dollar sign and no question mark in it: the insert
    of [NewLock] one, the acquire four, the release two, the extension
    three. *)
Theorem statements_get_their_parameters (dialect : dbkit.Dialect) (tableName key tk : string)
    (m : distrlock.DBManager) (l : distrlock.DBLock) (ctx : Context) (ex : Executor W)
    (ttl : Duration) (w : W)
    (Hmgr : distrlock.NewDBManagerWithOpts dialect {| distrlock.TableName := tableName |} = inl m)
    (Hclean : countChar "$" tableName = O /\ countChar "?" tableName = O)
    (Hm : distrlock.manager l = Some m)
    (Hkey : key <> EmptyString /\ (String.length key <= 40)%nat) :
  let trace {A : Type} (r : outcome A * St W) := executed (events (snd r)) in
  parametersFit dialect (trace (distrlock.NewLock m ctx ex key (mkSt w []))) /\
  parametersFit dialect (trace (distrlock.AcquireWithStaticToken l ctx ex tk ttl (mkSt w []))) /\
  parametersFit dialect (trace (distrlock.Release l ctx ex (mkSt w []))) /\
  parametersFit dialect (trace (distrlock.Extend l ctx ex (mkSt w []))).
Proof.
  destruct Hclean as [Hd Hq], Hkey as [Hne Hlen]. cbv beta zeta.
  rewrite (NewLock_trace m ctx ex key _ Hne Hlen).
  rewrite (AcquireWithStaticToken_run l m) by exact Hm.
  rewrite (Release_run l m) by exact Hm.
  rewrite (Extend_run l m) by exact Hm.
  cbv zeta. cbn [snd events app executed].
  unfold distrlock.NewDBManagerWithOpts, distrlock.newDBQueries in Hmgr.
  cbn [distrlock.TableName] in Hmgr.
  destruct (String.eqb dialect dbkit.DialectPostgres || String.eqb dialect dbkit.DialectPgx)%bool
    eqn:Hpg.
  - injection Hmgr as <-. cbn [distrlock.queries distrlock.initLock distrlock.acquireLock
                                 distrlock.releaseLock distrlock.extendLock].
    assert (Hnot : String.eqb dialect dbkit.DialectMySQL = false).
    { apply orb_true_iff in Hpg as [Heq | Heq]; apply String.eqb_eq in Heq; subst dialect;
        reflexivity. }
    unfold parametersFit. rewrite Hnot.
    split; [|split; [|split]].
    + by_template tableName ("INSERT INTO " ++ distrlock.dq)
        (distrlock.dq ++ " (lock_key) VALUES ($1) ON CONFLICT (lock_key) DO NOTHING;") Hd Hq.
    + by_template tableName ("UPDATE " ++ distrlock.dq)
        (distrlock.dq ++ " SET expire_at = NOW() + $1::interval, token = $2 WHERE lock_key = $3 AND ((expire_at IS NULL OR expire_at < NOW()) OR token = $4);") Hd Hq.
    + by_template tableName ("UPDATE " ++ distrlock.dq)
        (distrlock.dq ++ " SET expire_at = NULL WHERE lock_key = $1 AND token = $2 AND expire_at >= NOW();") Hd Hq.
    + by_template tableName ("UPDATE " ++ distrlock.dq)
        (distrlock.dq ++ " SET expire_at = NOW() + $1::interval WHERE lock_key = $2 AND token = $3 AND expire_at >= NOW();") Hd Hq.
  - destruct (String.eqb dialect dbkit.DialectMySQL) eqn:Hmy; [|discriminate].
    injection Hmgr as <-. cbn [distrlock.queries distrlock.initLock distrlock.acquireLock
                                 distrlock.releaseLock distrlock.extendLock].
    unfold parametersFit. rewrite Hmy.
    split; [|split; [|split]].
    + mysql_by_template tableName ("INSERT IGNORE " ++ distrlock.bq)
        (distrlock.bq ++ " (lock_key) VALUES (?);") Hd Hq.
    + mysql_by_template tableName ("UPDATE " ++ distrlock.bq)
        (distrlock.bq ++ " SET expire_at = UNIX_TIMESTAMP(DATE_ADD(CURTIME(4), INTERVAL ? MICROSECOND))*10000, token = ? WHERE lock_key = ? AND ((expire_at IS NULL OR expire_at < UNIX_TIMESTAMP(CURTIME(4))*10000) OR token = ?);") Hd Hq.
    + mysql_by_template tableName ("UPDATE " ++ distrlock.bq)
        (distrlock.bq ++ " SET expire_at = NULL WHERE lock_key = ? AND token = ? AND expire_at >= UNIX_TIMESTAMP(CURTIME(4))*10000;") Hd Hq.
    + mysql_by_template tableName ("UPDATE " ++ distrlock.bq)
        (distrlock.bq ++ " SET expire_at = UNIX_TIMESTAMP(DATE_ADD(CURTIME(4), INTERVAL ? MICROSECOND))*10000 WHERE lock_key = ? AND token = ? AND expire_at >= UNIX_TIMESTAMP(CURTIME(4))*10000;") Hd Hq.
Qed.

End ParameterProps.

(** X17, at work: the default table, on the scripted world. *)
Lemma statements_get_their_parameters_witness :
  parametersFit dbkit.DialectPostgres
    (executed (events (snd (distrlock.AcquireWithStaticToken (newHandle "job-A") (Caller 0)
                              Mock.executor "T" minute (mkSt (Mock.happy 1) []))))).
Proof.
  pose proof (@statements_get_their_parameters Mock.World _ dbkit.DialectPostgres
                distrlock.defaultTableName "job-A" "T" postgresManager
                (newHandle "job-A") (Caller 0) Mock.executor minute (Mock.happy 1)) as Hthm.
  cbv beta zeta in Hthm.
  destruct Hthm as (_ & Ha & _).
  - reflexivity.
  - split; reflexivity.
  - reflexivity.
  - split; [discriminate | simpl; lia].
  - exact Ha.
Defined.

(** ** The interval texts *)

Lemma FormatInt_inj (a b : Z) : FormatInt a = FormatInt b -> a = b.
Proof.
  unfold FormatInt. intros Heq.
  apply (f_equal NilZero.int_of_string) in Heq.
  destruct (to_int_not_nil a) as [Hpa Hna], (to_int_not_nil b) as [Hpb Hnb].
  rewrite (NilZero.isi _ Hpa Hna), (NilZero.isi _ Hpb Hnb) in Heq.
  injection Heq as Heq. apply (f_equal Z.of_int) in Heq.
  rewrite !DecimalZ.of_to in Heq. exact Heq.
Qed.

(** X18. The interval a handle passes to the database, from a TTL: for
    PostgreSQL the text the server's cast to [interval] reads back as the
    TTL in whole microseconds, for every TTL, negative ones included; for
    MySQL the same number without the unit.  Two TTLs give the same text
    exactly when they have the same number of whole microseconds. *)
Theorem interval_text_round_trip (d1 d2 : Duration) :
  Postgres.parseInterval (distrlock.postgresMakeInterval d1) = Some (Microseconds d1) /\
  distrlock.postgresMakeInterval d1 = distrlock.mySQLMakeInterval d1 ++ " microseconds" /\
  (distrlock.postgresMakeInterval d1 = distrlock.postgresMakeInterval d2 <->
     Microseconds d1 = Microseconds d2) /\
  (distrlock.mySQLMakeInterval d1 = distrlock.mySQLMakeInterval d2 <->
     Microseconds d1 = Microseconds d2).
Proof.
  split; [apply parseInterval_postgresMakeInterval|]. split; [reflexivity|]. split.
  - split.
    + intros Heq. apply (f_equal Postgres.parseInterval) in Heq.
      rewrite !parseInterval_postgresMakeInterval in Heq. congruence.
    + unfold distrlock.postgresMakeInterval. intros ->. reflexivity.
  - split.
    + apply FormatInt_inj.
    + unfold distrlock.mySQLMakeInterval. intros ->. reflexivity.
Qed.
